(** * libfs: registration handshake and path lookup (HelenOS)

    A shallow embedding of [fs_register] and [libfs_lookup], the glue code
    shared by all file system servers, together with the properties the
    design document states about them.

    Calls through the [libfs_ops_t] table and the IPC answers are recorded
    in an event trace; the backend's node storage is an explicit state that
    is threaded through the calls.

    The window code that stands before them in the same source file is
    embedded in the module [Ui], with theorems of its own. *)

From Stdlib Require Import ZArith List String Ascii Bool Lia Permutation.
Import ListNotations.
Local Open Scope Z_scope.

(** ** Machine integers *)

(** Conversion to [unsigned] (32 bits). *)
Definition to_unsigned (z : Z) : Z := z mod 2 ^ 32.

(** Conversion to [int] (32 bits, two's complement). *)
Definition to_int (z : Z) : Z := (z + 2 ^ 31) mod 2 ^ 32 - 2 ^ 31.

(** Truth value of a C integer expression. *)
Definition c_true (z : Z) : bool := negb (z =? 0).

(** ** Constants of the headers

    [PLB_SIZE] and the [L_] lookup flags come from vfs.h, [NAME_MAX] from
    dirent.h and the error codes from errno.h.  None of these headers is
    part of the sources at hand, so the constants are parameters of the
    development. *)

Class vfs_constants : Type := {
  PLB_SIZE : Z;
  NAME_MAX : Z;
  L_FILE : Z;
  L_DIRECTORY : Z;
  L_EXCLUSIVE : Z;
  L_CREATE : Z;
  L_LINK : Z;
  L_UNLINK : Z;
  L_PARENT : Z;
  EOK : Z;
  ENOENT : Z;
  ENOMEM : Z;
  ENAMETOOLONG : Z;
  ENOTDIR : Z;
  ENOSPC : Z;
  EEXIST : Z;
  EISDIR : Z
}.

(** [lflag & flag] as a condition. *)
Definition has_flag (lflag flag : Z) : bool := c_true (Z.land lflag flag).

(** A flag macro is a single bit. *)
Definition single_bit (m : Z) : Prop := exists k, 0 <= k /\ m = 2 ^ k.

(** ** Nodes, strings and the operations table *)

(** A node is an opaque handle of the backend; [fs_node_t *] may be NULL. *)
Definition fs_node_t : Type := Z.
Definition fs_node_ptr : Type := option fs_node_t.

Definition slash : ascii := "/"%char.

(** The string a NUL-terminated buffer denotes: its bytes up to the first
    NUL. *)
Fixpoint c_str (s : string) : string :=
  match s with
  | EmptyString => EmptyString
  | String c s' => if Ascii.eqb c Ascii.zero then EmptyString
                   else String c (c_str s')
  end.

(** [component[len++] = c]. *)
Definition push_char (component : string) (c : ascii) : string :=
  (component ++ String c EmptyString)%string.

(** [libfs_ops_t] (libfs.h): the table of function pointers the lookup
    drives.  Operations that may change the backend take and return its
    state [S]; the accessors only read it. *)
Record libfs_ops (S : Type) : Type := {
  match_ : fs_node_ptr -> string -> S -> fs_node_ptr * S;
  node_get : Z -> Z -> S -> fs_node_ptr * S;
  node_put : fs_node_ptr -> S -> S;
  create : Z -> Z -> S -> fs_node_ptr * S;
  destroy : fs_node_ptr -> S -> Z * S;
  link : fs_node_ptr -> fs_node_ptr -> string -> S -> Z * S;
  unlink : fs_node_ptr -> fs_node_ptr -> S -> Z * S;
  index_get : fs_node_ptr -> S -> Z;
  size_get : fs_node_ptr -> S -> Z;
  lnkcnt_get : fs_node_ptr -> S -> Z;
  has_children : fs_node_ptr -> S -> bool;
  root_get : Z -> S -> fs_node_ptr * S;
  plb_get_char : Z -> ascii;
  is_directory : fs_node_ptr -> S -> bool;
  is_file : fs_node_ptr -> S -> bool
}.

Arguments match_ {S}.
Arguments node_get {S}.
Arguments node_put {S}.
Arguments create {S}.
Arguments destroy {S}.
Arguments link {S}.
Arguments unlink {S}.
Arguments index_get {S}.
Arguments size_get {S}.
Arguments lnkcnt_get {S}.
Arguments has_children {S}.
Arguments root_get {S}.
Arguments plb_get_char {S}.
Arguments is_directory {S}.
Arguments is_file {S}.

(** ** Events and the computation monad *)

Inductive event : Type :=
| EvRootGet (dev_handle : Z) (res : fs_node_ptr)
| EvMatch (cur : fs_node_ptr) (component : string) (res : fs_node_ptr)
| EvNodeGet (dev_handle index : Z) (res : fs_node_ptr)
| EvCreate (dev_handle lflag : Z) (res : fs_node_ptr)
| EvLink (cur fn : fs_node_ptr) (component : string) (rc : Z)
| EvUnlink (par cur : fs_node_ptr) (rc : Z)
| EvDestroy (fn : fs_node_ptr) (rc : Z)
| EvNodePut (nodep : fs_node_ptr)
| EvAnswer0 (rid retval : Z)
| EvAnswer5 (rid retval arg1 arg2 arg3 arg4 arg5 : Z).

Definition trace : Type := list event.

(** The result of running a piece of the code: it ends with a value, it
    stops in a failed [assert], or the model runs out of fuel. *)
Inductive outcome (S A : Type) : Type :=
| Done (a : A) (s : S) (tr : trace)
| Abort (s : S) (tr : trace)
| OutOfFuel.

Arguments Done {S A}.
Arguments Abort {S A}.
Arguments OutOfFuel {S A}.

Definition M (S A : Type) : Type := S -> outcome S A.

Definition ret {S A} (a : A) : M S A := fun s => Done a s [].

(** The events [tr] happened before the outcome [o]. *)
Definition prepend {S A} (tr : trace) (o : outcome S A) : outcome S A :=
  match o with
  | Done a s tr' => Done a s (tr ++ tr')
  | Abort s tr' => Abort s (tr ++ tr')
  | OutOfFuel => OutOfFuel
  end.

(** What follows the outcome [o] when the code goes on with [f]. *)
Definition and_then {S A B} (o : outcome S A) (f : A -> M S B)
  : outcome S B :=
  match o with
  | Done a s1 tr1 => prepend tr1 (f a s1)
  | Abort s1 tr1 => Abort s1 tr1
  | OutOfFuel => OutOfFuel
  end.

Definition bind {S A B} (m : M S A) (f : A -> M S B) : M S B :=
  fun s => and_then (m s) f.

Declare Scope libfs_scope.
Delimit Scope libfs_scope with libfs.
Notation "x <- m ;; k" := (bind m (fun x => k))
  (at level 100, m at next level, right associativity) : libfs_scope.
Notation "m ;; k" := (bind m (fun _ => k))
  (at level 100, right associativity) : libfs_scope.
Local Open Scope libfs_scope.

(** Reading the backend state. *)
Definition gets {S A} (f : S -> A) : M S A := fun s => Done (f s) s [].

(** A call that changes the state and is logged with its result. *)
Definition call {S A} (f : S -> A * S) (ev : A -> event) : M S A :=
  fun s => let (a, s') := f s in Done a s' [ev a].

Definition emit {S} (e : event) : M S unit := fun s => Done tt s [e].

Definition out_of_fuel {S A} : M S A := fun _ => OutOfFuel.

(** [assert(e)]. *)
Definition assert {S} (b : bool) : M S unit :=
  fun s => if b then Done tt s [] else Abort s [].

(** The local node pointers of [libfs_lookup], as they are at [out:]. *)
Record locals : Type := mk_locals {
  l_par : fs_node_ptr;
  l_cur : fs_node_ptr;
  l_tmp : fs_node_ptr
}.

(** How the walk loop is left: by [goto out], or by falling out of the
    [while] with the values of [par], [cur] and [next]. *)
Inductive walk_exit : Type :=
| GotoOut (l : locals)
| Fallthrough (par cur : fs_node_ptr) (next : Z).

(** How the body of the walk loop is left: by [goto out], or at its end
    with the new values of [par], [cur] and [next]. *)
Inductive body_exit : Type :=
| BodyGoto (l : locals)
| BodyNext (par cur : fs_node_ptr) (next : Z).

(** How the component collection of the walk loop is left. *)
Inductive collected : Type :=
| Overflow
| Collected (next len : Z) (component : string).

(** How the collection of an excessive component is left. *)
Inductive excess_collected : Type :=
| XSlash
| XOverflow
| XCollected (len : Z) (component : string).

(** [VFS_LOOKUP] request data: the five arguments of the call. *)
Record ipc_call_t : Type := mk_call {
  IPC_GET_ARG1 : Z;
  IPC_GET_ARG2 : Z;
  IPC_GET_ARG3 : Z;
  IPC_GET_ARG4 : Z;
  IPC_GET_ARG5 : Z
}.

(** ** libfs_lookup *)

Section Lookup.
Context {K : vfs_constants} {S : Type}.
Variable ops : libfs_ops S.
Variables fs_handle rid : Z.

Definition ipc_answer_0 (retval : Z) : M S unit :=
  emit (EvAnswer0 rid retval).

Definition ipc_answer_5 (retval a1 a2 a3 a4 a5 : Z) : M S unit :=
  emit (EvAnswer5 rid retval a1 a2 a3 a4 a5).

Definition ops_node_put (p : fs_node_ptr) : M S unit :=
  fun s => Done tt (node_put ops p s) [EvNodePut p].

(** [if (p) ops->node_put(p);] *)
Definition put_if (p : fs_node_ptr) : M S unit :=
  match p with
  | Some _ => ops_node_put p
  | None => ret tt
  end.

Definition goto_out (par cur tmp : fs_node_ptr) : M S locals :=
  ret (mk_locals par cur tmp).

(** The backend state after [if (p) ops->node_put(p);]. *)
Definition put_state (p : fs_node_ptr) (s : S) : S :=
  match p with
  | Some _ => node_put ops p s
  | None => s
  end.

(** The backend state after the code at [out:]. *)
Definition cleanup_state (l : locals) (s : S) : S :=
  put_state (l_tmp l) (put_state (l_cur l) (put_state (l_par l) s)).

Section Body.
(** [last] after the wrap-around adjustment, and the other request
    data. *)
Variables last dev_handle lflag index : Z.

(** Lines 1332-1340: collect the component.  [len] stays below
    [NAME_MAX], so that the buffer of [NAME_MAX + 1] bytes is not overrun,
    provided that [1 <= NAME_MAX]. *)
Fixpoint collect_component (fuel : nat) (next len : Z) (component : string)
  : option collected :=
  match fuel with
  | O => None
  | Datatypes.S fuel' =>
    if (next <=? last) && negb (Ascii.eqb (plb_get_char ops next) slash)
    then
      if len + 1 =? NAME_MAX then Some Overflow
      else collect_component fuel' (to_unsigned (next + 1)) (len + 1)
             (push_char component (plb_get_char ops next))
    else Some (Collected next len component)
  end.

(** Lines 1363-1388 and, once more, lines 1436-1459: get a node by
    creating it or by its index, and link it under [cur]. *)
Definition create_and_link (cur : fs_node_ptr) (component : string)
  : M S unit :=
  fn <- (if c_true (Z.land lflag L_CREATE)
         then call (create ops dev_handle lflag) (EvCreate dev_handle lflag)
         else call (node_get ops dev_handle index)
                   (EvNodeGet dev_handle index)) ;;
  match fn with
  | Some _ =>
    rc <- call (link ops cur fn component) (EvLink cur fn component) ;;
    if negb (rc =? EOK) then
      (if c_true (Z.land lflag L_CREATE)
       then (_ <- call (destroy ops fn) (EvDestroy fn) ;; ret tt)
       else ret tt) ;;
      ipc_answer_0 rc
    else
      i <- gets (index_get ops fn) ;;
      sz <- gets (size_get ops fn) ;;
      lc <- gets (lnkcnt_get ops fn) ;;
      ipc_answer_5 EOK fs_handle dev_handle i sz lc ;;
      ops_node_put fn
  | None => ipc_answer_0 ENOSPC
  end.

(** Lines 1356-1397: the miss in the last component. *)
Definition miss_last (par cur tmp : fs_node_ptr) (component : string)
  : M S locals :=
  if c_true (Z.land lflag (Z.lor L_CREATE L_LINK)) then
    isdir <- gets (is_directory ops cur) ;;
    if negb isdir then
      ipc_answer_0 ENOTDIR ;;
      goto_out par cur tmp
    else
      create_and_link cur component ;;
      goto_out par cur tmp
  else
    (if c_true (Z.land lflag L_PARENT) then
       i <- gets (index_get ops cur) ;;
       sz <- gets (size_get ops cur) ;;
       lc <- gets (lnkcnt_get ops cur) ;;
       ipc_answer_5 EOK fs_handle dev_handle i sz lc
     else ret tt) ;;
    ipc_answer_0 ENOENT ;;
    goto_out par cur tmp.

(** Lines 1330-1406: the body of the walk loop, one component of the
    path.  [tmp] is NULL whenever the body is entered. *)
Definition walk_body (fuel : nat) (par cur : fs_node_ptr) (next : Z)
  : M S body_exit :=
  match collect_component fuel next 0 EmptyString with
  | None => out_of_fuel
  | Some Overflow =>
    ipc_answer_0 ENAMETOOLONG ;;
    l <- goto_out par cur None ;; ret (BodyGoto l)
  | Some (Collected next len component) =>
    assert (c_true len) ;;
    let next := to_unsigned (next + 1) in
    tmp <- call (match_ ops cur (c_str component))
                (EvMatch cur (c_str component)) ;;
    match tmp with
    | None =>
      if next <=? last then
        ipc_answer_0 ENOENT ;;
        l <- goto_out par cur tmp ;; ret (BodyGoto l)
      else
        l <- miss_last par cur tmp (c_str component) ;;
        ret (BodyGoto l)
    | Some _ =>
      put_if par ;;
      ret (BodyNext cur tmp next)
    end
  end.

(** Line 1329: the condition of the walk loop. *)
Definition walk_cond (cur : fs_node_ptr) (next : Z) (s : S) : bool :=
  (next <=? last) && has_children ops cur s.

(** Lines 1329-1407: the walk down the tree. *)
Fixpoint lookup_walk (fuel : nat) (par cur : fs_node_ptr) (next : Z)
  : M S walk_exit :=
  match fuel with
  | O => out_of_fuel
  | Datatypes.S fuel' =>
    go <- gets (walk_cond cur next) ;;
    if negb go then ret (Fallthrough par cur next)
    else
      b <- walk_body fuel' par cur next ;;
      match b with
      | BodyGoto l => ret (GotoOut l)
      | BodyNext par' cur' next' => lookup_walk fuel' par' cur' next'
      end
  end.

(** Lines 1419-1432: collect the one component that may follow a node
    without children. *)
Fixpoint collect_excess (fuel : nat) (next len : Z) (component : string)
  : option excess_collected :=
  match fuel with
  | O => None
  | Datatypes.S fuel' =>
    if next <=? last then
      if Ascii.eqb (plb_get_char ops next) slash then Some XSlash
      else if len + 1 =? NAME_MAX then Some XOverflow
      else collect_excess fuel' (to_unsigned (next + 1)) (len + 1)
             (push_char component (plb_get_char ops next))
    else Some (XCollected len component)
  end.

(** Lines 1410-1464: excessive components. *)
Definition handle_excess (fuel : nat) (par cur : fs_node_ptr) (next : Z)
  : M S locals :=
  if c_true (Z.land lflag (Z.lor L_CREATE L_LINK)) then
    isdir <- gets (is_directory ops cur) ;;
    if negb isdir then
      ipc_answer_0 ENOTDIR ;;
      goto_out par cur None
    else
      match collect_excess fuel next 0 EmptyString with
      | None => out_of_fuel
      | Some XSlash =>
        ipc_answer_0 ENOENT ;;
        goto_out par cur None
      | Some XOverflow =>
        ipc_answer_0 ENAMETOOLONG ;;
        goto_out par cur None
      | Some (XCollected len component) =>
        assert (c_true len) ;;
        create_and_link cur (c_str component) ;;
        goto_out par cur None
      end
  else
    ipc_answer_0 ENOENT ;;
    goto_out par cur None.

(** Lines 1476-1498: the hit, once [L_PARENT] has been dealt with. *)
Definition handle_hit_flags (par cur : fs_node_ptr) : M S locals :=
  if c_true (Z.land lflag L_UNLINK) then
    old_lnkcnt <- gets (lnkcnt_get ops cur) ;;
    res <- call (unlink ops par cur) (EvUnlink par cur) ;;
    i <- gets (index_get ops cur) ;;
    sz <- gets (size_get ops cur) ;;
    ipc_answer_5 res fs_handle dev_handle i sz old_lnkcnt ;;
    goto_out par cur None
  else if (Z.land lflag (Z.lor L_CREATE L_EXCLUSIVE)
             =? Z.lor L_CREATE L_EXCLUSIVE)
          || c_true (Z.land lflag L_LINK) then
    ipc_answer_0 EEXIST ;;
    goto_out par cur None
  else
    isdir <- (if c_true (Z.land lflag L_FILE)
              then gets (is_directory ops cur) else ret false) ;;
    if isdir then
      ipc_answer_0 EISDIR ;;
      goto_out par cur None
    else
      isfile <- (if c_true (Z.land lflag L_DIRECTORY)
                 then gets (is_file ops cur) else ret false) ;;
      if isfile then
        ipc_answer_0 ENOTDIR ;;
        goto_out par cur None
      else
        i <- gets (index_get ops cur) ;;
        sz <- gets (size_get ops cur) ;;
        lc <- gets (lnkcnt_get ops cur) ;;
        ipc_answer_5 EOK fs_handle dev_handle i sz lc ;;
        goto_out par cur None.

(** Lines 1466-1498: the hit. *)
Definition handle_hit (par cur : fs_node_ptr) : M S locals :=
  if c_true (Z.land lflag L_PARENT) then
    ops_node_put cur ;;
    match par with
    | None =>
      ipc_answer_0 ENOENT ;;
      goto_out None None None
    | Some _ => handle_hit_flags None par
    end
  else handle_hit_flags par cur.

(** Lines 1409-1498: what follows the walk loop. *)
Definition after_walk (fuel : nat) (par cur : fs_node_ptr) (next : Z)
  : M S locals :=
  excess <- gets (fun s => (next <=? last) && negb (has_children ops cur s)) ;;
  if excess then handle_excess fuel par cur next
  else handle_hit par cur.

(** Lines 1500-1506, the code at [out:]. *)
Definition cleanup (l : locals) : M S unit :=
  put_if (l_par l) ;;
  put_if (l_cur l) ;;
  put_if (l_tmp l).

(** Lines 1329-1506: the function from the head of the walk loop on. *)
Definition lookup_from (fuel : nat) (par cur : fs_node_ptr) (next : Z)
  : M S unit :=
  w <- lookup_walk fuel par cur next ;;
  l <- match w with
       | GotoOut l => ret l
       | Fallthrough par' cur' next' => after_walk fuel par' cur' next'
       end ;;
  cleanup l.

(** The walk loop, entered with [par], [cur], [next] in the state [s],
    comes back to its head with [par'], [cur'], [next'] in the state [s']
    after some iterations that emitted [tr]. *)
Inductive descends
  : fs_node_ptr -> fs_node_ptr -> Z -> S ->
    fs_node_ptr -> fs_node_ptr -> Z -> S -> trace -> Prop :=
| descends_here par cur next s :
    descends par cur next s par cur next s []
| descends_step fuel par cur next s par1 cur1 next1 s1 tr1
                par2 cur2 next2 s2 tr2 :
    walk_cond cur next s = true ->
    walk_body fuel par cur next s = Done (BodyNext par1 cur1 next1) s1 tr1 ->
    descends par1 cur1 next1 s1 par2 cur2 next2 s2 tr2 ->
    descends par cur next s par2 cur2 next2 s2 (tr1 ++ tr2).

(** At the head of the walk loop with [cur], [next] in the state [s], the
    last component of the path, [component], names no child of [cur]:
    either the walk misses it and nothing follows it, or [cur] has no
    children and [component] is all that is left of the path.  The state
    is [s1] by then, and [tr] has been emitted. *)
Inductive misses_last (cur : fs_node_ptr) (next : Z) (s : S)
  : string -> S -> trace -> Prop :=
| miss_in_walk fuel next1 len component s1 :
    walk_cond cur next s = true ->
    collect_component fuel next 0 EmptyString
      = Some (Collected next1 len component) ->
    len <> 0 ->
    match_ ops cur (c_str component) s = (None, s1) ->
    last < to_unsigned (next1 + 1) ->
    misses_last cur next s (c_str component) s1
      [EvMatch cur (c_str component) None]
| miss_after_walk fuel len component :
    next <= last ->
    has_children ops cur s = false ->
    collect_excess fuel next 0 EmptyString = Some (XCollected len component) ->
    len <> 0 ->
    misses_last cur next s (c_str component) s [].



(** No two slashes follow each other in bytes [next .. last]. *)
Definition canonical (next : Z) : Prop :=
  forall p, next <= p < last ->
    plb_get_char ops p = slash -> plb_get_char ops (p + 1) <> slash.

End Body.

(** [last] as the loops use it (lines 1319-1320). *)
Definition effective_last (next last : Z) : Z :=
  if last <? next then to_unsigned (last + PLB_SIZE) else last.

(** [next] once the leading slash is eaten (lines 1326-1327). *)
Definition first_next (next : Z) : Z :=
  if Ascii.eqb (plb_get_char ops next) slash
  then to_unsigned (next + 1) else next.

Definition libfs_lookup (fuel : nat) (request : ipc_call_t) : M S unit :=
  let next := to_unsigned (IPC_GET_ARG1 request) in
  let last := to_unsigned (IPC_GET_ARG2 request) in
  let dev_handle := IPC_GET_ARG3 request in
  let lflag := to_int (IPC_GET_ARG4 request) in
  let index := IPC_GET_ARG5 request in
  let last := effective_last next last in
  cur <- call (root_get ops dev_handle) (EvRootGet dev_handle) ;;
  let next := first_next next in
  lookup_from last dev_handle lflag index fuel None cur next.

(** The request data as [libfs_lookup] reads them. *)
Definition req_next (request : ipc_call_t) : Z :=
  to_unsigned (IPC_GET_ARG1 request).

Definition req_last (request : ipc_call_t) : Z :=
  effective_last (req_next request) (to_unsigned (IPC_GET_ARG2 request)).

Definition req_dev (request : ipc_call_t) : Z := IPC_GET_ARG3 request.

Definition req_lflag (request : ipc_call_t) : Z :=
  to_int (IPC_GET_ARG4 request).

Definition req_index (request : ipc_call_t) : Z := IPC_GET_ARG5 request.

(** The value of [next] when the walk loop is first entered. *)
Definition req_start (request : ipc_call_t) : Z :=
  first_next (req_next request).

(** Serving [request] in the state [s], the function arrives at the head
    of the walk loop with [par], [cur], [next] in the state [s1], having
    emitted [tr]. *)
Definition walks_to (request : ipc_call_t) (s : S)
  (par cur : fs_node_ptr) (next : Z) (s1 : S) (tr : trace) : Prop :=
  exists root s0 tr0,
    root_get ops (req_dev request) s = (root, s0) /\
    descends (req_last request) (req_dev request) (req_lflag request)
      (req_index request) None root (req_start request) s0
      par cur next s1 tr0 /\
    tr = EvRootGet (req_dev request) root :: tr0.

(** A request the lookup is meant for: its offsets stay clear of the end
    of the [unsigned] range, and its path is in the canonical format. *)
Definition well_formed (request : ipc_call_t) : Prop :=
  req_next request <= req_last request /\
  req_last request + 2 < 2 ^ 32 /\
  canonical (req_last request) (req_next request).

(** Fuel that is enough for a well-formed request. *)
Definition lookup_fuel (request : ipc_call_t) : nat :=
  Z.to_nat (req_last request + 3 - req_next request).
End Lookup.


(** ** The path lookup buffer *)

(** Modelled from the spec: [plb_get_char] is implemented by each file
    system server and is not part of the sources at hand.  The design
    document describes it as the accessor that, given an absolute offset,
    returns the character at that offset modulo the capacity of the
    buffer. *)
Definition plb_read {K : vfs_constants} (plb : list ascii) (pos : Z) : ascii :=
  nth (Z.to_nat (pos mod PLB_SIZE)) plb Ascii.zero.

(** The operations table [ops] reading the path from the buffer [plb]. *)
Definition with_plb {K : vfs_constants} {S : Type} (ops : libfs_ops S)
  (plb : list ascii) : libfs_ops S :=
  {| match_ := match_ ops;
     node_get := node_get ops;
     node_put := node_put ops;
     create := create ops;
     destroy := destroy ops;
     link := link ops;
     unlink := unlink ops;
     index_get := index_get ops;
     size_get := size_get ops;
     lnkcnt_get := lnkcnt_get ops;
     has_children := has_children ops;
     root_get := root_get ops;
     plb_get_char := plb_read plb;
     is_directory := is_directory ops;
     is_file := is_file ops |}.

(** The same outcome with another value. *)
Definition map_outcome {S A B} (f : A -> B) (o : outcome S A)
  : outcome S B :=
  match o with
  | Done a s tr => Done (f a) s tr
  | Abort s tr => Abort s tr
  | OutOfFuel => OutOfFuel
  end.

(** The ways out of the loop body and of the walk loop when every offset
    is moved by [d]. *)
Definition shift_body (d : Z) (b : body_exit) : body_exit :=
  match b with
  | BodyGoto l => BodyGoto l
  | BodyNext par cur next => BodyNext par cur (next + d)
  end.

Definition shift_walk (d : Z) (w : walk_exit) : walk_exit :=
  match w with
  | GotoOut l => GotoOut l
  | Fallthrough par cur next => Fallthrough par cur (next + d)
  end.

(** ** fs_register *)

(** Modelled from the spec: the declaration of [ipc_connect_to_me]
    (ipc/ipc.h) is not part of the sources at hand, and line 1256 makes no
    use of what it returns.  The design document has the request for a
    callback channel among the steps of which "each may fail
    independently": the call gives a status, and stores a phone hash. *)
Record connect_reply : Type := {
  connect_rc : Z;
  connect_phonehash : Z
}.

(** What VFS and the kernel answer to the calls of one registration:
    the result of [ipc_data_write_start], the outcome of
    [ipc_connect_to_me], the address [as_get_mappable_page] returns (0 for
    NULL), the result of [ipc_share_in_start_0_0], and the return value
    and first argument of the answer to [VFS_REGISTER]. *)
Record vfs_replies : Type := {
  data_write_rc : Z;
  connect : connect_reply;
  mappable_page : Z;
  share_in_rc : Z;
  answer_retval : Z;
  answer_arg1 : Z
}.

Record fs_reg_t : Type := mk_reg {
  reg_fs_handle : Z;
  reg_plb_ro : Z;
  reg_vfs_phonehash : Z
}.

Inductive reg_event : Type :=
| RegSend (vfs_phone : Z)
| RegDataWriteStart (vfs_phone : Z) (rc : Z)
| RegConnectToMe (vfs_phone : Z) (rc : Z)
| RegGetMappablePage (size : Z) (page : Z)
| RegShareInStart (vfs_phone page size : Z) (rc : Z)
| RegWaitFor
| RegNewConnection (phonehash : Z)
| RegSetClientConnection.

(** Lines 1233-1294.  The result is the returned code, the registration
    structure as the function leaves it, and the calls made.  The result
    of [ipc_connect_to_me] (line 1256) appears in the trace only: the
    function does not look at it.  The function returns [int]: the status
    word of the answer is converted on return (line 1293), as its first
    argument is by the cast of line 1280. *)
Definition fs_register {K : vfs_constants} (vfs_phone : Z) (reg : fs_reg_t)
  (env : vfs_replies) : Z * fs_reg_t * list reg_event :=
  let tr := [RegSend vfs_phone] in
  let rc := data_write_rc env in
  let tr := tr ++ [RegDataWriteStart vfs_phone rc] in
  if negb (rc =? EOK) then
    (rc, reg, tr ++ [RegWaitFor])
  else
    let tr := tr ++ [RegConnectToMe vfs_phone (connect_rc (connect env))] in
    let reg := mk_reg (reg_fs_handle reg) (reg_plb_ro reg)
                 (connect_phonehash (connect env)) in
    let tr := tr ++ [RegGetMappablePage PLB_SIZE (mappable_page env)] in
    let reg := mk_reg (reg_fs_handle reg) (mappable_page env)
                 (reg_vfs_phonehash reg) in
    if negb (c_true (reg_plb_ro reg)) then
      (ENOMEM, reg, tr ++ [RegWaitFor])
    else
      let rc := share_in_rc env in
      let tr := tr ++ [RegShareInStart vfs_phone (reg_plb_ro reg) PLB_SIZE rc] in
      if c_true rc then
        (rc, reg, tr ++ [RegWaitFor])
      else
        let tr := tr ++ [RegWaitFor] in
        let reg := mk_reg (to_int (answer_arg1 env)) (reg_plb_ro reg)
                     (reg_vfs_phonehash reg) in
        let tr := tr ++ [RegNewConnection (reg_vfs_phonehash reg)] in
        let tr := tr ++ [RegSetClientConnection] in
        (to_int (answer_retval env), reg, tr).

(** The code of the first step that fails among the steps whose result
    [fs_register] examines. *)
Definition first_checked_failure {K : vfs_constants} (env : vfs_replies)
  : option Z :=
  if negb (data_write_rc env =? EOK) then Some (data_write_rc env)
  else if mappable_page env =? 0 then Some ENOMEM
  else if negb (share_in_rc env =? 0) then Some (share_in_rc env)
  else None.

Definition is_wait (e : reg_event) : bool :=
  match e with
  | RegWaitFor => true
  | _ => false
  end.

(** The calls that set up the connection fibril (lines 1285-1291). *)
Definition is_connection (e : reg_event) : bool :=
  match e with
  | RegNewConnection _ | RegSetClientConnection => true
  | _ => false
  end.

(** ** Reading a trace *)

Definition is_answer (e : event) : bool :=
  match e with
  | EvAnswer0 _ _ | EvAnswer5 _ _ _ _ _ _ _ => true
  | _ => false
  end.

(** The replies sent during a run. *)
Definition answers (tr : trace) : trace := filter is_answer tr.

(** The node references a run takes into [cur] and [tmp]: those returned
    by [root_get] and by [match]. *)
Fixpoint acquired (tr : trace) : list fs_node_t :=
  match tr with
  | [] => []
  | EvRootGet _ (Some n) :: tr' => n :: acquired tr'
  | EvMatch _ _ (Some n) :: tr' => n :: acquired tr'
  | _ :: tr' => acquired tr'
  end.

(** The nodes a run links into the tree. *)
Fixpoint linked {K : vfs_constants} (tr : trace) : list fs_node_t :=
  match tr with
  | [] => []
  | EvLink _ (Some n) _ rc :: tr' =>
    if rc =? EOK then n :: linked tr' else linked tr'
  | _ :: tr' => linked tr'
  end.

(** The node references a run gives back with [node_put]. *)
Fixpoint released (tr : trace) : list fs_node_t :=
  match tr with
  | [] => []
  | EvNodePut (Some n) :: tr' => n :: released tr'
  | _ :: tr' => released tr'
  end.

Definition is_null_put (e : event) : bool :=
  match e with
  | EvNodePut None => true
  | _ => false
  end.

Definition is_node_get (e : event) : bool :=
  match e with
  | EvNodeGet _ _ _ => true
  | _ => false
  end.

Definition is_create (e : event) : bool :=
  match e with
  | EvCreate _ _ _ => true
  | _ => false
  end.

Definition is_destroy (e : event) : bool :=
  match e with
  | EvDestroy _ _ => true
  | _ => false
  end.

(** The pointers that are not NULL. *)
Definition held (ps : list fs_node_ptr) : list fs_node_t :=
  flat_map (fun p => match p with Some n => [n] | None => [] end) ps.

(** How many of the pointers [ps] hold the node [n]. *)
Definition holds (n : fs_node_t) (ps : list fs_node_ptr) : Z :=
  Z.of_nat (count_occ Z.eq_dec (held ps) n).

(** The number of references to the node [n] that a run is left with:
    those it took or saw linked, less those it gave back. *)
Definition owed {K : vfs_constants} (n : fs_node_t) (tr : trace) : Z :=
  Z.of_nat (count_occ Z.eq_dec (acquired tr) n)
  + Z.of_nat (count_occ Z.eq_dec (linked tr) n)
  - Z.of_nat (count_occ Z.eq_dec (released tr) n).

(** The pointers a way out of the walk loop leaves in the locals. *)
Definition exit_pointers (w : walk_exit) : list fs_node_ptr :=
  match w with
  | GotoOut l => [l_par l; l_cur l; l_tmp l]
  | Fallthrough par cur _ => [par; cur]
  end.

Definition body_pointers (b : body_exit) : list fs_node_ptr :=
  match b with
  | BodyGoto l => [l_par l; l_cur l; l_tmp l]
  | BodyNext par cur _ => [par; cur]
  end.

(** The calls at [out:] for given values of [par], [cur] and [tmp]. *)
Definition cleanup_trace (l : locals) : trace :=
  map (fun n => EvNodePut (Some n)) (held [l_par l; l_cur l; l_tmp l]).

(** ** A small backend to run the code on

    An in-memory file system in the manner of tmpfs: nodes are kept in a
    list and are named by their index; the backend counts the references
    it has handed out. *)

Module Ramfs.

(** One choice of the header constants: a lookup buffer of sixteen bytes,
    names of fewer than four characters, one bit per flag. *)
#[export] Instance constants : vfs_constants := {|
  PLB_SIZE := 16;
  NAME_MAX := 4;
  L_FILE := 1;
  L_DIRECTORY := 2;
  L_EXCLUSIVE := 4;
  L_CREATE := 8;
  L_LINK := 16;
  L_UNLINK := 32;
  L_PARENT := 64;
  EOK := 0;
  ENOENT := -1;
  ENOMEM := -2;
  ENAMETOOLONG := -256;
  ENOTDIR := -258;
  ENOSPC := -259;
  EEXIST := -260;
  EISDIR := -257
|}.

Record rnode : Type := mk_rnode {
  r_index : Z;
  r_dir : bool;
  r_size : Z;
  r_lnkcnt : Z;
  r_children : list (string * Z)
}.

Record ramfs : Type := mk_ramfs {
  r_nodes : list rnode;
  r_capacity : nat;
  r_link_rc : Z;
  r_refs : Z
}.

Definition find_node (i : Z) (s : ramfs) : option rnode :=
  find (fun n => r_index n =? i) (r_nodes s).

Definition node_of (p : fs_node_ptr) (s : ramfs) : option rnode :=
  match p with
  | Some i => find_node i s
  | None => None
  end.

Definition set_nodes (s : ramfs) (ns : list rnode) : ramfs :=
  mk_ramfs ns (r_capacity s) (r_link_rc s) (r_refs s).

Definition add_refs (d : Z) (s : ramfs) : ramfs :=
  mk_ramfs (r_nodes s) (r_capacity s) (r_link_rc s) (r_refs s + d).

Definition update_node (i : Z) (f : rnode -> rnode) (s : ramfs) : ramfs :=
  set_nodes s (map (fun n => if r_index n =? i then f n else n) (r_nodes s)).

Definition fresh_index (s : ramfs) : Z :=
  1 + fold_right Z.max 0 (map r_index (r_nodes s)).

Definition child_named (name : string) (n : rnode) : option Z :=
  match find (fun c => String.eqb (fst c) name) (r_children n) with
  | Some c => Some (snd c)
  | None => None
  end.

Definition r_match (cur : fs_node_ptr) (name : string) (s : ramfs)
  : fs_node_ptr * ramfs :=
  match node_of cur s with
  | Some n =>
    match child_named name n with
    | Some i => (Some i, add_refs 1 s)
    | None => (None, s)
    end
  | None => (None, s)
  end.

Definition r_node_get (dev index : Z) (s : ramfs) : fs_node_ptr * ramfs :=
  match find_node index s with
  | Some _ => (Some index, add_refs 1 s)
  | None => (None, s)
  end.

Definition r_node_put (p : fs_node_ptr) (s : ramfs) : ramfs :=
  match p with
  | Some _ => add_refs (-1) s
  | None => s
  end.

Definition r_create (dev lflag : Z) (s : ramfs) : fs_node_ptr * ramfs :=
  if (List.length (r_nodes s) <? r_capacity s)%nat then
    let i := fresh_index s in
    let n := mk_rnode i (c_true (Z.land lflag L_DIRECTORY)) 0 0 [] in
    (Some i, add_refs 1 (set_nodes s (r_nodes s ++ [n])))
  else (None, s).

Definition r_destroy (p : fs_node_ptr) (s : ramfs) : Z * ramfs :=
  match p with
  | Some i =>
    (EOK, add_refs (-1)
            (set_nodes s (filter (fun n => negb (r_index n =? i)) (r_nodes s))))
  | None => (ENOENT, s)
  end.

Definition r_link (cur fn : fs_node_ptr) (name : string) (s : ramfs)
  : Z * ramfs :=
  match cur, fn with
  | Some c, Some f =>
    if r_link_rc s =? EOK then
      (EOK,
       update_node f (fun n => mk_rnode (r_index n) (r_dir n) (r_size n)
                                 (r_lnkcnt n + 1) (r_children n))
         (update_node c (fun n => mk_rnode (r_index n) (r_dir n) (r_size n)
                                    (r_lnkcnt n) (r_children n ++ [(name, f)]))
            s))
    else (r_link_rc s, s)
  | _, _ => (ENOENT, s)
  end.

Definition r_unlink (par cur : fs_node_ptr) (s : ramfs) : Z * ramfs :=
  match par, cur with
  | Some p, Some c =>
    (EOK,
     update_node c (fun n => mk_rnode (r_index n) (r_dir n) (r_size n)
                               (r_lnkcnt n - 1) (r_children n))
       (update_node p (fun n => mk_rnode (r_index n) (r_dir n) (r_size n)
                                  (r_lnkcnt n)
                                  (filter (fun ch => negb (snd ch =? c))
                                     (r_children n)))
          s))
  | _, _ => (ENOENT, s)
  end.

Definition r_attr (f : rnode -> Z) (p : fs_node_ptr) (s : ramfs) : Z :=
  match node_of p s with
  | Some n => f n
  | None => 0
  end.

Definition r_test (f : rnode -> bool) (p : fs_node_ptr) (s : ramfs) : bool :=
  match node_of p s with
  | Some n => f n
  | None => false
  end.

Definition ops (plb : string) : libfs_ops ramfs := {|
  match_ := r_match;
  node_get := r_node_get;
  node_put := r_node_put;
  create := r_create;
  destroy := r_destroy;
  link := r_link;
  unlink := r_unlink;
  index_get := r_attr r_index;
  size_get := r_attr r_size;
  lnkcnt_get := r_attr r_lnkcnt;
  has_children :=
    r_test (fun n => r_dir n && negb (List.length (r_children n) =? 0)%nat);
  root_get := fun _ s => (Some 0, add_refs 1 s);
  plb_get_char := plb_read (list_ascii_of_string plb);
  is_directory := r_test r_dir;
  is_file := r_test (fun n => negb (r_dir n))
|}.

(** The tree [/a/b] with a second entry [/f]; [a] is a directory, [b] and
    [f] are files. *)
Definition tree : ramfs :=
  mk_ramfs
    [ mk_rnode 0 true 0 1 [("a"%string, 1); ("f"%string, 3)];
      mk_rnode 1 true 0 1 [("b"%string, 2)];
      mk_rnode 2 false 5 1 [];
      mk_rnode 3 false 7 1 [] ]
    8 0 0.

(** The same tree in a backend whose [link] fails. *)
Definition tree_no_link : ramfs :=
  mk_ramfs (r_nodes tree) 8 (-2) 0.

(** A root directory without entries. *)
Definition bare : ramfs :=
  mk_ramfs [ mk_rnode 0 true 0 1 [] ] 8 0 0.

(** The backend [s] with [k] references handed out. *)
Definition at_refs (s : ramfs) (k : Z) : ramfs :=
  mk_ramfs (r_nodes s) (r_capacity s) (r_link_rc s) k.

(** A registration in which the request for the callback connection
    fails and everything else succeeds. *)
Definition connect_fails : vfs_replies := {|
  data_write_rc := 0;
  connect := {| connect_rc := -2; connect_phonehash := 9 |};
  mappable_page := 4096;
  share_in_rc := 0;
  answer_retval := 0;
  answer_arg1 := 7
|}.

(** A registration in which every step succeeds and VFS answers with the
    status word of the error [-2]. *)
Definition refused : vfs_replies := {|
  data_write_rc := 0;
  connect := {| connect_rc := 0; connect_phonehash := 9 |};
  mappable_page := 4096;
  share_in_rc := 0;
  answer_retval := 4294967294;
  answer_arg1 := 0
|}.

(** A request for the path in bytes [next .. last] of the buffer. *)
Definition request (next last lflag index : Z) : ipc_call_t :=
  mk_call next last 0 lflag index.

Definition lookup (plb : string) (next last lflag index : Z) (s : ramfs)
  : outcome ramfs unit :=
  libfs_lookup (ops plb) 1 77 64 (request next last lflag index) s.

End Ramfs.

(** ** The calls a request licenses *)

(** Whether the flags [lflag] allow the call the event [e] records:
    [create] and [destroy] need [L_CREATE], [node_get] needs [L_LINK]
    without [L_CREATE], [link] needs one of the two, [unlink] needs
    [L_UNLINK]; the calls that only read, and the answers, are always
    allowed. *)
Definition licensed {K : vfs_constants} (lflag : Z) (e : event) : bool :=
  match e with
  | EvCreate _ _ _ | EvDestroy _ _ => has_flag lflag L_CREATE
  | EvNodeGet _ _ _ =>
    negb (has_flag lflag L_CREATE)
    && has_flag lflag (Z.lor L_CREATE L_LINK)
  | EvLink _ _ _ _ => has_flag lflag (Z.lor L_CREATE L_LINK)
  | EvUnlink _ _ _ => has_flag lflag L_UNLINK
  | _ => true
  end.

(** * The window code (lines 36-1170)

    The functions of the window toolkit that stand in front of the libfs
    code in the same file.  A window is a record of the fields of
    [ui_window_t] the file uses; pointers are addresses, with [None] for
    NULL.  The calls that leave the file are recorded in a trace, each with
    the arguments it is given and with what it returns; what a function
    of another file returns comes from an environment, so that a theorem
    holds for whatever the callee does.  What a callee does to the window
    behind the back of the caller is not part of the model. *)

Module Ui.

(** ** Types of the headers *)

(** [gfx_coord_t] is [int]. *)
Record gfx_coord2_t : Type := mk_coord2 { x : Z; y : Z }.

Record gfx_rect_t : Type := mk_rect { p0 : gfx_coord2_t; p1 : gfx_coord2_t }.

Inductive ui_wnd_placement_t : Type :=
| ui_wnd_place_default
| ui_wnd_place_top_left
| ui_wnd_place_top_right
| ui_wnd_place_bottom_left
| ui_wnd_place_bottom_right
| ui_wnd_place_full_screen
| ui_wnd_place_popup.

Inductive ui_stock_cursor_t : Type :=
| ui_curs_arrow
| ui_curs_size_ud
| ui_curs_size_lr
| ui_curs_size_uldr
| ui_curs_size_urdl
| ui_curs_ibeam.

Inductive display_stock_cursor_t : Type :=
| dcurs_arrow
| dcurs_size_ud
| dcurs_size_lr
| dcurs_size_uldr
| dcurs_size_urdl
| dcurs_ibeam.

(** The fields of [ui_wnd_params_t] the file reads. *)
Record ui_wnd_params_t : Type := mk_params {
  params_rect : gfx_rect_t;
  params_caption : string;
  params_style : Z;
  params_placement : ui_wnd_placement_t;
  params_flags : Z;
  params_prect : gfx_rect_t
}.

(** The fields of [display_wnd_params_t] the file writes. *)
Record display_wnd_params_t : Type := mk_dparams {
  dparams_rect : gfx_rect_t;
  dparams_min_size : gfx_coord2_t;
  dparams_pos : gfx_coord2_t;
  dparams_flags : Z
}.

(** The fields of [gfx_bitmap_params_t] the file writes. *)
Record gfx_bitmap_params_t : Type := mk_bparams {
  bparams_rect : gfx_rect_t;
  bparams_flags : Z
}.

(** The fields of [ui_t] the file reads. *)
Record ui_t : Type := mk_ui {
  display : option Z;
  console : option Z;
  cgc : option Z;
  ui_rect : gfx_rect_t
}.

(** A window decoration: its address and the one field the file reads. *)
Record ui_wdecor_t : Type := mk_wdecor {
  wdecor_addr : Z;
  style : Z
}.

(** The callbacks of a window: whether each function pointer is set. *)
Record ui_window_cb_t : Type := mk_cb {
  close : bool;
  focus : bool;
  kbd : bool;
  paint : bool;
  pos : bool;
  unfocus : bool
}.

(** The field of [ui_control_t] the file writes. *)
Record ui_control_t : Type := mk_control {
  elemp : option Z
}.

Record ui_window_t : Type := mk_window {
  ui : ui_t;
  dwindow : option Z;
  gc : option Z;
  realgc : option Z;
  xgc : option Z;
  mgc : option Z;
  bmp : option Z;
  app_gc : option Z;
  app_mgc : option Z;
  app_bmp : option Z;
  res : option Z;
  wdecor : option ui_wdecor_t;
  control : option Z;
  cb : option ui_window_cb_t;
  arg : Z;
  cursor : ui_stock_cursor_t;
  dpos : gfx_coord2_t;
  rect : gfx_rect_t
}.

(** ** What the file takes from elsewhere

    The configuration macros, the flag macros of the headers, and the
    functions of other files that compute a value without a result code.
    None of them is part of the sources at hand. *)
Class ui_externals : Type := {
  CONFIG_UI_CS_RENDER : bool;
  CONFIG_WIN_DOUBLE_BUF : bool;
  ui_wds_resizable : Z;
  ui_wndf_popup : Z;
  wndf_popup : Z;
  wndf_setpos : Z;
  bmpf_direct_output : Z;
  ui_is_fullscreen : ui_t -> bool;
  ui_is_textmode : ui_t -> bool;
  gfx_rect_dims : gfx_rect_t -> gfx_coord2_t;
  gfx_coord2_add : gfx_coord2_t -> gfx_coord2_t -> gfx_coord2_t;
  gfx_rect_rtranslate : gfx_coord2_t -> gfx_rect_t -> gfx_rect_t;
  ui_wdecor_app_from_rect : Z -> gfx_rect_t -> gfx_rect_t;
  display_wnd_params_init : display_wnd_params_t;
  gfx_bitmap_params_init : gfx_bitmap_params_t
}.

(** ** The calls that leave the file *)

Inductive ui_call : Type :=
| Calloc (window : option Z)
| Free (window : Z)
| ListAppend (window : Z)
| ListRemove (window : Z)
| UiPaint
| DisplayGetInfo (display : Z) (rc : Z)
| DisplayWindowCreate (display : Z) (dparams : display_wnd_params_t)
    (arg : Z) (rc : Z) (dwindow : option Z)
| DisplayWindowGetGc (dwindow : option Z) (rc : Z) (gc : option Z)
| DisplayWindowDestroy (dwindow : Z)
| DisplayWindowResize (dwindow : Z) (offs : gfx_coord2_t)
    (nrect : gfx_rect_t) (rc : Z)
| DisplayWindowSetCursor (dwindow : Z) (dcursor : display_stock_cursor_t)
| DisplayWindowMoveReq (dwindow : Z) (pos : gfx_coord2_t)
| DisplayWindowResizeReq (dwindow : Z) (rsztype : Z) (pos : gfx_coord2_t)
| DummygcCreate (rc : Z) (dgc : option Z)
| DummygcDestroy (dgc : Z)
| GfxBitmapCreate (gc : option Z) (params : gfx_bitmap_params_t) (rc : Z)
    (bmp : option Z)
| GfxBitmapGetAlloc (bmp : option Z) (rc : Z)
| GfxBitmapDestroy (bmp : option Z)
| GfxUpdate (gc : option Z)
| GfxCursorGetPos (gc : option Z) (rc : Z) (cpos : gfx_coord2_t)
| GfxCursorSetPos (gc : option Z) (cpos : gfx_coord2_t) (rc : Z)
| MemGcCreate (rect : gfx_rect_t) (arg : Z) (rc : Z) (memgc : option Z)
| MemGcRetarget (mgc : option Z) (rect : gfx_rect_t)
| MemGcDelete (mgc : Z)
| XlateGcCreate (off : gfx_coord2_t) (gc : option Z) (rc : Z)
    (xgc : option Z)
| XlateGcSetOff (xgc : Z) (off : gfx_coord2_t)
| XlateGcDelete (xgc : Z)
| UiResourceCreate (gc : option Z) (textmode : bool) (rc : Z)
    (res : option Z)
| UiResourceSetExposeCb (res : option Z) (arg : Z)
| UiResourceDestroy (res : option Z)
| UiWdecorCreate (res : option Z) (caption : string) (style : Z) (rc : Z)
    (wdecor : option Z)
| UiWdecorSetRect (wdecor : option Z) (rect : gfx_rect_t)
| UiWdecorSetCb (wdecor : option Z) (arg : Z)
| UiWdecorPaint (wdecor : option Z)
| UiWdecorSetActive (wdecor : Z) (active : bool)
| UiWdecorPosEvent (wdecor : Z) (event : Z)
| UiWdecorDestroy (wdecor : option Z)
| UiControlDestroy (control : option Z)
| UiControlKbdEvent (control : Z) (event : Z)
| UiControlPosEvent (control : Z) (event : Z)
| UiControlUnfocus (control : Z)
| CbClose (arg : Z)
| CbFocus (arg : Z)
| CbKbd (arg : Z) (event : Z)
| CbPos (arg : Z) (event : Z)
| CbUnfocus (arg : Z).

(** What a function returns: it comes back with a value, or stops at an
    assertion that fails. *)
Inductive result (A : Type) : Type :=
| Returned (a : A) (tr : list ui_call)
| Aborted (tr : list ui_call).

Arguments Returned {A} a tr.
Arguments Aborted {A} tr.

(** The calls made. *)
Definition calls {A} (r : result A) : list ui_call :=
  match r with
  | Returned _ tr => tr
  | Aborted tr => tr
  end.

(** ** Assignments to the fields of a window *)

Definition with_ui (w : ui_window_t) (v : ui_t) : ui_window_t :=
  mk_window v (dwindow w) (gc w) (realgc w) (xgc w) (mgc w) (bmp w)
    (app_gc w) (app_mgc w) (app_bmp w) (res w) (wdecor w) (control w)
    (cb w) (arg w) (cursor w) (dpos w) (rect w).

Definition with_dwindow (w : ui_window_t) (v : option Z) : ui_window_t :=
  mk_window (ui w) v (gc w) (realgc w) (xgc w) (mgc w) (bmp w)
    (app_gc w) (app_mgc w) (app_bmp w) (res w) (wdecor w) (control w)
    (cb w) (arg w) (cursor w) (dpos w) (rect w).

Definition with_gc (w : ui_window_t) (v : option Z) : ui_window_t :=
  mk_window (ui w) (dwindow w) v (realgc w) (xgc w) (mgc w) (bmp w)
    (app_gc w) (app_mgc w) (app_bmp w) (res w) (wdecor w) (control w)
    (cb w) (arg w) (cursor w) (dpos w) (rect w).

Definition with_realgc (w : ui_window_t) (v : option Z) : ui_window_t :=
  mk_window (ui w) (dwindow w) (gc w) v (xgc w) (mgc w) (bmp w)
    (app_gc w) (app_mgc w) (app_bmp w) (res w) (wdecor w) (control w)
    (cb w) (arg w) (cursor w) (dpos w) (rect w).

Definition with_xgc (w : ui_window_t) (v : option Z) : ui_window_t :=
  mk_window (ui w) (dwindow w) (gc w) (realgc w) v (mgc w) (bmp w)
    (app_gc w) (app_mgc w) (app_bmp w) (res w) (wdecor w) (control w)
    (cb w) (arg w) (cursor w) (dpos w) (rect w).

Definition with_mgc (w : ui_window_t) (v : option Z) : ui_window_t :=
  mk_window (ui w) (dwindow w) (gc w) (realgc w) (xgc w) v (bmp w)
    (app_gc w) (app_mgc w) (app_bmp w) (res w) (wdecor w) (control w)
    (cb w) (arg w) (cursor w) (dpos w) (rect w).

Definition with_bmp (w : ui_window_t) (v : option Z) : ui_window_t :=
  mk_window (ui w) (dwindow w) (gc w) (realgc w) (xgc w) (mgc w) v
    (app_gc w) (app_mgc w) (app_bmp w) (res w) (wdecor w) (control w)
    (cb w) (arg w) (cursor w) (dpos w) (rect w).

Definition with_app_gc (w : ui_window_t) (v : option Z) : ui_window_t :=
  mk_window (ui w) (dwindow w) (gc w) (realgc w) (xgc w) (mgc w) (bmp w)
    v (app_mgc w) (app_bmp w) (res w) (wdecor w) (control w)
    (cb w) (arg w) (cursor w) (dpos w) (rect w).

Definition with_app_mgc (w : ui_window_t) (v : option Z) : ui_window_t :=
  mk_window (ui w) (dwindow w) (gc w) (realgc w) (xgc w) (mgc w) (bmp w)
    (app_gc w) v (app_bmp w) (res w) (wdecor w) (control w)
    (cb w) (arg w) (cursor w) (dpos w) (rect w).

Definition with_app_bmp (w : ui_window_t) (v : option Z) : ui_window_t :=
  mk_window (ui w) (dwindow w) (gc w) (realgc w) (xgc w) (mgc w) (bmp w)
    (app_gc w) (app_mgc w) v (res w) (wdecor w) (control w)
    (cb w) (arg w) (cursor w) (dpos w) (rect w).

Definition with_res (w : ui_window_t) (v : option Z) : ui_window_t :=
  mk_window (ui w) (dwindow w) (gc w) (realgc w) (xgc w) (mgc w) (bmp w)
    (app_gc w) (app_mgc w) (app_bmp w) v (wdecor w) (control w)
    (cb w) (arg w) (cursor w) (dpos w) (rect w).

Definition with_wdecor (w : ui_window_t) (v : option ui_wdecor_t)
  : ui_window_t :=
  mk_window (ui w) (dwindow w) (gc w) (realgc w) (xgc w) (mgc w) (bmp w)
    (app_gc w) (app_mgc w) (app_bmp w) (res w) v (control w)
    (cb w) (arg w) (cursor w) (dpos w) (rect w).

Definition with_control (w : ui_window_t) (v : option Z) : ui_window_t :=
  mk_window (ui w) (dwindow w) (gc w) (realgc w) (xgc w) (mgc w) (bmp w)
    (app_gc w) (app_mgc w) (app_bmp w) (res w) (wdecor w) v
    (cb w) (arg w) (cursor w) (dpos w) (rect w).

Definition with_cursor (w : ui_window_t) (v : ui_stock_cursor_t)
  : ui_window_t :=
  mk_window (ui w) (dwindow w) (gc w) (realgc w) (xgc w) (mgc w) (bmp w)
    (app_gc w) (app_mgc w) (app_bmp w) (res w) (wdecor w) (control w)
    (cb w) (arg w) v (dpos w) (rect w).

Definition with_dpos (w : ui_window_t) (v : gfx_coord2_t) : ui_window_t :=
  mk_window (ui w) (dwindow w) (gc w) (realgc w) (xgc w) (mgc w) (bmp w)
    (app_gc w) (app_mgc w) (app_bmp w) (res w) (wdecor w) (control w)
    (cb w) (arg w) (cursor w) v (rect w).

Definition with_rect (w : ui_window_t) (v : gfx_rect_t) : ui_window_t :=
  mk_window (ui w) (dwindow w) (gc w) (realgc w) (xgc w) (mgc w) (bmp w)
    (app_gc w) (app_mgc w) (app_bmp w) (res w) (wdecor w) (control w)
    (cb w) (arg w) (cursor w) (dpos w) v.

(** The window [calloc] returns, all fields zero, with [ui] stored into
    it (lines 212-216).  [ui_curs_arrow], the first enumerator, is
    zero. *)
Definition fresh_window (v : ui_t) : ui_window_t :=
  mk_window v None None None None None None None None None None None None
    None 0 ui_curs_arrow (mk_coord2 0 0)
    (mk_rect (mk_coord2 0 0) (mk_coord2 0 0)).

Definition is_null {A} (p : option A) : bool :=
  match p with
  | None => true
  | Some _ => false
  end.

(** Equality of two pointers. *)
Definition same (p q : option Z) : bool :=
  match p, q with
  | None, None => true
  | Some a, Some b => a =? b
  | _, _ => false
  end.

Definition wdecor_ptr (wd : option ui_wdecor_t) : option Z :=
  option_map wdecor_addr wd.

Definition is_default (p : ui_wnd_placement_t) : bool :=
  match p with
  | ui_wnd_place_default => true
  | _ => false
  end.

Definition is_full_screen (p : ui_wnd_placement_t) : bool :=
  match p with
  | ui_wnd_place_full_screen => true
  | _ => false
  end.

Definition cursor_eqb (a b : ui_stock_cursor_t) : bool :=
  match a, b with
  | ui_curs_arrow, ui_curs_arrow
  | ui_curs_size_ud, ui_curs_size_ud
  | ui_curs_size_lr, ui_curs_size_lr
  | ui_curs_size_uldr, ui_curs_size_uldr
  | ui_curs_size_urdl, ui_curs_size_urdl
  | ui_curs_ibeam, ui_curs_ibeam => true
  | _, _ => false
  end.

Section Window.
Context {K : vfs_constants} {X : ui_externals}.

(** ** ui_window_place (lines 142-184) *)

(** The result is what is stored into [pos], or nothing when one of the
    two assertions fails. *)
Definition ui_window_place (w : ui_window_t) (drect : gfx_rect_t)
  (params : ui_wnd_params_t) : option gfx_coord2_t :=
  if negb (negb (is_default (params_placement params))
           || ui_is_fullscreen (ui w)) then None
  else
    match params_placement params with
    | ui_wnd_place_default =>
      if negb (ui_is_fullscreen (ui w)) then None
      else
        let dims := gfx_rect_dims (params_rect params) in
        Some (mk_coord2
                (to_int (Z.quot (to_int (x (p0 drect) + x (p1 drect))) 2
                         - Z.quot (x dims) 2))
                (to_int (Z.quot (to_int (y (p0 drect) + y (p1 drect))) 2
                         - Z.quot (y dims) 2)))
    | ui_wnd_place_top_left
    | ui_wnd_place_full_screen =>
      Some (mk_coord2 (to_int (x (p0 drect) - x (p0 (params_rect params))))
                      (to_int (y (p0 drect) - y (p0 (params_rect params)))))
    | ui_wnd_place_top_right =>
      Some (mk_coord2 (to_int (x (p1 drect) - x (p1 (params_rect params))))
                      (to_int (y (p0 drect) - y (p0 (params_rect params)))))
    | ui_wnd_place_bottom_left =>
      Some (mk_coord2 (to_int (x (p0 drect) - x (p0 (params_rect params))))
                      (to_int (y (p1 drect) - y (p1 (params_rect params)))))
    | ui_wnd_place_bottom_right =>
      Some (mk_coord2 (to_int (x (p1 drect) - x (p1 (params_rect params))))
                      (to_int (y (p1 drect) - y (p1 (params_rect params)))))
    | ui_wnd_place_popup =>
      Some (mk_coord2 (x (p0 (params_prect params)))
                      (y (p1 (params_prect params))))
    end.

(** ** ui_window_create (lines 193-376) *)

(** What the callees of [ui_window_create] return: a result code where
    the callee has one, and the pointer it stores or returns. *)
Record create_env : Type := {
  calloc : option Z;
  display_get_info : Z * gfx_rect_t;
  display_window_create : Z * option Z;
  display_window_get_gc : Z * option Z;
  console_gc_get_ctx : option Z;
  dummygc_create : Z * option Z;
  dummygc_get_ctx : option Z;
  gfx_bitmap_create : Z * option Z;
  gfx_bitmap_get_alloc : Z;
  mem_gc_create : Z * option Z;
  mem_gc_get_ctx : option Z;
  xlate_gc_create : Z * option Z;
  xlate_gc_get_ctx : option Z;
  ui_resource_create : Z * option Z;
  ui_wdecor_create : Z * option ui_wdecor_t
}.

(** The local pointers the code at [error:] looks at. *)
Record create_locals : Type := mk_create_locals {
  l_wdecor : option ui_wdecor_t;
  l_res : option Z;
  l_memgc : option Z;
  l_xgc : option Z;
  l_bmp : option Z;
  l_dgc : option Z
}.

Definition no_locals : create_locals :=
  mk_create_locals None None None None None None.

(** What [ui_window_create] returns: the result code and, once it is
    stored into [rwindow], the new window. *)
Definition created : Type := Z * option (Z * ui_window_t).

(** Lines 361-375, the code at [error:]. *)
Definition create_error (window : Z) (l : create_locals) (rc : Z)
  (tr : list ui_call) : result created :=
  Returned (rc, None)
    (tr
     ++ (if is_null (l_wdecor l) then []
         else [UiWdecorDestroy (wdecor_ptr (l_wdecor l))])
     ++ (if is_null (l_res l) then [] else [UiResourceDestroy (l_res l)])
     ++ match l_memgc l with Some m => [MemGcDelete m] | None => [] end
     ++ match l_xgc l with Some g => [XlateGcDelete g] | None => [] end
     ++ (if is_null (l_bmp l) then [] else [GfxBitmapDestroy (l_bmp l)])
     ++ match l_dgc l with Some d => [DummygcDestroy d] | None => [] end
     ++ [Free window]).

(** Lines 339-360: the resource, the decoration, and the window is
    done. *)
Definition create_decoration (env : create_env) (v : ui_t)
  (params : ui_wnd_params_t) (window : Z) (w : ui_window_t)
  (dparams : display_wnd_params_t) (l : create_locals) (tr : list ui_call)
  : result created :=
  let (rc, r) := ui_resource_create env in
  let l := mk_create_locals (l_wdecor l) r (l_memgc l) (l_xgc l) (l_bmp l)
             (l_dgc l) in
  let tr := tr ++ [UiResourceCreate (gc w) (ui_is_textmode v) rc r] in
  if negb (rc =? EOK) then create_error window l rc tr
  else
    let (rc, wd) := ui_wdecor_create env in
    let l := mk_create_locals wd (l_res l) (l_memgc l) (l_xgc l) (l_bmp l)
               (l_dgc l) in
    let tr := tr ++ [UiWdecorCreate (l_res l) (params_caption params)
                       (params_style params) rc (wdecor_ptr wd)] in
    if negb (rc =? EOK) then create_error window l rc tr
    else
      let tr := tr ++ [UiWdecorSetRect (wdecor_ptr wd) (dparams_rect dparams);
                       UiWdecorSetCb (wdecor_ptr wd) window;
                       UiWdecorPaint (wdecor_ptr wd);
                       UiResourceSetExposeCb (l_res l) window] in
      let w := with_rect w (dparams_rect dparams) in
      let w := with_res w (l_res l) in
      let w := with_wdecor w wd in
      let w := with_cursor w ui_curs_arrow in
      Returned (EOK, Some (window, w)) (tr ++ [ListAppend window]).

(** Lines 332-337: the place of a window that has no display window. *)
Definition create_placement (env : create_env) (v : ui_t)
  (params : ui_wnd_params_t) (window : Z) (w : ui_window_t)
  (dparams : display_wnd_params_t) (l : create_locals) (tr : list ui_call)
  : result created :=
  if is_null (display v) then
    match ui_window_place w (ui_rect v) params with
    | None => Aborted tr
    | Some p =>
      let w := with_dpos w p in
      let tr := tr ++ match xgc w with
                      | Some g => [XlateGcSetOff g (dpos w)]
                      | None => []
                      end in
      create_decoration env v params window w dparams l tr
    end
  else create_decoration env v params window w dparams l tr.

(** Lines 274-331: the graphic context the window draws with, for the
    one and for the other setting of [CONFIG_UI_CS_RENDER]. *)
Definition create_rendering (env : create_env) (v : ui_t)
  (params : ui_wnd_params_t) (window : Z) (w : ui_window_t)
  (dparams : display_wnd_params_t) (g : option Z) (l : create_locals)
  (tr : list ui_call) : result created :=
  if CONFIG_UI_CS_RENDER then
    let bparams := gfx_bitmap_params_init in
    let bparams :=
      if negb CONFIG_WIN_DOUBLE_BUF && negb (is_null (display v))
      then mk_bparams (bparams_rect bparams)
             (Z.lor (bparams_flags bparams) bmpf_direct_output)
      else bparams in
    let bparams :=
      mk_bparams (gfx_rect_rtranslate (p0 (dparams_rect dparams))
                    (dparams_rect dparams))
        (bparams_flags bparams) in
    let (rc, b) := gfx_bitmap_create env in
    let l := mk_create_locals (l_wdecor l) (l_res l) (l_memgc l) (l_xgc l) b
               (l_dgc l) in
    let tr := tr ++ [GfxBitmapCreate g bparams rc b] in
    if negb (rc =? EOK) then create_error window l rc tr
    else
      let rc := gfx_bitmap_get_alloc env in
      let tr := tr ++ [GfxBitmapGetAlloc (l_bmp l) rc] in
      if negb (rc =? EOK) then
        Returned (rc, None) (tr ++ [GfxBitmapDestroy (app_bmp w)])
      else
        let (rc, m) := mem_gc_create env in
        let l := mk_create_locals (l_wdecor l) (l_res l) m (l_xgc l)
                   (l_bmp l) (l_dgc l) in
        let tr := tr ++ [MemGcCreate (bparams_rect bparams) window rc m] in
        if negb (rc =? EOK) then
          Returned (rc, None) (tr ++ [GfxBitmapDestroy (app_bmp w)])
        else
          let w := with_bmp w (l_bmp l) in
          let w := with_mgc w (l_memgc l) in
          let w := with_gc w (mem_gc_get_ctx env) in
          let w := with_realgc w g in
          create_placement env v params window w dparams l tr
  else
    if is_null (display v) then
      let off := mk_coord2 0 0 in
      let (rc, xg) := xlate_gc_create env in
      let l := mk_create_locals (l_wdecor l) (l_res l) (l_memgc l) xg
                 (l_bmp l) (l_dgc l) in
      let tr := tr ++ [XlateGcCreate off g rc xg] in
      if negb (rc =? EOK) then create_error window l rc tr
      else
        let w := with_xgc w (l_xgc l) in
        let w := with_gc w (xlate_gc_get_ctx env) in
        let w := with_realgc w g in
        create_placement env v params window w dparams l tr
    else
      let w := with_gc w g in
      create_placement env v params window w dparams l tr.

Definition ui_window_create (v : ui_t) (params : ui_wnd_params_t)
  (env : create_env) : result created :=
  match calloc env with
  | None => Returned (ENOMEM, None) [Calloc None]
  | Some window =>
    let tr := [Calloc (Some window)] in
    let w := fresh_window v in
    let dparams := display_wnd_params_init in
    let dparams := mk_dparams (params_rect params)
                     (gfx_rect_dims (params_rect params))
                     (dparams_pos dparams) (dparams_flags dparams) in
    let dparams :=
      if negb (Z.land (params_flags params) ui_wndf_popup =? 0)
      then mk_dparams (dparams_rect dparams) (dparams_min_size dparams)
             (dparams_pos dparams) (Z.lor (dparams_flags dparams) wndf_popup)
      else dparams in
    match display v with
    | Some disp =>
      let placed := negb (is_default (params_placement params)) in
      let (rc, info) := display_get_info env in
      let tr := if placed then tr ++ [DisplayGetInfo disp rc] else tr in
      if placed && negb (rc =? EOK) then create_error window no_locals rc tr
      else
        let dparams :=
          if is_full_screen (params_placement params)
          then mk_dparams
                 (mk_rect (p0 (dparams_rect dparams))
                    (gfx_coord2_add (p0 (dparams_rect dparams))
                       (gfx_rect_dims info)))
                 (dparams_min_size dparams) (dparams_pos dparams)
                 (dparams_flags dparams)
          else dparams in
        match (if placed
               then option_map
                      (fun p =>
                         mk_dparams (dparams_rect dparams)
                           (dparams_min_size dparams) p
                           (Z.lor (dparams_flags dparams) wndf_setpos))
                      (ui_window_place w info params)
               else Some dparams) with
        | None => Aborted tr
        | Some dparams =>
          let (rc, d) := display_window_create env in
          let w := with_dwindow w d in
          let tr := tr ++ [DisplayWindowCreate disp dparams window rc d] in
          if negb (rc =? EOK) then create_error window no_locals rc tr
          else
            let (rc, g) := display_window_get_gc env in
            let tr := tr ++ [DisplayWindowGetGc (dwindow w) rc g] in
            if negb (rc =? EOK) then create_error window no_locals rc tr
            else
              create_rendering env v params window w dparams g no_locals tr
        end
    | None =>
      if negb (is_null (console v)) then
        let g := console_gc_get_ctx env in
        let dparams :=
          if is_full_screen (params_placement params)
          then mk_dparams
                 (mk_rect (p0 (dparams_rect dparams))
                    (gfx_coord2_add (p0 (dparams_rect dparams))
                       (gfx_rect_dims (ui_rect v))))
                 (dparams_min_size dparams) (dparams_pos dparams)
                 (dparams_flags dparams)
          else dparams in
        create_rendering env v params window w dparams g no_locals tr
      else
        let (rc, dg) := dummygc_create env in
        let l := mk_create_locals None None None None None dg in
        let tr := tr ++ [DummygcCreate rc dg] in
        if negb (rc =? EOK) then create_error window l rc tr
        else
          let g := dummygc_get_ctx env in
          create_rendering env v params window w dparams g l tr
    end
  end.

(** ** ui_window_destroy (lines 382-414) *)

(** The window is given by its address, NULL or not, and by what is
    stored there.  The two tests that start with [0 &&] never hold, so the
    memory GC and the bitmap of the application area stay. *)
Definition ui_window_destroy (window : option Z) (w : ui_window_t)
  : list ui_call :=
  match window with
  | None => []
  | Some a =>
    [ListRemove a;
     UiControlDestroy (control w);
     UiWdecorDestroy (wdecor_ptr (wdecor w));
     UiResourceDestroy (res w)]
    ++ match mgc w with Some m => [MemGcDelete m] | None => [] end
    ++ (if is_null (bmp w) then [] else [GfxBitmapDestroy (bmp w)])
    ++ match dwindow w with Some d => [DisplayWindowDestroy d] | None => [] end
    ++ [Free a]
    ++ (if ui_is_fullscreen (ui w) then [UiPaint] else [])
  end.

(** ** ui_window_add and ui_window_remove (lines 425-445) *)

(** The window and the control are given by their addresses and by what
    is stored there; the result is what is stored there afterwards, or
    nothing when an assertion fails. *)
Definition ui_window_add (window : Z) (w : ui_window_t) (control_ : Z)
  (c : ui_control_t) : option (ui_window_t * ui_control_t) :=
  if negb (is_null (control w)) then None
  else Some (with_control w (Some control_), mk_control (Some window)).

Definition ui_window_remove (window : Z) (w : ui_window_t) (control_ : Z)
  (c : ui_control_t) : option (ui_window_t * ui_control_t) :=
  if negb (same (control w) (Some control_)) then None
  else if negb (same (elemp c) (Some window)) then None
  else Some (with_control w None, mk_control None).

(** ** ui_window_resize (lines 473-589) *)

Record resize_env : Type := {
  win_bitmap_create : Z * option Z;
  win_bitmap_get_alloc : Z;
  app_bitmap_create : Z * option Z;
  app_bitmap_get_alloc : Z;
  display_window_resize : Z
}.

(** Lines 583-588, the code at [error:]. *)
Definition resize_error (w : ui_window_t) (app_bmp_ win_bmp : option Z)
  (rc : Z) (tr : list ui_call) : result (Z * ui_window_t) :=
  Returned (rc, w)
    (tr
     ++ (if is_null app_bmp_ then [] else [GfxBitmapDestroy app_bmp_])
     ++ (if is_null win_bmp then [] else [GfxBitmapDestroy win_bmp])).

(** Lines 495-512 and 548-562: the new bitmap of the window. *)
Definition resize_win_bitmap (env : resize_env) (w : ui_window_t)
  (direct : bool) (nrect : gfx_rect_t)
  : gfx_bitmap_params_t * Z * option Z * list ui_call :=
  let win_params := gfx_bitmap_params_init in
  let win_params :=
    if direct
    then mk_bparams (bparams_rect win_params)
           (Z.lor (bparams_flags win_params) bmpf_direct_output)
    else win_params in
  let win_params := mk_bparams nrect (bparams_flags win_params) in
  let (rc, b) := win_bitmap_create env in
  let tr := [GfxBitmapCreate (realgc w) win_params rc b] in
  if negb (rc =? EOK) then (win_params, rc, b, tr)
  else
    let rc := win_bitmap_get_alloc env in
    (win_params, rc, b, tr ++ [GfxBitmapGetAlloc b rc]).

(** Lines 564-581: the window takes its new bitmaps. *)
Definition resize_commit (w : ui_window_t) (nrect : gfx_rect_t)
  (win_params app_params : gfx_bitmap_params_t)
  (app_bmp_ win_bmp : option Z) (tr : list ui_call)
  : result (Z * ui_window_t) :=
  let tr := if is_null (mgc w) then tr
            else tr ++ [MemGcRetarget (mgc w) (bparams_rect win_params);
                        GfxBitmapDestroy (bmp w)] in
  let w1 := if is_null (mgc w) then w else with_bmp w win_bmp in
  let tr := tr ++ [UiWdecorSetRect (wdecor_ptr (wdecor w1)) nrect;
                   UiWdecorPaint (wdecor_ptr (wdecor w1));
                   GfxUpdate (gc w1)] in
  if is_null (app_gc w1) then Returned (EOK, w1) tr
  else
    Returned (EOK, with_app_bmp w1 app_bmp_)
      (tr ++ [MemGcRetarget (app_mgc w1) (bparams_rect app_params);
              GfxBitmapDestroy (app_bmp w1)]).

Definition ui_window_resize (w : ui_window_t) (rect_ : gfx_rect_t)
  (env : resize_env) : result (Z * ui_window_t) :=
  let offs := p0 rect_ in
  let nrect := gfx_rect_rtranslate offs rect_ in
  let early := negb (is_null (mgc w)) && CONFIG_WIN_DOUBLE_BUF in
  if early && is_null (bmp w) then Aborted []
  else
    let '(win_params, rc, win_bmp, tr) :=
      if early then resize_win_bitmap env w false nrect
      else (gfx_bitmap_params_init, EOK, None, []) in
    if negb (rc =? EOK) then resize_error w None win_bmp rc tr
    else if negb (is_null (app_gc w)) && is_null (app_bmp w) then Aborted tr
    else
      match (if is_null (app_gc w) then Some 0
             else option_map style (wdecor w)) with
      | None => Aborted tr
      | Some style_ =>
        let app_params := gfx_bitmap_params_init in
        let arect := ui_wdecor_app_from_rect style_ nrect in
        let app_params :=
          if is_null (app_gc w) then app_params
          else mk_bparams (gfx_rect_rtranslate (p0 arect) arect)
                 (bparams_flags app_params) in
        let '(rc, app_bmp_, tr) :=
          if is_null (app_gc w) then (EOK, None, tr)
          else
            let (rc, b) := app_bitmap_create env in
            let tr := tr ++ [GfxBitmapCreate (gc w) app_params rc b] in
            if negb (rc =? EOK) then (rc, b, tr)
            else
              let rc := app_bitmap_get_alloc env in
              (rc, b, tr ++ [GfxBitmapGetAlloc b rc]) in
        if negb (rc =? EOK) then resize_error w app_bmp_ win_bmp rc tr
        else
          let '(rc, tr) :=
            match dwindow w with
            | Some d =>
              let rc := display_window_resize env in
              (rc, tr ++ [DisplayWindowResize d offs nrect rc])
            | None => (rc, tr)
            end in
          if negb (rc =? EOK) then resize_error w app_bmp_ win_bmp rc tr
          else
            let late := negb (is_null (mgc w)) && negb CONFIG_WIN_DOUBLE_BUF in
            let '(win_params, rc, win_bmp, tr) :=
              if late then
                let '(p, rc, b, t) := resize_win_bitmap env w true nrect in
                (p, rc, b, tr ++ t)
              else (win_params, rc, win_bmp, tr) in
            if negb (rc =? EOK) then resize_error w app_bmp_ win_bmp rc tr
            else
              resize_commit w nrect win_params app_params app_bmp_ win_bmp tr
      end.

(** ** ui_window_set_cb (lines 597-601) *)

Definition ui_window_set_cb (w : ui_window_t) (cb_ : option ui_window_cb_t)
  (arg_ : Z) : ui_window_t :=
  mk_window (ui w) (dwindow w) (gc w) (realgc w) (xgc w) (mgc w) (bmp w)
    (app_gc w) (app_mgc w) (app_bmp w) (res w) (wdecor w) (control w)
    cb_ arg_ (cursor w) (dpos w) (rect w).

(** ** ui_window_get_app_gc (lines 660-704) *)

(** What the callees return; [app_area_rect] is the application
    rectangle of the geometry [ui_wdecor_get_geom] computes (lines
    711-717, [ui_window_get_app_rect]). *)
Record app_gc_env : Type := {
  app_area_rect : gfx_rect_t;
  app_gc_bitmap_create : Z * option Z;
  app_gc_bitmap_get_alloc : Z;
  app_gc_mem_gc_create : Z * option Z;
  app_gc_mem_gc_get_ctx : option Z
}.

Definition ui_window_get_app_rect (env : app_gc_env) : gfx_rect_t :=
  app_area_rect env.

(** The result is the code returned, what is stored into [rgc] if
    anything, and the window afterwards. *)
Definition ui_window_get_app_gc (window : Z) (w : ui_window_t)
  (env : app_gc_env) : result (Z * option (option Z) * ui_window_t) :=
  if is_null (app_gc w) then
    if negb (is_null (app_bmp w)) then Aborted []
    else
      let params := gfx_bitmap_params_init in
      let rect_ := ui_window_get_app_rect env in
      let params := mk_bparams (gfx_rect_rtranslate (p0 rect_) rect_)
                      (bparams_flags params) in
      let (rc, b) := app_gc_bitmap_create env in
      let tr := [GfxBitmapCreate (gc w) params rc b] in
      let w := with_app_bmp w b in
      if negb (rc =? EOK) then Returned (rc, None, w) tr
      else
        let rc := app_gc_bitmap_get_alloc env in
        let tr := tr ++ [GfxBitmapGetAlloc (app_bmp w) rc] in
        if negb (rc =? EOK) then
          Returned (rc, None, w) (tr ++ [GfxBitmapDestroy (app_bmp w)])
        else
          let (rc, m) := app_gc_mem_gc_create env in
          let tr := tr ++ [MemGcCreate (bparams_rect params) window rc m] in
          if negb (rc =? EOK) then
            Returned (rc, None, w) (tr ++ [GfxBitmapDestroy (app_bmp w)])
          else
            let w := with_app_mgc w m in
            let w := with_app_gc w (app_gc_mem_gc_get_ctx env) in
            Returned (EOK, Some (app_gc w), w) tr
  else Returned (EOK, Some (app_gc w), w) [].

(** ** The cursor (lines 724-732, 863-914) *)

Definition wnd_dcursor_from_cursor (cursor_ : ui_stock_cursor_t)
  : display_stock_cursor_t :=
  match cursor_ with
  | ui_curs_arrow => dcurs_arrow
  | ui_curs_size_ud => dcurs_size_ud
  | ui_curs_size_lr => dcurs_size_lr
  | ui_curs_size_uldr => dcurs_size_uldr
  | ui_curs_size_urdl => dcurs_size_urdl
  | ui_curs_ibeam => dcurs_ibeam
  end.

Definition ui_window_set_ctl_cursor (w : ui_window_t)
  (cursor_ : ui_stock_cursor_t) : list ui_call :=
  let dcursor := wnd_dcursor_from_cursor cursor_ in
  match dwindow w with
  | Some d => [DisplayWindowSetCursor d dcursor]
  | None => []
  end.

Definition wd_set_cursor (w : ui_window_t) (cursor_ : ui_stock_cursor_t)
  : ui_window_t * list ui_call :=
  if cursor_eqb cursor_ (cursor w) then (w, [])
  else
    let dcursor := wnd_dcursor_from_cursor cursor_ in
    (with_cursor w cursor_,
     match dwindow w with
     | Some d => [DisplayWindowSetCursor d dcursor]
     | None => []
     end).

(** ** Events (lines 745-856, 920-1043) *)

(** Whether the callbacks structure is there and has the callback. *)
Definition has_cb (w : ui_window_t) (f : ui_window_cb_t -> bool) : bool :=
  match cb w with
  | Some c => f c
  | None => false
  end.

Definition ui_window_def_kbd (w : ui_window_t) (event : Z) : list ui_call :=
  match control w with
  | Some c => [UiControlKbdEvent c event]
  | None => []
  end.

Definition ui_window_def_pos (w : ui_window_t) (event : Z) : list ui_call :=
  match control w with
  | Some c => [UiControlPosEvent c event]
  | None => []
  end.

Definition ui_window_def_unfocus (w : ui_window_t) : list ui_call :=
  match control w with
  | Some c => [UiControlUnfocus c]
  | None => []
  end.

Definition ui_window_send_close (w : ui_window_t) : list ui_call :=
  if has_cb w close then [CbClose (arg w)] else [].

Definition ui_window_send_focus (w : ui_window_t) : list ui_call :=
  if has_cb w focus then [CbFocus (arg w)] else [].

Definition ui_window_send_kbd (w : ui_window_t) (event : Z) : list ui_call :=
  if has_cb w kbd then [CbKbd (arg w) event] else ui_window_def_kbd w event.

Definition ui_window_send_pos (w : ui_window_t) (event : Z) : list ui_call :=
  if has_cb w pos then [CbPos (arg w) event] else ui_window_def_pos w event.

Definition ui_window_send_unfocus (w : ui_window_t) : list ui_call :=
  if has_cb w unfocus then [CbUnfocus (arg w)] else ui_window_def_unfocus w.

Definition dwnd_close_event (w : ui_window_t) : list ui_call :=
  ui_window_send_close w.

Definition dwnd_focus_event (w : ui_window_t) : list ui_call :=
  match wdecor w with
  | Some wd => [UiWdecorSetActive (wdecor_addr wd) true;
                UiWdecorPaint (Some (wdecor_addr wd))]
  | None => []
  end ++ ui_window_send_focus w.

Definition dwnd_kbd_event (w : ui_window_t) (event : Z) : list ui_call :=
  ui_window_send_kbd w event.

Definition dwnd_pos_event (w : ui_window_t) (event : Z) : list ui_call :=
  match wdecor w with
  | None => []
  | Some wd =>
    UiWdecorPosEvent (wdecor_addr wd) event :: ui_window_send_pos w event
  end.

Definition dwnd_unfocus_event (w : ui_window_t) : list ui_call :=
  match wdecor w with
  | Some wd => [UiWdecorSetActive (wdecor_addr wd) false;
                UiWdecorPaint (Some (wdecor_addr wd))]
  | None => []
  end ++ ui_window_send_unfocus w.

Definition wd_close (w : ui_window_t) : list ui_call :=
  ui_window_send_close w.

Definition wd_move (w : ui_window_t) (pos_ : gfx_coord2_t) : list ui_call :=
  match dwindow w with
  | Some d => [DisplayWindowMoveReq d pos_]
  | None => []
  end.

Definition wd_resize (w : ui_window_t) (rsztype : Z) (pos_ : gfx_coord2_t)
  : list ui_call :=
  match dwindow w with
  | Some d => [DisplayWindowResizeReq d rsztype pos_]
  | None => []
  end.

(** ** The cursor of the memory GC (lines 1083-1112) *)

(** [reply] is what [gfx_cursor_get_pos] returns and stores; the result
    is the code returned and what is stored into [pos], if anything. *)
Definition ui_window_cursor_get_pos (w : ui_window_t)
  (reply : Z * gfx_coord2_t) : Z * option gfx_coord2_t * list ui_call :=
  let (rc, cpos) := reply in
  let tr := [GfxCursorGetPos (realgc w) rc cpos] in
  if negb (rc =? EOK) then (rc, None, tr)
  else
    (EOK,
     Some (mk_coord2 (to_int (x cpos - x (dpos w)))
                     (to_int (y cpos - y (dpos w)))),
     tr).

(** [reply] is what [gfx_cursor_set_pos] returns. *)
Definition ui_window_cursor_set_pos (w : ui_window_t) (pos_ : gfx_coord2_t)
  (reply : Z) : Z * list ui_call :=
  let cpos := mk_coord2 (to_int (x pos_ + x (dpos w)))
                        (to_int (y pos_ + y (dpos w))) in
  (reply, [GfxCursorSetPos (realgc w) cpos reply]).

End Window.

(** ** What a trace leaves behind *)

(** The objects the calls of the file make and unmake. *)
Inductive resource : Type :=
| RWindow (a : Z)
| RDisplayWindow (a : Z)
| RDummyGc (a : Z)
| RBitmap (a : Z)
| RMemGc (a : Z)
| RXlateGc (a : Z)
| RResource (a : Z)
| RWdecor (a : Z).

Definition resource_eqb (r q : resource) : bool :=
  match r, q with
  | RWindow a, RWindow b
  | RDisplayWindow a, RDisplayWindow b
  | RDummyGc a, RDummyGc b
  | RBitmap a, RBitmap b
  | RMemGc a, RMemGc b
  | RXlateGc a, RXlateGc b
  | RResource a, RResource b
  | RWdecor a, RWdecor b => a =? b
  | _, _ => false
  end.

Definition made (e : ui_call) : list resource :=
  match e with
  | Calloc (Some a) => [RWindow a]
  | DisplayWindowCreate _ _ _ _ (Some a) => [RDisplayWindow a]
  | DummygcCreate _ (Some a) => [RDummyGc a]
  | GfxBitmapCreate _ _ _ (Some a) => [RBitmap a]
  | MemGcCreate _ _ _ (Some a) => [RMemGc a]
  | XlateGcCreate _ _ _ (Some a) => [RXlateGc a]
  | UiResourceCreate _ _ _ (Some a) => [RResource a]
  | UiWdecorCreate _ _ _ _ (Some a) => [RWdecor a]
  | _ => []
  end.

Definition unmade (e : ui_call) : list resource :=
  match e with
  | Free a => [RWindow a]
  | DisplayWindowDestroy a => [RDisplayWindow a]
  | DummygcDestroy a => [RDummyGc a]
  | GfxBitmapDestroy (Some a) => [RBitmap a]
  | MemGcDelete a => [RMemGc a]
  | XlateGcDelete a => [RXlateGc a]
  | UiResourceDestroy (Some a) => [RResource a]
  | UiWdecorDestroy (Some a) => [RWdecor a]
  | _ => []
  end.

(** [held] without the first [r] in it. *)
Fixpoint drop (r : resource) (held : list resource) : list resource :=
  match held with
  | [] => []
  | q :: held' => if resource_eqb r q then held' else q :: drop r held'
  end.

(** The objects there are after the calls [tr], when [held] are there
    before them. *)
Fixpoint remaining (held : list resource) (tr : list ui_call)
  : list resource :=
  match tr with
  | [] => held
  | e :: tr' => remaining (fold_right drop (held ++ made e) (unmade e)) tr'
  end.

(** A display window and a dummy GC as lists of objects. *)
Definition display_window_of (d : option Z) : list resource :=
  match d with
  | Some a => [RDisplayWindow a]
  | None => []
  end.

Definition dummy_gc_of (d : option Z) : list resource :=
  match d with
  | Some a => [RDummyGc a]
  | None => []
  end.

Definition is_display_window (r : resource) : bool :=
  match r with
  | RDisplayWindow _ => true
  | _ => false
  end.

(** The graphic contexts [ui_window_create] makes for a window without a
    display window. *)
Definition is_private_gc (r : resource) : bool :=
  match r with
  | RDummyGc _ | RXlateGc _ => true
  | _ => false
  end.

Definition is_bitmap_get_alloc (e : ui_call) : bool :=
  match e with
  | GfxBitmapGetAlloc _ _ => true
  | _ => false
  end.

(** The bitmaps a window points to. *)
Definition bitmaps (w : ui_window_t) : list resource :=
  match bmp w with Some b => [RBitmap b] | None => [] end
  ++ match app_bmp w with Some b => [RBitmap b] | None => [] end.

(** The calls that hand an event to the decoration, to the application
    and to the control. *)
Definition to_decoration (e : ui_call) : bool :=
  match e with
  | UiWdecorSetActive _ _ | UiWdecorPaint _ | UiWdecorPosEvent _ _ => true
  | _ => false
  end.

Definition to_callback (e : ui_call) : bool :=
  match e with
  | CbClose _ | CbFocus _ | CbKbd _ _ | CbPos _ _ | CbUnfocus _ => true
  | _ => false
  end.

Definition to_control (e : ui_call) : bool :=
  match e with
  | UiControlKbdEvent _ _ | UiControlPosEvent _ _ | UiControlUnfocus _ =>
    true
  | _ => false
  end.

(** A value of the type [int]. *)
Definition is_int (z : Z) : Prop := - 2 ^ 31 <= z < 2 ^ 31.

(** ** One choice of what the file takes from elsewhere

    Server-side rendering, the flags one bit each, a user interface that
    is full-screen when it has no display, and the rectangle arithmetic of
    the graphics library. *)
Definition server_side : ui_externals := {|
  CONFIG_UI_CS_RENDER := false;
  CONFIG_WIN_DOUBLE_BUF := false;
  ui_wds_resizable := 2;
  ui_wndf_popup := 1;
  wndf_popup := 1;
  wndf_setpos := 2;
  bmpf_direct_output := 1;
  ui_is_fullscreen := fun v => is_null (display v);
  ui_is_textmode := fun v => negb (is_null (console v));
  gfx_rect_dims := fun r =>
    mk_coord2 (Z.abs (x (p1 r) - x (p0 r))) (Z.abs (y (p1 r) - y (p0 r)));
  gfx_coord2_add := fun a b => mk_coord2 (x a + x b) (y a + y b);
  gfx_rect_rtranslate := fun off r =>
    mk_rect (mk_coord2 (x (p0 r) - x off) (y (p0 r) - y off))
            (mk_coord2 (x (p1 r) - x off) (y (p1 r) - y off));
  ui_wdecor_app_from_rect := fun _ r => r;
  display_wnd_params_init :=
    mk_dparams (mk_rect (mk_coord2 0 0) (mk_coord2 0 0)) (mk_coord2 0 0)
      (mk_coord2 0 0) 0;
  gfx_bitmap_params_init :=
    mk_bparams (mk_rect (mk_coord2 0 0) (mk_coord2 0 0)) 0
|}.

(** The same with client-side rendering. *)
Definition client_side : ui_externals := {|
  CONFIG_UI_CS_RENDER := true;
  CONFIG_WIN_DOUBLE_BUF := false;
  ui_wds_resizable := 2;
  ui_wndf_popup := 1;
  wndf_popup := 1;
  wndf_setpos := 2;
  bmpf_direct_output := 1;
  ui_is_fullscreen := @ui_is_fullscreen server_side;
  ui_is_textmode := @ui_is_textmode server_side;
  gfx_rect_dims := @gfx_rect_dims server_side;
  gfx_coord2_add := @gfx_coord2_add server_side;
  gfx_rect_rtranslate := @gfx_rect_rtranslate server_side;
  ui_wdecor_app_from_rect := @ui_wdecor_app_from_rect server_side;
  display_wnd_params_init := @display_wnd_params_init server_side;
  gfx_bitmap_params_init := @gfx_bitmap_params_init server_side
|}.

(** A window ten by eight in its own coordinates, and a display of a
    hundred by eighty. *)
Definition small_rect : gfx_rect_t := mk_rect (mk_coord2 0 0) (mk_coord2 10 8).

Definition screen : gfx_rect_t := mk_rect (mk_coord2 0 0) (mk_coord2 100 80).

Definition plain_params (placement : ui_wnd_placement_t) : ui_wnd_params_t :=
  mk_params small_rect "w" 1 placement 0 small_rect.

(** A user interface on a display, and one with neither display nor
    console. *)
Definition on_display : ui_t := mk_ui (Some 500) None None screen.

Definition on_nothing : ui_t := mk_ui None None None screen.

(** Every callee succeeds and stores an address of its own, except that
    [gfx_bitmap_get_alloc] returns [alloc_rc] and [ui_resource_create]
    returns [resource_rc]. *)
Definition replies (alloc_rc resource_rc : Z) : create_env := {|
  calloc := Some 1000;
  display_get_info := (0, screen);
  display_window_create := (0, Some 1001);
  display_window_get_gc := (0, Some 1002);
  console_gc_get_ctx := Some 1003;
  dummygc_create := (0, Some 1004);
  dummygc_get_ctx := Some 1005;
  gfx_bitmap_create := (0, Some 1006);
  gfx_bitmap_get_alloc := alloc_rc;
  mem_gc_create := (0, Some 1007);
  mem_gc_get_ctx := Some 1008;
  xlate_gc_create := (0, Some 1009);
  xlate_gc_get_ctx := Some 1010;
  ui_resource_create :=
    (resource_rc, if resource_rc =? 0 then Some 1011 else None);
  ui_wdecor_create := (0, Some (mk_wdecor 1012 1))
|}.

(** The same for [ui_window_get_app_gc] and for [ui_window_resize]. *)
Definition app_replies (alloc_rc : Z) : app_gc_env := {|
  app_area_rect := small_rect;
  app_gc_bitmap_create := (0, Some 2001);
  app_gc_bitmap_get_alloc := alloc_rc;
  app_gc_mem_gc_create := (0, Some 2002);
  app_gc_mem_gc_get_ctx := Some 2003
|}.

Definition resize_replies (resize_rc : Z) : resize_env := {|
  win_bitmap_create := (0, Some 3000);
  win_bitmap_get_alloc := 0;
  app_bitmap_create := (0, Some 3001);
  app_bitmap_get_alloc := 0;
  display_window_resize := resize_rc
|}.

(** A window on the display, at (3, 4) for what does not go through the
    display, and the same window once it has a graphic context for its
    application area. *)
Definition plain_window : ui_window_t :=
  mk_window on_display (Some 1001) (Some 1002) None None None None
    None None None (Some 1011) (Some (mk_wdecor 1012 1)) None None 0
    ui_curs_arrow (mk_coord2 3 4) small_rect.

Definition app_window : ui_window_t :=
  mk_window on_display (Some 1001) (Some 1002) None None None None
    (Some 2003) (Some 2002) (Some 2001) (Some 1011)
    (Some (mk_wdecor 1012 1)) None None 0
    ui_curs_arrow (mk_coord2 3 4) small_rect.

End Ui.

(** ** Tactics for the window code *)

(** Takes the code apart along its tests. *)
Ltac split_run H :=
  repeat match type of H with
         | context [match ?x with _ => _ end] =>
           destruct x eqn:?; simpl in H; try discriminate H
         end.

(** The same, the innermost tests first. *)
Ltac split_atoms H :=
  repeat match type of H with
         | context [match ?x with _ => _ end] =>
           lazymatch x with
           | context [match _ with _ => _ end] => fail
           | _ => destruct x eqn:?; simpl in H; try discriminate H
           end
         end.

(** A test of a pointer that came out against what the pointer is. *)
Ltac absurd_null :=
  match goal with
  | Hn : Ui.is_null (Some _) = true |- _ => discriminate Hn
  | Hn : Ui.is_null None = false |- _ => discriminate Hn
  end.

Ltac split_pointers :=
  repeat match goal with o : option _ |- _ => destruct o end;
  try absurd_null.

(** ** Tactics *)

(** Unfolds the operations of the computation monad. *)
Ltac run :=
  unfold bind, and_then, ret, gets, call, emit, assert, goto_out,
    ipc_answer_0, ipc_answer_5, ops_node_put, put_if, out_of_fuel; simpl.

(** Settles a goal about the counts of references in explicit traces. *)
Ltac balance :=
  unfold owed, holds, held, fs_node_t in *;
  cbn [acquired released linked flat_map app count_occ
       l_par l_cur l_tmp exit_pointers body_pointers] in *;
  repeat match goal with
         | |- context [Z.eq_dec ?a ?b] => destruct (Z.eq_dec a b)
         end;
  try lia.

(** * Properties *)

(** ** Outcomes *)

Lemma prepend_nil {S A} (o : outcome S A) : prepend [] o = o.
Proof. destruct o; reflexivity. Qed.

Lemma prepend_app {S A} (t1 t2 : trace) (o : outcome S A) :
  prepend t1 (prepend t2 o) = prepend (t1 ++ t2) o.
Proof. destruct o; simpl; rewrite ?app_assoc; reflexivity. Qed.

Lemma prepend_fuel {S A} (tr : trace) (o : outcome S A) :
  prepend tr o = OutOfFuel -> o = OutOfFuel.
Proof. destruct o; simpl; congruence. Qed.

Lemma prepend_done {S A} (tr : trace) (o : outcome S A) a s t :
  prepend tr o = Done a s t ->
  exists t', o = Done a s t' /\ t = tr ++ t'.
Proof.
  destruct o; simpl; intros H; inversion H; subst; eauto.
Qed.

Lemma bind_done {S A B} (m : M S A) (f : A -> M S B) s b s2 t :
  bind m f s = Done b s2 t ->
  exists a s1 t1 t2,
    m s = Done a s1 t1 /\ f a s1 = Done b s2 t2 /\ t = t1 ++ t2.
Proof.
  unfold bind, and_then. destruct (m s) as [a s1 t1| |]; try discriminate.
  intros H. apply prepend_done in H. destruct H as (t2 & H1 & H2).
  exists a, s1, t1, t2. auto.
Qed.

Section LookupFacts.
Context {K : vfs_constants} {S : Type}.
Variable ops : libfs_ops S.
Variables fs_handle rid : Z.
Variables last dev_handle lflag index : Z.

Local Abbreviation collect := (collect_component ops last).
Local Abbreviation xcollect := (collect_excess ops last).
Local Abbreviation body :=
  (walk_body ops fs_handle rid last dev_handle lflag index).
Local Abbreviation walk :=
  (lookup_walk ops fs_handle rid last dev_handle lflag index).
Local Abbreviation excess :=
  (handle_excess ops fs_handle rid last dev_handle lflag index).
Local Abbreviation after :=
  (after_walk ops fs_handle rid last dev_handle lflag index).
Local Abbreviation from :=
  (lookup_from ops fs_handle rid last dev_handle lflag index).
Local Abbreviation reaches :=
  (descends ops fs_handle rid last dev_handle lflag index).

(** ** More fuel does not change a result *)

Lemma collect_component_mono fuel :
  forall next len component r,
    collect fuel next len component = Some r ->
    forall fuel', (fuel <= fuel')%nat ->
      collect fuel' next len component = Some r.
Proof.
  induction fuel as [|fuel IH]; simpl; intros next len component r H fuel' Hle.
  - discriminate.
  - destruct fuel' as [|fuel']; [lia|]. simpl.
    destruct ((next <=? last) && _); [|exact H].
    destruct (len + 1 =? NAME_MAX); [exact H|].
    apply IH with (fuel' := fuel') in H; [exact H | lia].
Qed.

Lemma collect_excess_mono fuel :
  forall next len component r,
    xcollect fuel next len component = Some r ->
    forall fuel', (fuel <= fuel')%nat ->
      xcollect fuel' next len component = Some r.
Proof.
  induction fuel as [|fuel IH]; simpl; intros next len component r H fuel' Hle.
  - discriminate.
  - destruct fuel' as [|fuel']; [lia|]. simpl.
    destruct (next <=? last); [|exact H].
    destruct (Ascii.eqb _ _); [exact H|].
    destruct (len + 1 =? NAME_MAX); [exact H|].
    apply IH with (fuel' := fuel') in H; [exact H | lia].
Qed.

Lemma walk_body_mono fuel par cur next s o :
  body fuel par cur next s = o -> o <> OutOfFuel ->
  forall fuel', (fuel <= fuel')%nat -> body fuel' par cur next s = o.
Proof.
  unfold walk_body. intros H Ho fuel' Hle.
  destruct (collect fuel next 0 EmptyString) as [r|] eqn:E.
  - rewrite (collect_component_mono _ _ _ _ _ E _ Hle). exact H.
  - subst o. exfalso. apply Ho. reflexivity.
Qed.

Lemma lookup_walk_mono fuel :
  forall par cur next s o,
    walk fuel par cur next s = o -> o <> OutOfFuel ->
    forall fuel', (fuel <= fuel')%nat -> walk fuel' par cur next s = o.
Proof.
  induction fuel as [|fuel IH]; intros par cur next s o H Ho fuel' Hle.
  - simpl in H. subst o. exfalso. apply Ho. reflexivity.
  - destruct fuel' as [|fuel']; [lia|].
    simpl in *. unfold bind, and_then in *. simpl in *.
    destruct (negb (walk_cond ops last cur next s)); [exact H|].
    rewrite prepend_nil in *.
    destruct (body fuel par cur next s) as [b s1 t1| |] eqn:E.
    + rewrite (walk_body_mono _ _ _ _ _ _ E) by (congruence || lia).
      destruct b as [l|p c n]; [exact H|].
      destruct (walk fuel p c n s1) eqn:E1;
        [ rewrite (IH _ _ _ _ _ E1) by (congruence || lia); exact H
        | rewrite (IH _ _ _ _ _ E1) by (congruence || lia); exact H
        | simpl in H; subst o; exfalso; apply Ho; reflexivity ].
    + rewrite (walk_body_mono _ _ _ _ _ _ E) by (congruence || lia).
      exact H.
    + subst o. exfalso. apply Ho. reflexivity.
Qed.

Lemma handle_excess_mono fuel par cur next s o :
  excess fuel par cur next s = o -> o <> OutOfFuel ->
  forall fuel', (fuel <= fuel')%nat -> excess fuel' par cur next s = o.
Proof.
  unfold handle_excess. intros H Ho fuel' Hle.
  destruct (c_true _); [|exact H].
  unfold bind, and_then in *. simpl in *.
  destruct (negb _); [exact H|].
  destruct (xcollect fuel next 0 EmptyString) as [r|] eqn:E.
  - rewrite (collect_excess_mono _ _ _ _ _ E _ Hle). exact H.
  - simpl in H. subst o. exfalso. apply Ho. reflexivity.
Qed.

Lemma after_walk_mono fuel par cur next s o :
  after fuel par cur next s = o -> o <> OutOfFuel ->
  forall fuel', (fuel <= fuel')%nat -> after fuel' par cur next s = o.
Proof.
  unfold after_walk. intros H Ho fuel' Hle.
  unfold bind, and_then in *. simpl in *.
  destruct ((next <=? last) && _); [|exact H].
  rewrite prepend_nil in *.
  eapply handle_excess_mono; eauto.
Qed.

Lemma lookup_from_mono fuel par cur next s o :
  from fuel par cur next s = o -> o <> OutOfFuel ->
  forall fuel', (fuel <= fuel')%nat -> from fuel' par cur next s = o.
Proof.
  unfold lookup_from. intros H Ho fuel' Hle.
  unfold bind, and_then at 1. unfold bind, and_then at 1 in H.
  destruct (walk fuel par cur next s) as [w s1 t1| |] eqn:E.
  - rewrite (lookup_walk_mono _ _ _ _ _ _ E) by (congruence || lia).
    destruct w as [l|p c n]; [exact H|].
    unfold bind, and_then at 1. unfold bind, and_then at 1 in H.
    destruct (after fuel p c n s1) as [l s2 t2| |] eqn:E1.
    + rewrite (after_walk_mono _ _ _ _ _ _ E1) by (congruence || lia). exact H.
    + rewrite (after_walk_mono _ _ _ _ _ _ E1) by (congruence || lia). exact H.
    + simpl in H. subst o. exfalso. apply Ho. reflexivity.
  - rewrite (lookup_walk_mono _ _ _ _ _ _ E) by (congruence || lia). exact H.
  - subst o. exfalso. apply Ho. reflexivity.
Qed.

End LookupFacts.

Lemma and_then_prepend {S A B} (t : trace) (o : outcome S A) (f : A -> M S B) :
  and_then (prepend t o) f = prepend t (and_then o f).
Proof.
  destruct o; simpl; auto. rewrite prepend_app. reflexivity.
Qed.

Lemma and_then_fuel {S A B} (o : outcome S A) (f : A -> M S B) :
  and_then o f <> OutOfFuel -> o <> OutOfFuel.
Proof. destruct o; simpl; congruence. Qed.

Lemma prepend_not_fuel {S A} (tr : trace) (o : outcome S A) :
  o <> OutOfFuel -> prepend tr o <> OutOfFuel.
Proof. destruct o; simpl; congruence. Qed.

Section Composition.
Context {K : vfs_constants} {S : Type}.
Variable ops : libfs_ops S.
Variables fs_handle rid : Z.

Section Body.
Variables last dev_handle lflag index : Z.

Local Abbreviation collect := (collect_component ops last).
Local Abbreviation body :=
  (walk_body ops fs_handle rid last dev_handle lflag index).
Local Abbreviation walk :=
  (lookup_walk ops fs_handle rid last dev_handle lflag index).
Local Abbreviation from :=
  (lookup_from ops fs_handle rid last dev_handle lflag index).
Local Abbreviation reaches :=
  (descends ops fs_handle rid last dev_handle lflag index).

(** The code at [out:] always returns. *)
Lemma cleanup_run l s :
  cleanup ops l s = Done tt (cleanup_state ops l s) (cleanup_trace l).
Proof.
  destruct l as [[p|] [c|] [t|]]; reflexivity.
Qed.

(** One more turn of the walk loop. *)
Lemma lookup_from_step fuel par cur next s par1 cur1 next1 s1 tr1 o :
  walk_cond ops last cur next s = true ->
  body fuel par cur next s = Done (BodyNext par1 cur1 next1) s1 tr1 ->
  from fuel par1 cur1 next1 s1 = o -> o <> OutOfFuel ->
  from (Datatypes.S fuel) par cur next s = prepend tr1 o.
Proof.
  intros Hc Hb Hf Ho.
  assert (Hf' := Hf).
  eapply lookup_from_mono with (fuel' := Datatypes.S fuel) in Hf';
    [|exact Ho|lia].
  rewrite <- Hf'.
  assert (Hw : walk fuel par1 cur1 next1 s1 <> OutOfFuel).
  { subst o. unfold lookup_from, bind in Ho.
    apply and_then_fuel in Ho. exact Ho. }
  assert (Hw' : walk (Datatypes.S fuel) par1 cur1 next1 s1
                = walk fuel par1 cur1 next1 s1).
  { eapply lookup_walk_mono; [reflexivity | exact Hw | lia]. }
  unfold lookup_from, bind.
  rewrite Hw'.
  change (walk (Datatypes.S fuel) par cur next s)
    with (and_then (gets (walk_cond ops last cur next) s)
            (fun go => if negb go then ret (Fallthrough par cur next)
                       else b <- body fuel par cur next ;;
                            match b with
                            | BodyGoto l => ret (GotoOut l)
                            | BodyNext par' cur' next' =>
                              walk fuel par' cur' next'
                            end)).
  unfold gets. simpl. rewrite Hc. simpl.
  unfold bind. rewrite Hb. simpl.
  rewrite prepend_nil, and_then_prepend. reflexivity.
Qed.

Lemma descends_lookup_from par cur next s par' cur' next' s' tr :
  reaches par cur next s par' cur' next' s' tr ->
  forall fuel o,
    from fuel par' cur' next' s' = o -> o <> OutOfFuel ->
    exists N, from N par cur next s = prepend tr o.
Proof.
  induction 1 as [par cur next s
                 |fuel0 par cur next s par1 cur1 next1 s1 tr1
                        par2 cur2 next2 s2 tr2 Hc Hb Hd IH];
    intros fuel o Hf Ho.
  - exists fuel. rewrite prepend_nil. exact Hf.
  - destruct (IH _ _ Hf Ho) as [N HN].
    exists (Datatypes.S (Nat.max N fuel0)).
    rewrite <- prepend_app.
    eapply lookup_from_step; eauto.
    + eapply walk_body_mono; eauto; [congruence | lia].
    + eapply lookup_from_mono; eauto; [|lia].
      apply prepend_not_fuel; exact Ho.
    + apply prepend_not_fuel; exact Ho.
Qed.

End Body.

(** What the function does once it has arrived at the head of the walk
    loop is what [lookup_from] does there. *)
Lemma lookup_after_walk request s par cur next s1 tr fuel o :
  walks_to ops fs_handle rid request s par cur next s1 tr ->
  lookup_from ops fs_handle rid (req_last request) (req_dev request)
    (req_lflag request) (req_index request) fuel par cur next s1 = o ->
  o <> OutOfFuel ->
  exists N, forall fuel', (N <= fuel')%nat ->
    libfs_lookup ops fs_handle rid fuel' request s = prepend tr o.
Proof.
  intros (root & s0 & tr0 & Hr & Hd & ->) Hf Ho.
  destruct (descends_lookup_from _ _ _ _ _ _ _ _ _ _ _ _ _ Hd _ _ Hf Ho)
    as [N HN].
  exists N. intros fuel' Hle.
  unfold libfs_lookup, bind, call.
  fold (req_dev request). rewrite Hr. simpl.
  eapply lookup_from_mono in HN; [| apply prepend_not_fuel; exact Ho | exact Hle].
  unfold req_last, req_next, req_lflag, req_index, req_start, req_next in HN.
  rewrite HN. destruct o; reflexivity.
Qed.

End Composition.

(** ** Flag tests *)

Lemma c_true_iff z : c_true z = true <-> z <> 0.
Proof.
  unfold c_true. rewrite negb_true_iff, Z.eqb_neq. reflexivity.
Qed.

Lemma c_true_false_iff z : c_true z = false <-> z = 0.
Proof.
  unfold c_true. rewrite negb_false_iff, Z.eqb_eq. reflexivity.
Qed.

(** A test against the union of two masks succeeds when a test against
    one of them does. *)
Lemma has_flag_lor lflag a b :
  has_flag lflag (Z.lor a b) = has_flag lflag a || has_flag lflag b.
Proof.
  unfold has_flag. rewrite Z.land_lor_distr_r.
  destruct (c_true (Z.land lflag a)) eqn:Ea;
    destruct (c_true (Z.land lflag b)) eqn:Eb; simpl;
    rewrite ?c_true_iff, ?c_true_false_iff in *;
    rewrite ?Z.lor_eq_0_iff; tauto.
Qed.

Lemma single_bit_nonzero m : single_bit m -> m <> 0.
Proof.
  intros (k & Hk & ->). apply Z.pow_nonzero; lia.
Qed.

(** A set single-bit flag is wholly contained in the flag word. *)
Lemma has_flag_single lflag m :
  single_bit m -> has_flag lflag m = true -> Z.land lflag m = m.
Proof.
  intros (k & Hk & ->) H. unfold has_flag in H. rewrite c_true_iff in H.
  destruct (Z.testbit lflag k) eqn:E.
  - apply Z.bits_inj'. intros n Hn.
    rewrite Z.land_spec, Z.pow2_bits_eqb by lia.
    destruct (Z.eqb_spec k n) as [->|]; [rewrite E|]; simpl;
      auto using andb_false_r.
  - exfalso. apply H. apply Z.bits_inj'. intros n Hn.
    rewrite Z.land_spec, Z.pow2_bits_eqb, Z.bits_0 by lia.
    destruct (Z.eqb_spec k n) as [->|]; [rewrite E|]; simpl;
      auto using andb_false_r.
Qed.

Lemma land_lor_absorb a b : Z.land a (Z.lor a b) = a.
Proof.
  apply Z.bits_inj'. intros n Hn. rewrite Z.land_spec, Z.lor_spec.
  destruct (Z.testbit a n); reflexivity.
Qed.

(** The test [(lflag & (a | b)) == (a | b)] on two single-bit flags. *)
Lemma both_flags lflag a b :
  single_bit a -> single_bit b ->
  (Z.land lflag (Z.lor a b) =? Z.lor a b)
  = has_flag lflag a && has_flag lflag b.
Proof.
  intros Ha Hb.
  destruct (has_flag lflag a) eqn:Ea; destruct (has_flag lflag b) eqn:Eb;
    simpl.
  - apply Z.eqb_eq. rewrite Z.land_lor_distr_r.
    rewrite (has_flag_single _ _ Ha Ea), (has_flag_single _ _ Hb Eb).
    reflexivity.
  - apply Z.eqb_neq. intros H.
    unfold has_flag in Eb. rewrite c_true_false_iff in Eb.
    apply (single_bit_nonzero _ Hb).
    assert (E : Z.land (Z.land lflag (Z.lor a b)) b = Z.land (Z.lor a b) b)
      by (rewrite H; reflexivity).
    rewrite <- Z.land_assoc in E.
    rewrite (Z.land_comm (Z.lor a b) b), (Z.lor_comm a b) in E.
    rewrite land_lor_absorb in E. rewrite <- E. exact Eb.
  - apply Z.eqb_neq. intros H.
    unfold has_flag in Ea. rewrite c_true_false_iff in Ea.
    apply (single_bit_nonzero _ Ha).
    assert (E : Z.land (Z.land lflag (Z.lor a b)) a = Z.land (Z.lor a b) a)
      by (rewrite H; reflexivity).
    rewrite <- Z.land_assoc in E.
    rewrite (Z.land_comm (Z.lor a b) a) in E.
    rewrite land_lor_absorb in E. rewrite <- E. exact Ea.
  - apply Z.eqb_neq. intros H.
    unfold has_flag in Ea. rewrite c_true_false_iff in Ea.
    apply (single_bit_nonzero _ Ha).
    assert (E : Z.land (Z.land lflag (Z.lor a b)) a = Z.land (Z.lor a b) a)
      by (rewrite H; reflexivity).
    rewrite <- Z.land_assoc in E.
    rewrite (Z.land_comm (Z.lor a b) a) in E.
    rewrite land_lor_absorb in E. rewrite <- E. exact Ea.
Qed.

Section Hit.
Context {K : vfs_constants} {S : Type}.
Variable ops : libfs_ops S.
Variables fs_handle rid : Z.

Local Abbreviation lookup := (libfs_lookup ops fs_handle rid).
Local Abbreviation arrives := (walks_to ops fs_handle rid).

(** A run that arrives at the head of the walk loop and ends from there
    ends as a whole. *)
Lemma lookup_arrives request s par cur next s1 tr fuel s2 tr2 :
  arrives request s par cur next s1 tr ->
  lookup_from ops fs_handle rid (req_last request) (req_dev request)
    (req_lflag request) (req_index request) fuel par cur next s1
    = Done tt s2 tr2 ->
  exists N, forall fuel', (N <= fuel')%nat ->
    lookup fuel' request s = Done tt s2 (tr ++ tr2).
Proof.
  intros Ha Hf.
  eapply lookup_after_walk in Hf; eauto. discriminate.
Qed.

Section Body.
Variables last dev_handle lflag index : Z.

Local Abbreviation from :=
  (lookup_from ops fs_handle rid last dev_handle lflag index).
Local Abbreviation hit := (handle_hit ops fs_handle rid dev_handle lflag).
Local Abbreviation hit_flags :=
  (handle_hit_flags ops fs_handle rid dev_handle lflag).

(** With the whole path consumed, the function goes on to the hit. *)
Lemma lookup_from_hit par cur next s l s1 tr :
  last < next ->
  hit par cur s = Done l s1 tr ->
  from 1 par cur next s
  = Done tt (cleanup_state ops l s1) (tr ++ cleanup_trace l).
Proof.
  intros Hn Hh.
  assert (E : (next <=? last) = false) by (apply Z.leb_gt; lia).
  unfold lookup_from, bind. simpl.
  unfold bind, gets, walk_cond. rewrite E. simpl.
  unfold after_walk, bind, gets. rewrite E. simpl.
  rewrite Hh. simpl. rewrite cleanup_run. reflexivity.
Qed.

Lemma hit_unlink par cur s res s1 :
  has_flag lflag L_UNLINK = true ->
  unlink ops par cur s = (res, s1) ->
  hit_flags par cur s
  = Done (mk_locals par cur None) s1
      [EvUnlink par cur res;
       EvAnswer5 rid res fs_handle dev_handle (index_get ops cur s1)
         (size_get ops cur s1) (lnkcnt_get ops cur s)].
Proof.
  unfold has_flag. intros Hu He. unfold handle_hit_flags. rewrite Hu.
  run. rewrite He. reflexivity.
Qed.

Lemma hit_exists par cur s :
  has_flag lflag L_UNLINK = false ->
  (Z.land lflag (Z.lor L_CREATE L_EXCLUSIVE) =? Z.lor L_CREATE L_EXCLUSIVE)
  || has_flag lflag L_LINK = true ->
  hit_flags par cur s
  = Done (mk_locals par cur None) s [EvAnswer0 rid EEXIST].
Proof.
  unfold has_flag. intros Hu He. unfold handle_hit_flags. rewrite Hu, He.
  reflexivity.
Qed.

Lemma hit_plain par cur s :
  has_flag lflag L_UNLINK = false ->
  (Z.land lflag (Z.lor L_CREATE L_EXCLUSIVE) =? Z.lor L_CREATE L_EXCLUSIVE)
  || has_flag lflag L_LINK = false ->
  exists reply,
    hit_flags par cur s = Done (mk_locals par cur None) s [reply] /\
    (reply = EvAnswer0 rid EISDIR \/ reply = EvAnswer0 rid ENOTDIR \/
     reply = EvAnswer5 rid EOK fs_handle dev_handle (index_get ops cur s)
               (size_get ops cur s) (lnkcnt_get ops cur s)).
Proof.
  unfold has_flag. intros Hu He. unfold handle_hit_flags. rewrite Hu, He.
  run.
  destruct (c_true (Z.land lflag L_FILE)); simpl;
    [destruct (is_directory ops cur s); simpl; eauto|];
    (destruct (c_true (Z.land lflag L_DIRECTORY)); simpl;
     [destruct (is_file ops cur s); simpl; eauto 6|]; eauto 6).
Qed.

Lemma hit_no_parent par cur s :
  has_flag lflag L_PARENT = false ->
  hit par cur s = hit_flags par cur s.
Proof.
  unfold has_flag, handle_hit. intros ->. reflexivity.
Qed.

Lemma hit_parent p cur s :
  has_flag lflag L_PARENT = true ->
  hit (Some p) cur s
  = prepend [EvNodePut cur] (hit_flags None (Some p) (node_put ops cur s)).
Proof.
  unfold has_flag, handle_hit. intros ->. reflexivity.
Qed.

End Body.

(** C3: a hit with [L_UNLINK] reads the link count of the node, then
    unlinks it, and answers with the status of the unlink and the link
    count read before it.  With [L_PARENT] the node is the parent of the
    one the path names. *)
Theorem unlink_reports_old_link_count request s par cur next s1 tr :
  arrives request s par cur next s1 tr ->
  req_last request < next ->
  has_flag (req_lflag request) L_UNLINK = true ->
  (has_flag (req_lflag request) L_PARENT = false ->
   forall res s2,
     unlink ops par cur s1 = (res, s2) ->
     exists N, forall fuel, (N <= fuel)%nat ->
       lookup fuel request s
       = Done tt (cleanup_state ops (mk_locals par cur None) s2)
           (tr ++ [EvUnlink par cur res;
                   EvAnswer5 rid res fs_handle (req_dev request)
                     (index_get ops cur s2) (size_get ops cur s2)
                     (lnkcnt_get ops cur s1)]
               ++ cleanup_trace (mk_locals par cur None))) /\
  (has_flag (req_lflag request) L_PARENT = true ->
   forall p res s2,
     par = Some p ->
     unlink ops None par (node_put ops cur s1) = (res, s2) ->
     exists N, forall fuel, (N <= fuel)%nat ->
       lookup fuel request s
       = Done tt (cleanup_state ops (mk_locals None par None) s2)
           (tr ++ [EvNodePut cur; EvUnlink None par res;
                   EvAnswer5 rid res fs_handle (req_dev request)
                     (index_get ops par s2) (size_get ops par s2)
                     (lnkcnt_get ops par (node_put ops cur s1))]
               ++ cleanup_trace (mk_locals None par None))).
Proof.
  intros Ha Hn Hu. split.
  - intros Hp res s2 He.
    eapply lookup_arrives; [exact Ha|].
    erewrite lookup_from_hit; [reflexivity | exact Hn |].
    rewrite hit_no_parent by exact Hp.
    apply hit_unlink; assumption.
  - intros Hp p res s2 -> He.
    eapply lookup_arrives; [exact Ha|].
    erewrite lookup_from_hit; [| exact Hn |].
    2:{ rewrite hit_parent by exact Hp.
        erewrite hit_unlink by eassumption. reflexivity. }
    reflexivity.
Qed.

(** C8: a hit with [L_CREATE] and [L_EXCLUSIVE], or with [L_LINK], is
    answered with [EEXIST], unless [L_PARENT] or [L_UNLINK] is set; a hit
    with [L_CREATE] alone is not. *)
Theorem existing_name_already_exists request s par cur next s1 tr :
  single_bit L_CREATE -> single_bit L_EXCLUSIVE ->
  EEXIST <> EISDIR -> EEXIST <> ENOTDIR ->
  arrives request s par cur next s1 tr ->
  req_last request < next ->
  has_flag (req_lflag request) L_PARENT = false ->
  has_flag (req_lflag request) L_UNLINK = false ->
  (has_flag (req_lflag request) L_CREATE
   && has_flag (req_lflag request) L_EXCLUSIVE
   || has_flag (req_lflag request) L_LINK = true ->
   exists N, forall fuel, (N <= fuel)%nat ->
     lookup fuel request s
     = Done tt (cleanup_state ops (mk_locals par cur None) s1)
         (tr ++ [EvAnswer0 rid EEXIST]
             ++ cleanup_trace (mk_locals par cur None))) /\
  (has_flag (req_lflag request) L_CREATE = true ->
   has_flag (req_lflag request) L_EXCLUSIVE = false ->
   has_flag (req_lflag request) L_LINK = false ->
   exists reply,
     reply <> EvAnswer0 rid EEXIST /\
     exists N, forall fuel, (N <= fuel)%nat ->
       lookup fuel request s
       = Done tt (cleanup_state ops (mk_locals par cur None) s1)
           (tr ++ [reply] ++ cleanup_trace (mk_locals par cur None))).
Proof.
  intros Hc He Hd1 Hd2 Ha Hn Hp Hu. split.
  - intros Hx.
    eapply lookup_arrives; [exact Ha|].
    erewrite lookup_from_hit; [reflexivity | exact Hn |].
    rewrite hit_no_parent by exact Hp.
    apply hit_exists; [exact Hu|].
    rewrite both_flags by assumption. exact Hx.
  - intros H1 H2 H3.
    destruct (hit_plain (req_dev request) (req_lflag request) par cur s1 Hu)
      as (reply & Hr & Hcases).
    { rewrite both_flags by assumption. rewrite H1, H2, H3. reflexivity. }
    exists reply. split.
    + destruct Hcases as [-> | [-> | ->]]; congruence.
    + eapply lookup_arrives; [exact Ha|].
      erewrite lookup_from_hit; [reflexivity | exact Hn |].
      rewrite hit_no_parent by exact Hp. exact Hr.
Qed.

End Hit.

Section Miss.
Context {K : vfs_constants} {S : Type}.
Variable ops : libfs_ops S.
Variables fs_handle rid : Z.

Local Abbreviation lookup := (libfs_lookup ops fs_handle rid).
Local Abbreviation arrives := (walks_to ops fs_handle rid).

Section Body.
Variables last dev_handle lflag index : Z.

Local Abbreviation body :=
  (walk_body ops fs_handle rid last dev_handle lflag index).
Local Abbreviation from :=
  (lookup_from ops fs_handle rid last dev_handle lflag index).
Local Abbreviation new_link :=
  (create_and_link ops fs_handle rid dev_handle lflag index).
Local Abbreviation reaches :=
  (descends ops fs_handle rid last dev_handle lflag index).

(** The body of the walk loop, when it ends in a miss with more of the
    path to come. *)
Lemma walk_body_miss_inner fuel par cur next s next1 len component s1 :
  collect_component ops last fuel next 0 EmptyString
    = Some (Collected next1 len component) ->
  len <> 0 ->
  match_ ops cur (c_str component) s = (None, s1) ->
  to_unsigned (next1 + 1) <= last ->
  body fuel par cur next s
  = Done (BodyGoto (mk_locals par cur None)) s1
      [EvMatch cur (c_str component) None; EvAnswer0 rid ENOENT].
Proof.
  intros Hc Hl Hm Hn. unfold walk_body. rewrite Hc.
  apply c_true_iff in Hl.
  run. rewrite Hl. simpl. rewrite Hm. simpl.
  assert (E : (to_unsigned (next1 + 1) <=? last) = true)
    by (apply Z.leb_le; exact Hn).
  rewrite E. reflexivity.
Qed.

(** The function from the head of the walk loop, when the body of the
    loop leaves by [goto out]. *)
Lemma lookup_from_goto fuel par cur next s l s1 tr :
  walk_cond ops last cur next s = true ->
  body fuel par cur next s = Done (BodyGoto l) s1 tr ->
  from (Datatypes.S fuel) par cur next s
  = Done tt (cleanup_state ops l s1) (tr ++ cleanup_trace l).
Proof.
  intros Hc Hb. unfold lookup_from, bind. simpl.
  unfold bind, gets. simpl. rewrite Hc. simpl.
  rewrite Hb. simpl. rewrite cleanup_run. simpl.
  rewrite app_nil_r. reflexivity.
Qed.

(** The function from the head of the walk loop, when the last component
    is missing and a link is asked for. *)
Lemma lookup_from_miss par cur next s component s1 trl s2 tr2 :
  misses_last ops last cur next s component s1 trl ->
  has_flag lflag (Z.lor L_CREATE L_LINK) = true ->
  is_directory ops cur s1 = true ->
  new_link cur component s1 = Done tt s2 tr2 ->
  exists fuel,
    from fuel par cur next s
    = Done tt (cleanup_state ops (mk_locals par cur None) s2)
        (trl ++ tr2 ++ cleanup_trace (mk_locals par cur None)).
Proof.
  unfold has_flag.
  intros Hm Hf Hd Hn.
  destruct Hm as [fuel next1 len component s1 Hc Hcol Hlen Hmatch Hlast
                 |fuel len component Hnext Hch Hcol Hlen].
  - exists (Datatypes.S fuel).
    rewrite (lookup_from_goto fuel par cur next s (mk_locals par cur None)
               s2 (EvMatch cur (c_str component) None :: tr2));
      [reflexivity | exact Hc |].
    unfold walk_body. rewrite Hcol.
    apply c_true_iff in Hlen.
    run. rewrite Hlen. simpl. rewrite Hmatch. simpl.
    assert (E : (to_unsigned (next1 + 1) <=? last) = false)
      by (apply Z.leb_gt; exact Hlast).
    rewrite E. unfold miss_last. rewrite Hf.
    run. rewrite Hd. simpl. rewrite Hn. simpl.
    rewrite !app_nil_r. reflexivity.
  - exists (Datatypes.S fuel).
    assert (E : (next <=? last) = true) by (apply Z.leb_le; exact Hnext).
    apply c_true_iff in Hlen.
    assert (Hx : handle_excess ops fs_handle rid last dev_handle lflag index
                   (Datatypes.S fuel) par cur next s
                 = Done (mk_locals par cur None) s2 tr2).
    { unfold handle_excess. rewrite Hf.
      rewrite (collect_excess_mono _ _ _ _ _ _ _ Hcol (Datatypes.S fuel))
        by lia.
      run. rewrite Hd. simpl. rewrite Hlen. simpl. rewrite Hn. simpl.
      rewrite !app_nil_r. reflexivity. }
    unfold lookup_from, bind.
    assert (Hw : lookup_walk ops fs_handle rid last dev_handle lflag index
                   (Datatypes.S fuel) par cur next s
                 = Done (Fallthrough par cur next) s []).
    { simpl. unfold bind, gets, walk_cond. rewrite E, Hch. reflexivity. }
    rewrite Hw. cbn [and_then prepend].
    unfold after_walk, bind, gets. rewrite E, Hch.
    cbn [and_then prepend negb andb]. rewrite Hx.
    cbn [and_then prepend app]. rewrite cleanup_run. reflexivity.
Qed.

(** The block that creates and links, when the link of a created node
    fails. *)
Lemma create_and_link_undo cur component s fn s1 rc s2 rd s3 :
  has_flag lflag L_CREATE = true ->
  create ops dev_handle lflag s = (Some fn, s1) ->
  link ops cur (Some fn) component s1 = (rc, s2) ->
  rc <> EOK ->
  destroy ops (Some fn) s2 = (rd, s3) ->
  new_link cur component s
  = Done tt s3
      [EvCreate dev_handle lflag (Some fn);
       EvLink cur (Some fn) component rc;
       EvDestroy (Some fn) rd;
       EvAnswer0 rid rc].
Proof.
  unfold has_flag. intros Hf Hc Hl Hrc Hd.
  apply Z.eqb_neq in Hrc.
  unfold create_and_link. rewrite Hf.
  run. rewrite Hc. simpl. rewrite Hl. simpl. rewrite Hrc. simpl.
  rewrite Hd. reflexivity.
Qed.

(** The block that creates and links, when the link of a node got by its
    index fails. *)
Lemma create_and_link_keep cur component s fn s1 rc s2 :
  has_flag lflag L_CREATE = false ->
  node_get ops dev_handle index s = (Some fn, s1) ->
  link ops cur (Some fn) component s1 = (rc, s2) ->
  rc <> EOK ->
  new_link cur component s
  = Done tt s2
      [EvNodeGet dev_handle index (Some fn);
       EvLink cur (Some fn) component rc;
       EvAnswer0 rid rc].
Proof.
  unfold has_flag. intros Hf Hc Hl Hrc.
  apply Z.eqb_neq in Hrc.
  unfold create_and_link. rewrite Hf.
  run. rewrite Hc. simpl. rewrite Hl. simpl. rewrite Hrc. reflexivity.
Qed.

(** With [L_CREATE] the block that creates and links calls [create] and
    does not call [node_get]. *)
Lemma create_and_link_creates cur component s fn s1 :
  has_flag lflag L_CREATE = true ->
  create ops dev_handle lflag s = (fn, s1) ->
  exists s2 rest,
    new_link cur component s
    = Done tt s2 (EvCreate dev_handle lflag fn :: rest) /\
    forallb (fun e => negb (is_node_get e)) rest = true.
Proof.
  unfold has_flag. intros Hf Hc.
  unfold create_and_link. rewrite Hf.
  run. rewrite Hc. simpl.
  destruct fn as [fn|]; simpl; [|eauto].
  destruct (link ops cur (Some fn) component s1) as [rc s2]. simpl.
  destruct (negb (rc =? EOK)); simpl; [|eauto].
  destruct (destroy ops (Some fn) s2) as [rd s3]. simpl. eauto.
Qed.

(** The iterations of the walk loop call [match] and [node_put] only. *)
Lemma walk_body_next_trace fuel par cur next s par1 cur1 next1 s1 tr :
  body fuel par cur next s = Done (BodyNext par1 cur1 next1) s1 tr ->
  forallb (fun e => negb (is_node_get e)) tr = true.
Proof.
  unfold walk_body.
  destruct (collect_component ops last fuel next 0 EmptyString)
    as [[|nx len component]|]; run; try discriminate.
  destruct (c_true len); simpl; try discriminate.
  destruct (match_ ops cur (c_str component) s) as [[t|] s0]; simpl.
  - destruct par; simpl; intros H; inversion H; reflexivity.
  - destruct (to_unsigned (nx + 1) <=? last); simpl; try discriminate.
    unfold miss_last.
    destruct (c_true (Z.land lflag (Z.lor L_CREATE L_LINK))); run.
    + destruct (negb (is_directory ops cur s0)); simpl; try discriminate.
      destruct (new_link cur (c_str component) s0); simpl; discriminate.
    + destruct (c_true (Z.land lflag L_PARENT)); simpl; discriminate.
Qed.

Lemma descends_trace par cur next s par1 cur1 next1 s1 tr :
  reaches par cur next s par1 cur1 next1 s1 tr ->
  forallb (fun e => negb (is_node_get e)) tr = true.
Proof.
  induction 1 as [| ? ? ? ? ? ? ? ? ? ? ? ? ? ? ? Hc Hb Hd IH].
  - reflexivity.
  - rewrite forallb_app, IH, andb_true_r.
    eapply walk_body_next_trace; eauto.
Qed.

End Body.

(** C5: a miss on a component that is not the last one is answered with
    [ENOENT], whatever the flags are. *)
Theorem intermediate_miss_not_found
  request s par cur next s1 tr fuel next1 len component s2 :
  arrives request s par cur next s1 tr ->
  walk_cond ops (req_last request) cur next s1 = true ->
  collect_component ops (req_last request) fuel next 0 EmptyString
    = Some (Collected next1 len component) ->
  len <> 0 ->
  match_ ops cur (c_str component) s1 = (None, s2) ->
  to_unsigned (next1 + 1) <= req_last request ->
  exists N, forall fuel', (N <= fuel')%nat ->
    lookup fuel' request s
    = Done tt (cleanup_state ops (mk_locals par cur None) s2)
        (tr ++ [EvMatch cur (c_str component) None; EvAnswer0 rid ENOENT]
            ++ cleanup_trace (mk_locals par cur None)).
Proof.
  intros Ha Hc Hcol Hlen Hm Hn.
  eapply lookup_arrives; [exact Ha|].
  erewrite lookup_from_goto; [reflexivity | exact Hc |].
  eapply walk_body_miss_inner; eauto.
Qed.

(** C4: when the last component is missing and the link of the new node
    fails, a node that was created is destroyed before the error of the
    link is sent; a node that was got by its index is not destroyed. *)
Theorem failed_link_destroys_created_node
  request s par cur next s1 tr component s2 trl fn s3 rc s4 :
  arrives request s par cur next s1 tr ->
  misses_last ops (req_last request) cur next s1 component s2 trl ->
  is_directory ops cur s2 = true ->
  link ops cur (Some fn) component s3 = (rc, s4) ->
  rc <> EOK ->
  (has_flag (req_lflag request) L_CREATE = true ->
   create ops (req_dev request) (req_lflag request) s2 = (Some fn, s3) ->
   forall rd s5,
     destroy ops (Some fn) s4 = (rd, s5) ->
     exists N, forall fuel, (N <= fuel)%nat ->
       lookup fuel request s
       = Done tt (cleanup_state ops (mk_locals par cur None) s5)
           (tr ++ trl
               ++ [EvCreate (req_dev request) (req_lflag request) (Some fn);
                   EvLink cur (Some fn) component rc;
                   EvDestroy (Some fn) rd;
                   EvAnswer0 rid rc]
               ++ cleanup_trace (mk_locals par cur None))) /\
  (has_flag (req_lflag request) L_CREATE = false ->
   has_flag (req_lflag request) L_LINK = true ->
   node_get ops (req_dev request) (req_index request) s2 = (Some fn, s3) ->
   exists N, forall fuel, (N <= fuel)%nat ->
     lookup fuel request s
     = Done tt (cleanup_state ops (mk_locals par cur None) s4)
         (tr ++ trl
             ++ [EvNodeGet (req_dev request) (req_index request) (Some fn);
                 EvLink cur (Some fn) component rc;
                 EvAnswer0 rid rc]
             ++ cleanup_trace (mk_locals par cur None))).
Proof.
  intros Ha Hm Hd Hl Hrc. split.
  - intros Hf Hc rd s5 Hdes.
    edestruct lookup_from_miss as [fuel Hfrom]; [exact Hm | | exact Hd | |].
    + rewrite has_flag_lor, Hf. reflexivity.
    + eapply create_and_link_undo; eauto.
    + eapply lookup_arrives; [exact Ha | exact Hfrom].
  - intros Hf Hlk Hg.
    edestruct lookup_from_miss as [fuel Hfrom]; [exact Hm | | exact Hd | |].
    + rewrite has_flag_lor, Hlk. apply orb_true_r.
    + eapply create_and_link_keep; eauto.
    + eapply lookup_arrives; [exact Ha | exact Hfrom].
Qed.

(** C10: with both [L_CREATE] and [L_LINK] and the last component
    missing, the new node comes from [create], and [node_get] is not
    called at all. *)
Theorem create_takes_precedence_over_link
  request s par cur next s1 tr component s2 trl fn s3 :
  arrives request s par cur next s1 tr ->
  misses_last ops (req_last request) cur next s1 component s2 trl ->
  is_directory ops cur s2 = true ->
  has_flag (req_lflag request) L_CREATE = true ->
  has_flag (req_lflag request) L_LINK = true ->
  create ops (req_dev request) (req_lflag request) s2 = (fn, s3) ->
  exists s' rest N,
    forallb (fun e => negb (is_node_get e))
      (tr ++ trl
          ++ EvCreate (req_dev request) (req_lflag request) fn :: rest)
    = true /\
    forall fuel, (N <= fuel)%nat ->
      lookup fuel request s
      = Done tt s'
          (tr ++ trl
              ++ EvCreate (req_dev request) (req_lflag request) fn :: rest).
Proof.
  intros Ha Hm Hd Hf Hlk Hc.
  destruct (create_and_link_creates (req_dev request) (req_lflag request)
              (req_index request) cur component s2 fn s3 Hf Hc)
    as (s4 & rest & Hnew & Hrest).
  edestruct lookup_from_miss as [fuel Hfrom];
    [exact Hm | | exact Hd | exact Hnew |].
  { rewrite has_flag_lor, Hf. reflexivity. }
  destruct (lookup_arrives _ _ _ _ _ _ _ _ _ _ _ _ _ Ha Hfrom) as [N HN].
  exists (cleanup_state ops (mk_locals par cur None) s4),
    (rest ++ cleanup_trace (mk_locals par cur None)), N.
  split.
  - destruct Ha as (root & s0 & tr0 & _ & Hdesc & ->).
    apply descends_trace in Hdesc.
    simpl. rewrite !forallb_app. simpl. rewrite forallb_app.
    rewrite Hdesc, Hrest. simpl.
    assert (Hl : forallb (fun e => negb (is_node_get e)) trl = true)
      by (destruct Hm; reflexivity).
    rewrite Hl. simpl.
    unfold cleanup_trace. rewrite forallb_forall. intros e He.
    apply in_map_iff in He. destruct He as (n & <- & _). reflexivity.
  - intros fuel0 Hle. rewrite (HN _ Hle). reflexivity.
Qed.

End Miss.

(** ** Collecting a component *)

Lemma to_unsigned_small z : 0 <= z < 2 ^ 32 -> to_unsigned z = z.
Proof. intros H. unfold to_unsigned. apply Z.mod_small. exact H. Qed.



Section Collect.
Context {K : vfs_constants} {S : Type}.
Variable ops : libfs_ops S.
Variable last : Z.
Hypothesis last_small : last + 2 < 2 ^ 32.

Local Abbreviation get := (plb_get_char ops).







End Collect.

Section NameTooLong.
Context {K : vfs_constants} {S : Type}.
Variable ops : libfs_ops S.
Variables fs_handle rid : Z.

Local Abbreviation lookup := (libfs_lookup ops fs_handle rid).
Local Abbreviation arrives := (walks_to ops fs_handle rid).


End NameTooLong.

(** ** The balance of node references *)

Lemma acquired_app t1 t2 : acquired (t1 ++ t2) = acquired t1 ++ acquired t2.
Proof.
  induction t1 as [|e t1 IH]; simpl; [reflexivity|].
  destruct e as [? [?|]|? ? [?|]| | | | | | | |]; simpl; rewrite ?IH;
    reflexivity.
Qed.

Lemma released_app t1 t2 : released (t1 ++ t2) = released t1 ++ released t2.
Proof.
  induction t1 as [|e t1 IH]; simpl; [reflexivity|].
  destruct e as [| | | | | | |[?|]| |]; simpl; rewrite ?IH; reflexivity.
Qed.

Lemma linked_app {K : vfs_constants} t1 t2 :
  linked (t1 ++ t2) = linked t1 ++ linked t2.
Proof.
  induction t1 as [|e t1 IH]; simpl; [reflexivity|].
  destruct e as [| | | |? [?|] ? rc| | | | |]; simpl; rewrite ?IH;
    try reflexivity.
  destruct (rc =? EOK); simpl; rewrite ?IH; reflexivity.
Qed.

Lemma owed_app {K : vfs_constants} n t1 t2 :
  owed n (t1 ++ t2) = owed n t1 + owed n t2.
Proof.
  unfold owed.
  rewrite acquired_app, released_app, linked_app, !count_occ_app.
  unfold fs_node_t. lia.
Qed.

Lemma owed_nil {K : vfs_constants} n : owed n [] = 0.
Proof. reflexivity. Qed.

Lemma owed_cons {K : vfs_constants} n e t :
  owed n (e :: t) = owed n [e] + owed n t.
Proof. apply (owed_app n [e] t). Qed.

Section Balance.
Context {K : vfs_constants} {S : Type}.
Variable ops : libfs_ops S.
Variables fs_handle rid : Z.
Variables last dev_handle lflag index : Z.

Local Abbreviation body :=
  (walk_body ops fs_handle rid last dev_handle lflag index).
Local Abbreviation walk :=
  (lookup_walk ops fs_handle rid last dev_handle lflag index).
Local Abbreviation after :=
  (after_walk ops fs_handle rid last dev_handle lflag index).
Local Abbreviation from :=
  (lookup_from ops fs_handle rid last dev_handle lflag index).
Local Abbreviation new_link :=
  (create_and_link ops fs_handle rid dev_handle lflag index).

(** The block that creates and links leaves no reference behind in the
    locals of the function. *)
Lemma create_and_link_balance cur component s s1 tr n :
  new_link cur component s = Done tt s1 tr -> owed n tr = 0.
Proof.
  unfold create_and_link. run.
  destruct (c_true (Z.land lflag L_CREATE)).
  - destruct (create ops dev_handle lflag s) as [[fn|] s0]; simpl.
    + destruct (link ops cur (Some fn) component s0) as [rc s2]; simpl.
      destruct (rc =? EOK) eqn:E; simpl.
      * intros H; inversion H; subst. unfold owed. simpl. rewrite E. balance.
      * destruct (destroy ops (Some fn) s2) as [rd s3]; simpl.
        intros H; inversion H; subst. unfold owed. simpl. rewrite E. balance.
    + intros H; inversion H; subst. balance.
  - destruct (node_get ops dev_handle index s) as [[fn|] s0]; simpl.
    + destruct (link ops cur (Some fn) component s0) as [rc s2]; simpl.
      destruct (rc =? EOK) eqn:E; simpl.
      * intros H; inversion H; subst. unfold owed. simpl. rewrite E. balance.
      * intros H; inversion H; subst. unfold owed. simpl. rewrite E. balance.
    + intros H; inversion H; subst. balance.
Qed.

Lemma holds_drop_null n par cur :
  holds n [par; cur; None] = holds n [par; cur].
Proof. destruct par, cur; reflexivity. Qed.

(** One turn of the walk loop keeps the balance. *)
Lemma walk_body_balance fuel par cur next s b s1 tr n :
  body fuel par cur next s = Done b s1 tr ->
  owed n tr + holds n [par; cur] = holds n (body_pointers b).
Proof.
  unfold walk_body.
  destruct (collect_component ops last fuel next 0 EmptyString)
    as [[|nx len component]|]; run; try discriminate.
  { intros H; inversion H; subst. simpl. rewrite holds_drop_null. balance. }
  destruct (c_true len); simpl; try discriminate.
  destruct (match_ ops cur (c_str component) s) as [[t|] s0]; simpl.
  - destruct par as [p|]; simpl; intros H; inversion H; subst; simpl;
      destruct cur; balance.
  - destruct (to_unsigned (nx + 1) <=? last); simpl.
    { intros H; inversion H; subst. simpl. rewrite holds_drop_null.
      balance. }
    unfold miss_last.
    destruct (c_true (Z.land lflag (Z.lor L_CREATE L_LINK))); run.
    + destruct (negb (is_directory ops cur s0)); simpl.
      { intros H; inversion H; subst. simpl. rewrite holds_drop_null.
        balance. }
      destruct (new_link cur (c_str component) s0) as [[] s2 t2| |] eqn:E;
        simpl; try discriminate.
      intros H; inversion H; subst. simpl. rewrite holds_drop_null.
      rewrite !app_nil_r.
      rewrite owed_cons, (create_and_link_balance _ _ _ _ _ n E). balance.
    + destruct (c_true (Z.land lflag L_PARENT)); simpl;
        intros H; inversion H; subst; simpl; rewrite holds_drop_null;
        balance.
Qed.

(** The walk loop keeps the balance. *)
Lemma lookup_walk_balance fuel :
  forall par cur next s w s1 tr n,
    walk fuel par cur next s = Done w s1 tr ->
    owed n tr + holds n [par; cur] = holds n (exit_pointers w).
Proof.
  induction fuel as [|fuel IH]; intros par cur next s w s1 tr n H.
  - discriminate.
  - simpl in H. unfold bind, gets in H. simpl in H.
    destruct (negb (walk_cond ops last cur next s)).
    { inversion H; subst. simpl. balance. }
    rewrite prepend_nil in H.
    destruct (body fuel par cur next s) as [b s0 t0| |] eqn:E;
      simpl in H; try discriminate.
    apply (walk_body_balance _ _ _ _ _ _ _ _ n) in E.
    destruct b as [l|p c nx]; simpl in H.
    + inversion H; subst. rewrite app_nil_r. exact E.
    + apply prepend_done in H. destruct H as (t' & H & ->).
      apply (IH _ _ _ _ _ _ _ n) in H.
      rewrite owed_app. simpl in E. lia.
Qed.

Lemma handle_hit_flags_balance par cur s l s1 tr n :
  handle_hit_flags ops fs_handle rid dev_handle lflag par cur s
    = Done l s1 tr ->
  owed n tr + holds n [par; cur] = holds n [l_par l; l_cur l; l_tmp l].
Proof.
  unfold handle_hit_flags. run.
  destruct (c_true (Z.land lflag L_UNLINK)).
  { destruct (unlink ops par cur s) as [res s0]; simpl.
    intros H; inversion H; subst. simpl. rewrite holds_drop_null. balance. }
  destruct ((_ =? _) || _); simpl.
  { intros H; inversion H; subst. simpl. rewrite holds_drop_null. balance. }
  destruct (c_true (Z.land lflag L_FILE)); simpl;
    [destruct (is_directory ops cur s); simpl|];
    try (intros H; inversion H; subst; simpl; rewrite holds_drop_null;
         balance);
    (destruct (c_true (Z.land lflag L_DIRECTORY)); simpl;
     [destruct (is_file ops cur s); simpl|]);
    intros H; inversion H; subst; simpl; rewrite holds_drop_null; balance.
Qed.

(** What follows the walk loop keeps the balance. *)
Lemma after_walk_balance fuel par cur next s l s1 tr n :
  after fuel par cur next s = Done l s1 tr ->
  owed n tr + holds n [par; cur] = holds n [l_par l; l_cur l; l_tmp l].
Proof.
  unfold after_walk, bind, gets. cbn [and_then].
  rewrite prepend_nil.
  destruct ((next <=? last) && negb (has_children ops cur s)).
  - unfold handle_excess.
    destruct (c_true (Z.land lflag (Z.lor L_CREATE L_LINK))); run.
    + destruct (negb (is_directory ops cur s)); simpl.
      { intros H; inversion H; subst. simpl. rewrite holds_drop_null.
        balance. }
      destruct (collect_excess ops last fuel next 0 EmptyString)
        as [[| |len component]|]; simpl; try discriminate;
        try (intros H; inversion H; subst; simpl; rewrite holds_drop_null;
             balance).
      destruct (c_true len); simpl; try discriminate.
      destruct (new_link cur (c_str component) s) as [[] s2 t2| |] eqn:E;
        simpl; try discriminate.
      intros H; inversion H; subst. simpl. rewrite holds_drop_null.
      rewrite !app_nil_r.
      rewrite (create_and_link_balance _ _ _ _ _ n E). balance.
    + intros H; inversion H; subst. simpl. rewrite holds_drop_null.
      balance.
  - unfold handle_hit.
    destruct (c_true (Z.land lflag L_PARENT)).
    + run. destruct par as [p|]; simpl.
      * destruct (handle_hit_flags ops fs_handle rid dev_handle lflag None
                    (Some p) (node_put ops cur s)) as [l0 s0 t0| |] eqn:E;
          simpl; try discriminate.
        intros H; inversion H; subst.
        apply (handle_hit_flags_balance _ _ _ _ _ _ n) in E.
        rewrite owed_cons. rewrite <- E. destruct cur; balance.
      * intros H; inversion H; subst. destruct cur; balance.
    + apply handle_hit_flags_balance.
Qed.

Lemma cleanup_trace_owed l n :
  owed n (cleanup_trace l) + holds n [l_par l; l_cur l; l_tmp l] = 0.
Proof.
  destruct l as [[p|] [c|] [t|]]; unfold cleanup_trace; simpl; balance.
Qed.

(** From the head of the walk loop to the return, the function gives
    back what it holds and what it takes. *)
Lemma lookup_from_balance fuel par cur next s s1 tr n :
  from fuel par cur next s = Done tt s1 tr ->
  owed n tr + holds n [par; cur] = 0.
Proof.
  unfold lookup_from. intros H.
  apply bind_done in H. destruct H as (w & s2 & t1 & t2 & Hw & H & ->).
  apply bind_done in H. destruct H as (l & s3 & t3 & t4 & Hl & H & ->).
  rewrite cleanup_run in H. inversion H; subst.
  apply (lookup_walk_balance _ _ _ _ _ _ _ _ n) in Hw.
  rewrite !owed_app.
  pose proof (cleanup_trace_owed l n) as Hc.
  destruct w as [l'|p c nx]; simpl in Hw.
  - unfold ret in Hl. inversion Hl; subst. rewrite owed_nil. lia.
  - apply (after_walk_balance _ _ _ _ _ _ _ _ n) in Hl. lia.
Qed.

End Balance.

Section References.
Context {K : vfs_constants} {S : Type}.
Variable ops : libfs_ops S.
Variables fs_handle rid : Z.

Local Abbreviation lookup := (libfs_lookup ops fs_handle rid).

(** Every run that returns has given back each reference it took. *)
Lemma libfs_lookup_balance fuel request s s1 tr :
  lookup fuel request s = Done tt s1 tr ->
  Permutation (released tr) (acquired tr ++ linked tr).
Proof.
  intros H. unfold libfs_lookup in H.
  apply bind_done in H. destruct H as (root & s2 & t1 & t2 & Hr & H & ->).
  unfold call in Hr.
  destruct (root_get ops (IPC_GET_ARG3 request) s) as [r s0].
  inversion Hr; subst.
  apply (Permutation_count_occ Z.eq_dec). intros n.
  apply (lookup_from_balance _ _ _ _ _ _ _ _ _ _ _ _ _ _ n) in H.
  rewrite count_occ_app.
  revert H. cbn [app]. destruct root; balance.
Qed.

End References.

(** ** Termination *)

Section Termination.
Context {K : vfs_constants} {S : Type}.
Variable ops : libfs_ops S.
Variables fs_handle rid : Z.
Variables last dev_handle lflag index : Z.
Hypothesis last_small : last + 2 < 2 ^ 32.

Local Abbreviation get := (plb_get_char ops).
Local Abbreviation body :=
  (walk_body ops fs_handle rid last dev_handle lflag index).
Local Abbreviation walk :=
  (lookup_walk ops fs_handle rid last dev_handle lflag index).
Local Abbreviation after :=
  (after_walk ops fs_handle rid last dev_handle lflag index).
Local Abbreviation from :=
  (lookup_from ops fs_handle rid last dev_handle lflag index).
Local Abbreviation new_link :=
  (create_and_link ops fs_handle rid dev_handle lflag index).

(** The collection of a component ends, at the next slash or at the end
    of the path. *)
Lemma collect_component_total fuel :
  forall next len component,
    0 <= next ->
    (Z.to_nat (last + 1 - next) < fuel)%nat ->
    exists r,
      collect_component ops last fuel next len component = Some r /\
      forall next1 len1 component1,
        r = Collected next1 len1 component1 ->
        next <= next1 <= Z.max next (last + 1) /\
        len1 = len + (next1 - next) /\
        (next1 <= last -> get next1 = slash) /\
        (next <= last -> get next <> slash -> next < next1).
Proof.
  induction fuel as [|fuel IH]; intros next len component Hn Hf; [lia|].
  simpl.
  destruct (Z.leb_spec next last) as [Hle|Hgt]; simpl.
  - destruct (Ascii.eqb_spec (get next) slash) as [Hs|Hs]; simpl.
    + eexists. split; [reflexivity|].
      intros ? ? ? E. inversion E; subst. repeat split; try lia; tauto.
    + destruct (len + 1 =? NAME_MAX).
      * eexists. split; [reflexivity|]. discriminate.
      * rewrite to_unsigned_small by lia.
        destruct (IH (next + 1) (len + 1)
                    (push_char component (get next))) as (r & Hr & Hp);
          try lia.
        exists r. split; [exact Hr|].
        intros n1 l1 c1 E. destruct (Hp _ _ _ E) as (H1 & H2 & H3 & H4).
        repeat split; try lia. exact H3.
  - eexists. split; [reflexivity|].
    intros ? ? ? E. inversion E; subst. repeat split; try lia.
Qed.

Lemma collect_excess_total fuel :
  forall next len component,
    0 <= next ->
    (Z.to_nat (last + 1 - next) < fuel)%nat ->
    exists r,
      collect_excess ops last fuel next len component = Some r /\
      forall len1 component1,
        r = XCollected len1 component1 ->
        len <= len1 /\ (next <= last -> len < len1).
Proof.
  induction fuel as [|fuel IH]; intros next len component Hn Hf; [lia|].
  simpl.
  destruct (Z.leb_spec next last) as [Hle|Hgt].
  - destruct (Ascii.eqb (get next) slash).
    { eexists. split; [reflexivity|]. discriminate. }
    destruct (len + 1 =? NAME_MAX).
    { eexists. split; [reflexivity|]. discriminate. }
    rewrite to_unsigned_small by lia.
    destruct (IH (next + 1) (len + 1)
                (push_char component (get next))) as (r & Hr & Hp);
      try lia.
    exists r. split; [exact Hr|].
    intros l1 c1 E. destruct (Hp _ _ E). lia.
  - eexists. split; [reflexivity|].
    intros ? ? E. inversion E; subst. lia.
Qed.

(** The block that creates and links always ends. *)
Lemma create_and_link_total cur component s :
  exists s1 tr, new_link cur component s = Done tt s1 tr.
Proof.
  unfold create_and_link. run.
  destruct (c_true (Z.land lflag L_CREATE)).
  - destruct (create ops dev_handle lflag s) as [[fn|] s0]; simpl; eauto.
    destruct (link ops cur (Some fn) component s0) as [rc s2]; simpl.
    destruct (negb (rc =? EOK)); simpl; eauto.
    destruct (destroy ops (Some fn) s2) as [rd s3]; simpl. eauto.
  - destruct (node_get ops dev_handle index s) as [[fn|] s0]; simpl; eauto.
    destruct (link ops cur (Some fn) component s0) as [rc s2]; simpl.
    destruct (negb (rc =? EOK)); simpl; eauto.
Qed.

(** One turn of the walk loop ends, and moves on in the path. *)
Lemma walk_body_total fuel par cur next s :
  0 <= next <= last ->
  get next <> slash ->
  canonical ops last next ->
  (Z.to_nat (last + 1 - next) < fuel)%nat ->
  exists b s1 tr,
    body fuel par cur next s = Done b s1 tr /\
    forall par1 cur1 next1,
      b = BodyNext par1 cur1 next1 ->
      next < next1 <= last + 2 /\
      (next1 <= last -> get next1 <> slash).
Proof.
  intros Hn Hs Hcan Hf. unfold walk_body.
  destruct (collect_component_total fuel next 0 EmptyString) as (r & Hr & Hp);
    try lia.
  rewrite Hr. destruct r as [|next1 len component].
  { run. do 3 eexists. split; [reflexivity|]. discriminate. }
  destruct (Hp _ _ _ eq_refl) as (H1 & H2 & H3 & H4).
  assert (Hlt : next < next1) by (apply H4; [lia | exact Hs]).
  assert (Hlen : c_true len = true) by (apply c_true_iff; lia).
  run. rewrite Hlen. simpl.
  rewrite to_unsigned_small by lia.
  destruct (match_ ops cur (c_str component) s) as [[t|] s0]; simpl.
  - destruct par as [p|]; simpl; do 3 eexists;
      (split; [reflexivity|]);
      intros ? ? ? E; inversion E; subst;
      (split; [lia|]); intros Hle; apply Hcan; try lia; apply H3; lia.
  - destruct (next1 + 1 <=? last); simpl.
    { do 3 eexists. split; [reflexivity|]. discriminate. }
    unfold miss_last.
    destruct (c_true (Z.land lflag (Z.lor L_CREATE L_LINK))); run.
    + destruct (negb (is_directory ops cur s0)); simpl.
      { do 3 eexists. split; [reflexivity|]. discriminate. }
      destruct (create_and_link_total cur (c_str component) s0)
        as (s2 & t2 & E).
      rewrite E. simpl. do 3 eexists. split; [reflexivity|]. discriminate.
    + destruct (c_true (Z.land lflag L_PARENT)); simpl;
        do 3 eexists; (split; [reflexivity|]); discriminate.
Qed.

Lemma canonical_later next next1 :
  next <= next1 -> canonical ops last next -> canonical ops last next1.
Proof.
  intros Hle Hc p Hp. apply Hc. lia.
Qed.

(** The walk loop ends. *)
Lemma lookup_walk_total fuel :
  forall par cur next s,
    0 <= next ->
    (next <= last -> get next <> slash) ->
    canonical ops last next ->
    (Z.to_nat (last + 2 - next) < fuel)%nat ->
    exists w s1 tr,
      walk fuel par cur next s = Done w s1 tr /\
      forall par1 cur1 next1,
        w = Fallthrough par1 cur1 next1 -> next <= next1.
Proof.
  induction fuel as [|fuel IH]; intros par cur next s Hn Hs Hcan Hf; [lia|].
  simpl. unfold bind, gets. cbn [and_then]. rewrite prepend_nil.
  unfold walk_cond at 1.
  destruct (Z.leb_spec next last) as [Hle|Hgt]; cbn [andb negb].
  2:{ run. do 3 eexists. split; [reflexivity|].
      intros ? ? ? E. inversion E; subst. lia. }
  destruct (has_children ops cur s); cbn [negb].
  2:{ run. do 3 eexists. split; [reflexivity|].
      intros ? ? ? E. inversion E; subst. lia. }
  destruct (walk_body_total fuel par cur next s) as (b & s1 & tr & Hb & Hp);
    auto; try lia.
  rewrite Hb. cbn [and_then].
  destruct b as [l|p c nx].
  - run. do 3 eexists. split; [reflexivity|]. discriminate.
  - destruct (Hp _ _ _ eq_refl) as (H1 & H2).
    destruct (IH p c nx s1) as (w & s2 & t2 & Hw & Hq); try lia; auto.
    { eapply canonical_later; [|exact Hcan]. lia. }
    rewrite Hw. simpl. do 3 eexists. split; [reflexivity|].
    intros ? ? ? E. specialize (Hq _ _ _ E). lia.
Qed.

Lemma handle_hit_flags_total par cur s :
  exists l s1 tr,
    handle_hit_flags ops fs_handle rid dev_handle lflag par cur s
    = Done l s1 tr.
Proof.
  unfold handle_hit_flags. run.
  destruct (c_true (Z.land lflag L_UNLINK)).
  { destruct (unlink ops par cur s) as [res s0]; simpl. eauto. }
  destruct ((_ =? _) || _); simpl; eauto.
  destruct (c_true (Z.land lflag L_FILE)); simpl;
    [destruct (is_directory ops cur s); simpl; eauto|];
    (destruct (c_true (Z.land lflag L_DIRECTORY)); simpl;
     [destruct (is_file ops cur s); simpl; eauto|]; eauto).
Qed.

(** What follows the walk loop ends. *)
Lemma after_walk_total fuel par cur next s :
  0 <= next ->
  (Z.to_nat (last + 1 - next) < fuel)%nat ->
  exists l s1 tr, after fuel par cur next s = Done l s1 tr.
Proof.
  intros Hn Hf.
  unfold after_walk, bind, gets. cbn [and_then]. rewrite prepend_nil.
  destruct (Z.leb_spec next last) as [Hle|Hgt]; cbn [andb].
  1: destruct (has_children ops cur s); cbn [negb].
  2:{ unfold handle_excess.
      destruct (c_true (Z.land lflag (Z.lor L_CREATE L_LINK))); run; eauto.
      destruct (negb (is_directory ops cur s)); simpl; eauto.
      destruct (collect_excess_total fuel next 0 EmptyString)
        as (r & Hr & Hp); try lia.
      rewrite Hr. destruct r as [| |len component]; simpl; eauto.
      destruct (Hp _ _ eq_refl) as [_ Hlen].
      assert (E : c_true len = true) by (apply c_true_iff; lia).
      rewrite E. simpl.
      destruct (create_and_link_total cur (c_str component) s)
        as (s2 & t2 & E2).
      rewrite E2. simpl. eauto. }
  all: unfold handle_hit;
    (destruct (c_true (Z.land lflag L_PARENT));
     [| apply handle_hit_flags_total]);
    run; (destruct par as [p|]; simpl; eauto);
    destruct (handle_hit_flags_total None (Some p) (node_put ops cur s))
      as (l & s1 & tr & E);
    rewrite E; simpl; eauto.
Qed.

(** From the head of the walk loop on, the function returns. *)
Lemma lookup_from_total fuel par cur next s :
  0 <= next ->
  (next <= last -> get next <> slash) ->
  canonical ops last next ->
  (Z.to_nat (last + 2 - next) < fuel)%nat ->
  exists s1 tr, from fuel par cur next s = Done tt s1 tr.
Proof.
  intros Hn Hs Hcan Hf. unfold lookup_from, bind.
  destruct (lookup_walk_total fuel par cur next s) as (w & s1 & t1 & Hw & Hp);
    auto.
  rewrite Hw. cbn [and_then].
  destruct w as [l|p c nx].
  - run. rewrite cleanup_run. simpl. eauto.
  - specialize (Hp _ _ _ eq_refl).
    destruct (after_walk_total fuel p c nx s1) as (l & s2 & t2 & Ha);
      try lia.
    rewrite Ha. cbn [and_then prepend]. rewrite cleanup_run. simpl. eauto.
Qed.

End Termination.

(** ** No [node_put] of a NULL pointer *)

Section NullPut.
Context {K : vfs_constants} {S : Type}.
Variable ops : libfs_ops S.
Variables fs_handle rid : Z.
Variables last dev_handle lflag index : Z.

Local Abbreviation body :=
  (walk_body ops fs_handle rid last dev_handle lflag index).
Local Abbreviation walk :=
  (lookup_walk ops fs_handle rid last dev_handle lflag index).
Local Abbreviation after :=
  (after_walk ops fs_handle rid last dev_handle lflag index).
Local Abbreviation from :=
  (lookup_from ops fs_handle rid last dev_handle lflag index).
Local Abbreviation new_link :=
  (create_and_link ops fs_handle rid dev_handle lflag index).
Local Abbreviation clean := (forallb (fun e => negb (is_null_put e))).

Lemma create_and_link_clean cur component s s1 tr :
  new_link cur component s = Done tt s1 tr -> clean tr = true.
Proof.
  unfold create_and_link. run.
  destruct (c_true (Z.land lflag L_CREATE)).
  - destruct (create ops dev_handle lflag s) as [[fn|] s0]; simpl.
    + destruct (link ops cur (Some fn) component s0) as [rc s2]; simpl.
      destruct (negb (rc =? EOK)); simpl.
      * destruct (destroy ops (Some fn) s2) as [rd s3]; simpl.
        intros H; inversion H; reflexivity.
      * intros H; inversion H; reflexivity.
    + intros H; inversion H; reflexivity.
  - destruct (node_get ops dev_handle index s) as [[fn|] s0]; simpl.
    + destruct (link ops cur (Some fn) component s0) as [rc s2]; simpl.
      destruct (negb (rc =? EOK)); simpl; intros H; inversion H; reflexivity.
    + intros H; inversion H; reflexivity.
Qed.

Lemma walk_body_clean fuel par cur next s b s1 tr :
  body fuel par cur next s = Done b s1 tr ->
  clean tr = true /\
  forall par1 cur1 next1, b = BodyNext par1 cur1 next1 -> cur1 <> None.
Proof.
  unfold walk_body.
  destruct (collect_component ops last fuel next 0 EmptyString)
    as [[|nx len component]|]; run; try discriminate.
  { intros H; inversion H; subst. split; [reflexivity | discriminate]. }
  destruct (c_true len); simpl; try discriminate.
  destruct (match_ ops cur (c_str component) s) as [[t|] s0]; simpl.
  - destruct par as [p|]; simpl; intros H; inversion H; subst;
      (split; [reflexivity|]); intros ? ? ? E; inversion E; discriminate.
  - destruct (to_unsigned (nx + 1) <=? last); simpl.
    { intros H; inversion H; subst. split; [reflexivity | discriminate]. }
    unfold miss_last.
    destruct (c_true (Z.land lflag (Z.lor L_CREATE L_LINK))); run.
    + destruct (negb (is_directory ops cur s0)); simpl.
      { intros H; inversion H; subst. split; [reflexivity | discriminate]. }
      destruct (new_link cur (c_str component) s0) as [[] s2 t2| |] eqn:E;
        simpl; try discriminate.
      intros H; inversion H; subst. split; [|discriminate].
      rewrite !app_nil_r. simpl. eapply create_and_link_clean; eauto.
    + destruct (c_true (Z.land lflag L_PARENT)); simpl;
        intros H; inversion H; subst; (split; [reflexivity | discriminate]).
Qed.

Lemma lookup_walk_clean fuel :
  forall par cur next s w s1 tr,
    cur <> None ->
    walk fuel par cur next s = Done w s1 tr ->
    clean tr = true /\
    forall par1 cur1 next1, w = Fallthrough par1 cur1 next1 -> cur1 <> None.
Proof.
  induction fuel as [|fuel IH]; intros par cur next s w s1 tr Hc H.
  - discriminate.
  - simpl in H. unfold bind, gets in H. simpl in H.
    destruct (negb (walk_cond ops last cur next s)).
    { inversion H; subst. split; [reflexivity|].
      intros ? ? ? E. inversion E; subst. exact Hc. }
    rewrite prepend_nil in H.
    destruct (body fuel par cur next s) as [b s0 t0| |] eqn:E;
      simpl in H; try discriminate.
    apply walk_body_clean in E. destruct E as [E1 E2].
    destruct b as [l|p c nx]; simpl in H.
    + inversion H; subst. rewrite app_nil_r. split; [exact E1|discriminate].
    + apply prepend_done in H. destruct H as (t' & H & ->).
      apply IH in H; [|eapply E2; reflexivity].
      destruct H as [H1 H2]. split; [|exact H2].
      rewrite forallb_app, E1, H1. reflexivity.
Qed.

Lemma handle_hit_flags_clean par cur s l s1 tr :
  handle_hit_flags ops fs_handle rid dev_handle lflag par cur s
    = Done l s1 tr ->
  clean tr = true.
Proof.
  unfold handle_hit_flags. run.
  destruct (c_true (Z.land lflag L_UNLINK)).
  { destruct (unlink ops par cur s) as [res s0]; simpl.
    intros H; inversion H; reflexivity. }
  destruct ((_ =? _) || _); simpl.
  { intros H; inversion H; reflexivity. }
  destruct (c_true (Z.land lflag L_FILE)); simpl;
    [destruct (is_directory ops cur s); simpl|];
    try (intros H; inversion H; reflexivity);
    (destruct (c_true (Z.land lflag L_DIRECTORY)); simpl;
     [destruct (is_file ops cur s); simpl|]);
    intros H; inversion H; reflexivity.
Qed.

Lemma after_walk_clean fuel par cur next s l s1 tr :
  cur <> None ->
  after fuel par cur next s = Done l s1 tr ->
  clean tr = true.
Proof.
  intros Hc.
  unfold after_walk, bind, gets. cbn [and_then].
  rewrite prepend_nil.
  destruct ((next <=? last) && negb (has_children ops cur s)).
  - unfold handle_excess.
    destruct (c_true (Z.land lflag (Z.lor L_CREATE L_LINK))); run.
    + destruct (negb (is_directory ops cur s)); simpl.
      { intros H; inversion H; reflexivity. }
      destruct (collect_excess ops last fuel next 0 EmptyString)
        as [[| |len component]|]; simpl; try discriminate;
        try (intros H; inversion H; reflexivity).
      destruct (c_true len); simpl; try discriminate.
      destruct (new_link cur (c_str component) s) as [[] s2 t2| |] eqn:E;
        simpl; try discriminate.
      intros H; inversion H; subst.
      rewrite !app_nil_r. eapply create_and_link_clean; eauto.
    + intros H; inversion H; reflexivity.
  - unfold handle_hit.
    destruct (c_true (Z.land lflag L_PARENT)).
    + run. destruct par as [p|]; simpl.
      * destruct (handle_hit_flags ops fs_handle rid dev_handle lflag None
                    (Some p) (node_put ops cur s)) as [l0 s0 t0| |] eqn:E;
          simpl; try discriminate.
        intros H; inversion H; subst.
        apply handle_hit_flags_clean in E.
        destruct cur; [|congruence]. simpl. exact E.
      * intros H; inversion H; subst. destruct cur; [reflexivity|congruence].
    + apply handle_hit_flags_clean.
Qed.

Lemma cleanup_trace_clean l : clean (cleanup_trace l) = true.
Proof. destruct l as [[p|] [c|] [t|]]; reflexivity. Qed.

Lemma lookup_from_clean fuel par cur next s s1 tr :
  cur <> None ->
  from fuel par cur next s = Done tt s1 tr ->
  clean tr = true.
Proof.
  unfold lookup_from. intros Hc H.
  apply bind_done in H. destruct H as (w & s2 & t1 & t2 & Hw & H & ->).
  apply bind_done in H. destruct H as (l & s3 & t3 & t4 & Hl & H & ->).
  rewrite cleanup_run in H. inversion H; subst.
  apply lookup_walk_clean in Hw; [|exact Hc]. destruct Hw as [H1 H2].
  rewrite !forallb_app, H1, cleanup_trace_clean, andb_true_r. simpl.
  destruct w as [l'|p c nx].
  - unfold ret in Hl. inversion Hl; reflexivity.
  - eapply after_walk_clean; [|exact Hl]. eapply H2; reflexivity.
Qed.

End NullPut.

Section Resources.
Context {K : vfs_constants} {S : Type}.
Variable ops : libfs_ops S.
Variables fs_handle rid : Z.

Local Abbreviation lookup := (libfs_lookup ops fs_handle rid).

Lemma to_unsigned_range z : 0 <= to_unsigned z < 2 ^ 32.
Proof. unfold to_unsigned. apply Z.mod_pos_bound. lia. Qed.

(** A well-formed request is answered: with enough fuel the function
    returns. *)
Lemma libfs_lookup_total request s fuel :
  well_formed ops request ->
  (lookup_fuel request <= fuel)%nat ->
  exists s1 tr, lookup fuel request s = Done tt s1 tr.
Proof.
  intros (Hle & Hlast & Hcan) Hf. unfold lookup_fuel in Hf.
  pose proof (to_unsigned_range (IPC_GET_ARG1 request)) as Hr.
  fold (req_next request) in Hr.
  unfold libfs_lookup, bind, call.
  destruct (root_get ops (IPC_GET_ARG3 request) s) as [root s0].
  cbn [and_then].
  fold (req_next request). fold (req_last request).
  destruct (lookup_from_total ops fs_handle rid (req_last request)
              (IPC_GET_ARG3 request) (to_int (IPC_GET_ARG4 request))
              (IPC_GET_ARG5 request) Hlast fuel None root
              (first_next ops (req_next request)) s0)
    as (s1 & tr & H).
  - unfold first_next. destruct (Ascii.eqb _ _); [|lia].
    rewrite to_unsigned_small; lia.
  - unfold first_next.
    destruct (Ascii.eqb_spec (plb_get_char ops (req_next request)) slash)
      as [E|E]; [|intros _; exact E].
    rewrite to_unsigned_small by lia.
    intros H. apply Hcan; [lia | exact E].
  - eapply canonical_later; [|exact Hcan].
    unfold first_next. destruct (Ascii.eqb _ _); [|lia].
    rewrite to_unsigned_small; lia.
  - unfold first_next. destruct (Ascii.eqb _ _);
      [rewrite to_unsigned_small by lia|]; lia.
  - rewrite H. simpl. eauto.
Qed.

(** A request whose offsets lie in the buffer and whose path is canonical
    is well-formed. *)
Lemma in_buffer_well_formed request :
  2 * PLB_SIZE + 2 <= 2 ^ 32 ->
  0 <= IPC_GET_ARG1 request < PLB_SIZE ->
  0 <= IPC_GET_ARG2 request < PLB_SIZE ->
  canonical ops (req_last request) (req_next request) ->
  well_formed ops request.
Proof.
  intros Hsize H1 H2 Hcan. unfold well_formed. split; [|split; [|exact Hcan]];
    unfold req_last, req_next, effective_last;
    rewrite (to_unsigned_small (IPC_GET_ARG1 request)),
      (to_unsigned_small (IPC_GET_ARG2 request)) by lia;
    (destruct (Z.ltb_spec (IPC_GET_ARG2 request) (IPC_GET_ARG1 request));
     [rewrite to_unsigned_small by lia|]; lia).
Qed.

(** C2: by the time the function returns, every node reference taken
    from [root_get] or [match] has been given back by exactly one
    [node_put]; the only other [node_put] is that of a node that was
    linked, and [node_put] is not called on NULL.  A well-formed request
    is served to the end, so that the function does return. *)
Theorem lookup_releases_references request s fuel :
  (forall s1 tr,
     lookup fuel request s = Done tt s1 tr ->
     Permutation (released tr) (acquired tr ++ linked tr) /\
     (fst (root_get ops (req_dev request) s) <> None ->
      forallb (fun e => negb (is_null_put e)) tr = true)) /\
  (well_formed ops request ->
   (lookup_fuel request <= fuel)%nat ->
   exists s1 tr, lookup fuel request s = Done tt s1 tr).
Proof.
  split; [|apply libfs_lookup_total].
  intros s1 tr H. split.
  - eapply libfs_lookup_balance; eauto.
  - intros Hroot. unfold libfs_lookup in H.
    apply bind_done in H. destruct H as (root & s2 & t1 & t2 & Hr & H & ->).
    unfold call in Hr. unfold req_dev in Hroot.
    destruct (root_get ops (IPC_GET_ARG3 request) s) as [r s0].
    inversion Hr; subst. simpl in Hroot.
    apply lookup_from_clean in H; [|exact Hroot].
    simpl. exact H.
Qed.

End Resources.

(** ** Moving the path in the buffer *)

Lemma map_outcome_prepend {S A B} (f : A -> B) tr (o : outcome S A) :
  map_outcome f (prepend tr o) = prepend tr (map_outcome f o).
Proof. destruct o; reflexivity. Qed.

Section Shift.
Context {K : vfs_constants} {S : Type}.
Variable ops : libfs_ops S.
Variables plb1 plb2 : list ascii.
Variables fs_handle rid : Z.
Variables last dev_handle lflag index : Z.
Variables d lo : Z.

Hypothesis last_small : last + 2 < 2 ^ 32.
Hypothesis shifted_small : last + d + 2 < 2 ^ 32.
Hypothesis same_path :
  forall p, lo <= p <= last -> plb_read plb1 (p + d) = plb_read plb2 p.

Local Abbreviation ops1 := (with_plb ops plb1).
Local Abbreviation ops2 := (with_plb ops plb2).

Lemma cond_shift next :
  (next + d <=? last + d) = (next <=? last).
Proof.
  destruct (Z.leb_spec next last), (Z.leb_spec (next + d) (last + d)); lia.
Qed.

Lemma collect_component_shift fuel :
  forall next len component,
    lo <= next -> 0 <= next -> 0 <= next + d ->
    match collect_component ops2 last fuel next len component with
    | Some (Collected next1 len1 component1) =>
      collect_component ops1 (last + d) fuel (next + d) len component
      = Some (Collected (next1 + d) len1 component1) /\
      next <= next1 <= Z.max next (last + 1)
    | r =>
      collect_component ops1 (last + d) fuel (next + d) len component = r
    end.
Proof.
  induction fuel as [|fuel IH]; intros next len component Hlo Hn Hd.
  - reflexivity.
  - cbn [collect_component]. rewrite cond_shift.
    cbn [plb_get_char with_plb].
    destruct (Z.leb_spec next last) as [Hle|Hgt]; cbn [andb].
    2:{ split; [reflexivity | lia]. }
    rewrite same_path by lia.
    destruct (negb (Ascii.eqb (plb_read plb2 next) slash)).
    2:{ split; [reflexivity | lia]. }
    destruct (len + 1 =? NAME_MAX); [reflexivity|].
    rewrite !to_unsigned_small by lia.
    specialize (IH (next + 1) (len + 1)
                  (push_char component (plb_read plb2 next))).
    replace (next + d + 1) with (next + 1 + d) by lia.
    destruct (collect_component ops2 last fuel (next + 1) (len + 1)
                (push_char component (plb_read plb2 next)))
      as [[|n1 l1 c1]|]; try (apply IH; lia).
    destruct IH as [IH1 IH2]; try lia. split; [exact IH1 | lia].
Qed.

Lemma collect_excess_shift fuel :
  forall next len component,
    lo <= next -> 0 <= next -> 0 <= next + d ->
    collect_excess ops1 (last + d) fuel (next + d) len component
    = collect_excess ops2 last fuel next len component.
Proof.
  induction fuel as [|fuel IH]; intros next len component Hlo Hn Hd.
  - reflexivity.
  - cbn [collect_excess]. rewrite cond_shift.
    cbn [plb_get_char with_plb].
    destruct (Z.leb_spec next last) as [Hle|Hgt]; [|reflexivity].
    rewrite same_path by lia.
    destruct (Ascii.eqb (plb_read plb2 next) slash); [reflexivity|].
    destruct (len + 1 =? NAME_MAX); [reflexivity|].
    rewrite !to_unsigned_small by lia.
    replace (next + d + 1) with (next + 1 + d) by lia.
    apply IH; lia.
Qed.

Local Abbreviation body1 :=
  (walk_body ops1 fs_handle rid (last + d) dev_handle lflag index).
Local Abbreviation body2 :=
  (walk_body ops2 fs_handle rid last dev_handle lflag index).
Local Abbreviation walk1 :=
  (lookup_walk ops1 fs_handle rid (last + d) dev_handle lflag index).
Local Abbreviation walk2 :=
  (lookup_walk ops2 fs_handle rid last dev_handle lflag index).
Local Abbreviation after1 :=
  (after_walk ops1 fs_handle rid (last + d) dev_handle lflag index).
Local Abbreviation after2 :=
  (after_walk ops2 fs_handle rid last dev_handle lflag index).
Local Abbreviation from1 :=
  (lookup_from ops1 fs_handle rid (last + d) dev_handle lflag index).
Local Abbreviation from2 :=
  (lookup_from ops2 fs_handle rid last dev_handle lflag index).

(** One turn of the walk loop does the same on the moved path. *)
Lemma walk_body_shift fuel par cur next s :
  lo <= next -> 0 <= next <= last -> 0 <= next + d ->
  body1 fuel par cur (next + d) s
  = map_outcome (shift_body d) (body2 fuel par cur next s) /\
  forall par1 cur1 next1 s1 tr,
    body2 fuel par cur next s = Done (BodyNext par1 cur1 next1) s1 tr ->
    next < next1 <= last + 2.
Proof.
  intros Hlo Hn Hd. unfold walk_body.
  pose proof (collect_component_shift fuel next 0 EmptyString Hlo
                ltac:(lia) Hd) as Hc.
  destruct (collect_component ops2 last fuel next 0 EmptyString)
    as [[|next1 len component]|].
  - rewrite Hc. split; [reflexivity | discriminate].
  - destruct Hc as [Hc Hb]. rewrite Hc.
    replace (next1 + d + 1) with (next1 + 1 + d) by lia.
    rewrite !to_unsigned_small by lia.
    run. destruct (c_true len); simpl; [|split; [reflexivity|discriminate]].
    destruct (match_ ops cur (c_str component) s) as [[t|] s0]; simpl.
    + destruct par as [p|]; simpl; (split; [reflexivity|]);
        intros ? ? ? ? ? E; inversion E; subst; lia.
    + rewrite cond_shift.
      destruct (next1 + 1 <=? last); simpl;
        [split; [reflexivity|discriminate]|].
      change (miss_last ops1 fs_handle rid dev_handle lflag index par cur
                None (c_str component) s0)
        with (miss_last ops2 fs_handle rid dev_handle lflag index par cur
                None (c_str component) s0).
      destruct (miss_last ops2 fs_handle rid dev_handle lflag index par cur
                  None (c_str component) s0);
        simpl; (split; [reflexivity|discriminate]).
  - rewrite Hc. split; [reflexivity | discriminate].
Qed.

(** The walk loop does the same on the moved path. *)
Lemma lookup_walk_shift fuel :
  forall par cur next s,
    lo <= next -> 0 <= next -> 0 <= next + d ->
    walk1 fuel par cur (next + d) s
    = map_outcome (shift_walk d) (walk2 fuel par cur next s) /\
    forall par1 cur1 next1 s1 tr,
      walk2 fuel par cur next s = Done (Fallthrough par1 cur1 next1) s1 tr ->
      next <= next1.
Proof.
  induction fuel as [|fuel IH]; intros par cur next s Hlo Hn Hd.
  - split; [reflexivity | discriminate].
  - cbn [lookup_walk]. unfold bind, gets. cbn [and_then].
    rewrite !prepend_nil. unfold walk_cond.
    rewrite cond_shift. cbn [has_children with_plb].
    destruct (Z.leb_spec next last) as [Hle|Hgt]; cbn [andb negb].
    2:{ split; [reflexivity|]. intros ? ? ? ? ? E. inversion E. lia. }
    destruct (has_children ops cur s); cbn [negb].
    2:{ split; [reflexivity|]. intros ? ? ? ? ? E. inversion E. lia. }
    destruct (walk_body_shift fuel par cur next s) as [Hb Hnext];
      try lia.
    rewrite Hb.
    destruct (body2 fuel par cur next s) as [b s1 t1| |];
      cbn [map_outcome and_then]; try (split; [reflexivity|discriminate]).
    destruct b as [l|p c nx]; cbn [shift_body].
    + split; [reflexivity | discriminate].
    + specialize (Hnext _ _ _ _ _ eq_refl).
      destruct (IH p c nx s1) as [IH1 IH2]; try lia.
      rewrite IH1, map_outcome_prepend. split; [reflexivity|].
      intros ? ? ? ? ? E. apply prepend_done in E.
      destruct E as (t' & E & _). apply IH2 in E. lia.
Qed.

(** What follows the walk loop does the same on the moved path. *)
Lemma after_walk_shift fuel par cur next s :
  lo <= next -> 0 <= next -> 0 <= next + d ->
  after1 fuel par cur (next + d) s = after2 fuel par cur next s.
Proof.
  intros Hlo Hn Hd.
  unfold after_walk, bind, gets. cbn [and_then].
  rewrite cond_shift. cbn [has_children with_plb].
  destruct ((next <=? last) && negb (has_children ops cur s));
    [|reflexivity].
  rewrite !prepend_nil.
  unfold handle_excess.
  destruct (c_true (Z.land lflag (Z.lor L_CREATE L_LINK))); [|reflexivity].
  unfold bind, gets. cbn [and_then is_directory with_plb].
  destruct (negb (is_directory ops cur s)); [reflexivity|].
  rewrite collect_excess_shift by lia. reflexivity.
Qed.

(** From the head of the walk loop on, the function does the same on the
    moved path. *)
Lemma lookup_from_shift fuel par cur next s :
  lo <= next -> 0 <= next -> 0 <= next + d ->
  from1 fuel par cur (next + d) s = from2 fuel par cur next s.
Proof.
  intros Hlo Hn Hd. unfold lookup_from, bind.
  destruct (lookup_walk_shift fuel par cur next s) as [Hw Hnext]; try lia.
  rewrite Hw.
  destruct (walk2 fuel par cur next s) as [w s1 t1| |];
    cbn [map_outcome and_then]; try reflexivity.
  destruct w as [l|p c nx]; cbn [shift_walk]; [reflexivity|].
  specialize (Hnext _ _ _ _ _ eq_refl).
  unfold bind. rewrite after_walk_shift by lia. reflexivity.
Qed.

End Shift.

Section Wraparound.
Context {K : vfs_constants} {S : Type}.
Variable ops : libfs_ops S.
Variables fs_handle rid : Z.

(** C7: for a request whose last offset is below its next offset the
    range is extended by [PLB_SIZE], and, the buffer being read modulo
    [PLB_SIZE], the lookup does what it does for a request with the same
    path laid out without wrapping: the same calls, the same answer, the
    same final state. *)
Theorem wraparound_is_transparent plb1 plb2 request1 request2 s fuel :
  2 * PLB_SIZE + 2 <= 2 ^ 32 ->
  0 <= IPC_GET_ARG2 request1 < IPC_GET_ARG1 request1 ->
  IPC_GET_ARG1 request1 < PLB_SIZE ->
  0 <= IPC_GET_ARG1 request2 <= IPC_GET_ARG2 request2 ->
  IPC_GET_ARG2 request2 < PLB_SIZE ->
  IPC_GET_ARG2 request2 - IPC_GET_ARG1 request2
  = IPC_GET_ARG2 request1 + PLB_SIZE - IPC_GET_ARG1 request1 ->
  IPC_GET_ARG3 request1 = IPC_GET_ARG3 request2 ->
  IPC_GET_ARG4 request1 = IPC_GET_ARG4 request2 ->
  IPC_GET_ARG5 request1 = IPC_GET_ARG5 request2 ->
  (forall i, 0 <= i <= IPC_GET_ARG2 request2 - IPC_GET_ARG1 request2 ->
     plb_read plb1 (IPC_GET_ARG1 request1 + i)
     = plb_read plb2 (IPC_GET_ARG1 request2 + i)) ->
  req_last request1 = IPC_GET_ARG2 request1 + PLB_SIZE /\
  libfs_lookup (with_plb ops plb1) fs_handle rid fuel request1 s
  = libfs_lookup (with_plb ops plb2) fs_handle rid fuel request2 s /\
  (well_formed (with_plb ops plb1) request1 ->
   (lookup_fuel request1 <= fuel)%nat ->
   exists s1 tr,
     libfs_lookup (with_plb ops plb1) fs_handle rid fuel request1 s
     = Done tt s1 tr /\
     libfs_lookup (with_plb ops plb2) fs_handle rid fuel request2 s
     = Done tt s1 tr).
Proof.
  intros Hsize H1 H1' H2 H2' Hlen E3 E4 E5 Hpath.
  assert (Hl1 : req_last request1 = IPC_GET_ARG2 request1 + PLB_SIZE).
  { unfold req_last, req_next, effective_last.
    rewrite (to_unsigned_small (IPC_GET_ARG1 request1)),
      (to_unsigned_small (IPC_GET_ARG2 request1)) by lia.
    destruct (Z.ltb_spec (IPC_GET_ARG2 request1) (IPC_GET_ARG1 request1));
      [|lia].
    rewrite to_unsigned_small by lia. reflexivity. }
  assert (Hl2 : req_last request2 = IPC_GET_ARG2 request2).
  { unfold req_last, req_next, effective_last.
    rewrite (to_unsigned_small (IPC_GET_ARG1 request2)),
      (to_unsigned_small (IPC_GET_ARG2 request2)) by lia.
    destruct (Z.ltb_spec (IPC_GET_ARG2 request2) (IPC_GET_ARG1 request2));
      [lia | reflexivity]. }
  assert (Heq : libfs_lookup (with_plb ops plb1) fs_handle rid fuel request1 s
                = libfs_lookup (with_plb ops plb2) fs_handle rid fuel
                    request2 s).
  { unfold libfs_lookup, bind, call.
    fold (req_next request1). fold (req_next request2).
    fold (req_last request1). fold (req_last request2).
    rewrite Hl1, Hl2. rewrite E3, E4, E5.
    cbn [root_get with_plb].
    destruct (root_get ops (IPC_GET_ARG3 request2) s) as [root s0].
    cbn [and_then]. f_equal.
    unfold req_next. rewrite !to_unsigned_small by lia.
    set (d := IPC_GET_ARG1 request1 - IPC_GET_ARG1 request2).
    assert (Hagree : forall p,
               IPC_GET_ARG1 request2 <= p <= IPC_GET_ARG2 request2 ->
               plb_read plb1 (p + d) = plb_read plb2 p).
    { intros p Hp. subst d.
      replace (p + (IPC_GET_ARG1 request1 - IPC_GET_ARG1 request2))
        with (IPC_GET_ARG1 request1 + (p - IPC_GET_ARG1 request2)) by lia.
      rewrite Hpath by lia. f_equal. lia. }
    replace (IPC_GET_ARG2 request1 + PLB_SIZE)
      with (IPC_GET_ARG2 request2 + d) by (subst d; lia).
    assert (Hfirst : first_next (with_plb ops plb1) (IPC_GET_ARG1 request1)
                     = first_next (with_plb ops plb2) (IPC_GET_ARG1 request2)
                       + d).
    { unfold first_next. cbn [plb_get_char with_plb].
      replace (IPC_GET_ARG1 request1) with (IPC_GET_ARG1 request2 + d)
        by (subst d; lia).
      rewrite Hagree by lia.
      destruct (Ascii.eqb _ _); [|reflexivity].
      rewrite !to_unsigned_small by (subst d; lia). lia. }
    rewrite Hfirst.
    apply lookup_from_shift with (lo := IPC_GET_ARG1 request2);
      try exact Hagree; subst d; try lia;
      unfold first_next; destruct (Ascii.eqb _ _);
      rewrite ?to_unsigned_small by lia; lia. }
  split; [exact Hl1|]. split; [exact Heq|].
  intros Hwf Hf.
  destruct (libfs_lookup_total (with_plb ops plb1) fs_handle rid request1 s
              fuel Hwf Hf) as (s1 & tr & H).
  exists s1, tr. split; [exact H|]. rewrite <- Heq. exact H.
Qed.

End Wraparound.

(** ** The number of answers *)

Lemma answers_app t1 t2 : answers (t1 ++ t2) = answers t1 ++ answers t2.
Proof. apply filter_app. Qed.

Section Answers.
Context {K : vfs_constants} {S : Type}.
Variable ops : libfs_ops S.
Variables fs_handle rid : Z.
Variables last dev_handle lflag index : Z.

Local Abbreviation body :=
  (walk_body ops fs_handle rid last dev_handle lflag index).
Local Abbreviation walk :=
  (lookup_walk ops fs_handle rid last dev_handle lflag index).
Local Abbreviation after :=
  (after_walk ops fs_handle rid last dev_handle lflag index).
Local Abbreviation from :=
  (lookup_from ops fs_handle rid last dev_handle lflag index).
Local Abbreviation new_link :=
  (create_and_link ops fs_handle rid dev_handle lflag index).

Lemma create_and_link_answers cur component s s1 tr :
  new_link cur component s = Done tt s1 tr ->
  List.length (answers tr) = 1%nat.
Proof.
  unfold create_and_link. run.
  destruct (c_true (Z.land lflag L_CREATE)).
  - destruct (create ops dev_handle lflag s) as [[fn|] s0]; simpl.
    + destruct (link ops cur (Some fn) component s0) as [rc s2]; simpl.
      destruct (negb (rc =? EOK)); simpl.
      * destruct (destroy ops (Some fn) s2) as [rd s3]; simpl.
        intros H; inversion H; reflexivity.
      * intros H; inversion H; reflexivity.
    + intros H; inversion H; reflexivity.
  - destruct (node_get ops dev_handle index s) as [[fn|] s0]; simpl.
    + destruct (link ops cur (Some fn) component s0) as [rc s2]; simpl.
      destruct (negb (rc =? EOK)); simpl; intros H; inversion H; reflexivity.
    + intros H; inversion H; reflexivity.
Qed.

Lemma walk_body_answers fuel par cur next s b s1 tr :
  body fuel par cur next s = Done b s1 tr ->
  match b with
  | BodyNext _ _ _ => List.length (answers tr) = 0%nat
  | BodyGoto _ =>
    List.length (answers tr) = 1%nat \/
    (List.length (answers tr) = 2%nat /\
     has_flag lflag L_PARENT = true /\
     has_flag lflag (Z.lor L_CREATE L_LINK) = false)
  end.
Proof.
  unfold walk_body.
  destruct (collect_component ops last fuel next 0 EmptyString)
    as [[|nx len component]|]; run; try discriminate.
  { intros H; inversion H; subst. left. reflexivity. }
  destruct (c_true len); simpl; try discriminate.
  destruct (match_ ops cur (c_str component) s) as [[t|] s0]; simpl.
  - destruct par as [p|]; simpl; intros H; inversion H; subst; reflexivity.
  - destruct (to_unsigned (nx + 1) <=? last); simpl.
    { intros H; inversion H; subst. left. reflexivity. }
    unfold miss_last.
    destruct (c_true (Z.land lflag (Z.lor L_CREATE L_LINK))) eqn:Ef; run.
    + destruct (negb (is_directory ops cur s0)); simpl.
      { intros H; inversion H; subst. left. reflexivity. }
      destruct (new_link cur (c_str component) s0) as [[] s2 t2| |] eqn:E;
        simpl; try discriminate.
      intros H; inversion H; subst. left.
      rewrite !app_nil_r. simpl. eapply create_and_link_answers; eauto.
    + destruct (c_true (Z.land lflag L_PARENT)) eqn:Ep; simpl;
        intros H; inversion H; subst.
      * right. split; [reflexivity|]. split; assumption.
      * left. reflexivity.
Qed.

Lemma lookup_walk_answers fuel :
  forall par cur next s w s1 tr,
    walk fuel par cur next s = Done w s1 tr ->
    match w with
    | Fallthrough _ _ _ => List.length (answers tr) = 0%nat
    | GotoOut _ =>
      List.length (answers tr) = 1%nat \/
      (List.length (answers tr) = 2%nat /\
     has_flag lflag L_PARENT = true /\
     has_flag lflag (Z.lor L_CREATE L_LINK) = false)
    end.
Proof.
  induction fuel as [|fuel IH]; intros par cur next s w s1 tr H.
  - discriminate.
  - simpl in H. unfold bind, gets in H. simpl in H.
    destruct (negb (walk_cond ops last cur next s)).
    { inversion H; subst. reflexivity. }
    rewrite prepend_nil in H.
    destruct (body fuel par cur next s) as [b s0 t0| |] eqn:E;
      simpl in H; try discriminate.
    apply walk_body_answers in E.
    destruct b as [l|p c nx]; simpl in H.
    + inversion H; subst. rewrite app_nil_r. exact E.
    + apply prepend_done in H. destruct H as (t' & H & ->).
      apply IH in H. rewrite answers_app, length_app, E. exact H.
Qed.

Lemma handle_hit_flags_answers par cur s l s1 tr :
  handle_hit_flags ops fs_handle rid dev_handle lflag par cur s
    = Done l s1 tr ->
  List.length (answers tr) = 1%nat.
Proof.
  unfold handle_hit_flags. run.
  destruct (c_true (Z.land lflag L_UNLINK)).
  { destruct (unlink ops par cur s) as [res s0]; simpl.
    intros H; inversion H; reflexivity. }
  destruct ((_ =? _) || _); simpl.
  { intros H; inversion H; reflexivity. }
  destruct (c_true (Z.land lflag L_FILE)); simpl;
    [destruct (is_directory ops cur s); simpl|];
    try (intros H; inversion H; reflexivity);
    (destruct (c_true (Z.land lflag L_DIRECTORY)); simpl;
     [destruct (is_file ops cur s); simpl|]);
    intros H; inversion H; reflexivity.
Qed.

Lemma after_walk_answers fuel par cur next s l s1 tr :
  after fuel par cur next s = Done l s1 tr ->
  List.length (answers tr) = 1%nat.
Proof.
  unfold after_walk, bind, gets. cbn [and_then].
  rewrite prepend_nil.
  destruct ((next <=? last) && negb (has_children ops cur s)).
  - unfold handle_excess.
    destruct (c_true (Z.land lflag (Z.lor L_CREATE L_LINK))); run.
    + destruct (negb (is_directory ops cur s)); simpl.
      { intros H; inversion H; reflexivity. }
      destruct (collect_excess ops last fuel next 0 EmptyString)
        as [[| |len component]|]; simpl; try discriminate;
        try (intros H; inversion H; reflexivity).
      destruct (c_true len); simpl; try discriminate.
      destruct (new_link cur (c_str component) s) as [[] s2 t2| |] eqn:E;
        simpl; try discriminate.
      intros H; inversion H; subst.
      rewrite !app_nil_r. eapply create_and_link_answers; eauto.
    + intros H; inversion H; reflexivity.
  - unfold handle_hit.
    destruct (c_true (Z.land lflag L_PARENT)).
    + run. destruct par as [p|]; simpl.
      * destruct (handle_hit_flags ops fs_handle rid dev_handle lflag None
                    (Some p) (node_put ops cur s)) as [l0 s0 t0| |] eqn:E;
          simpl; try discriminate.
        intros H; inversion H; subst.
        apply handle_hit_flags_answers in E. exact E.
      * intros H; inversion H; reflexivity.
    + apply handle_hit_flags_answers.
Qed.

Lemma cleanup_trace_answers l : answers (cleanup_trace l) = [].
Proof. destruct l as [[p|] [c|] [t|]]; reflexivity. Qed.

Lemma lookup_from_answers fuel par cur next s s1 tr :
  from fuel par cur next s = Done tt s1 tr ->
  List.length (answers tr) = 1%nat \/
  (List.length (answers tr) = 2%nat /\
     has_flag lflag L_PARENT = true /\
     has_flag lflag (Z.lor L_CREATE L_LINK) = false).
Proof.
  unfold lookup_from. intros H.
  apply bind_done in H. destruct H as (w & s2 & t1 & t2 & Hw & H & ->).
  apply bind_done in H. destruct H as (l & s3 & t3 & t4 & Hl & H & ->).
  rewrite cleanup_run in H. inversion H; subst.
  apply lookup_walk_answers in Hw.
  rewrite !answers_app, cleanup_trace_answers, app_nil_r, length_app.
  destruct w as [l'|p c nx].
  - unfold ret in Hl. inversion Hl; subst. simpl. rewrite Nat.add_0_r.
    exact Hw.
  - apply after_walk_answers in Hl. rewrite Hw, Hl. left. reflexivity.
Qed.

End Answers.

Section Replies.
Context {K : vfs_constants} {S : Type}.
Variable ops : libfs_ops S.
Variables fs_handle rid : Z.

(** X12: a run that returns has sent one answer, or else two: two only
    with [L_PARENT] and without [L_CREATE] and [L_LINK]. *)
Lemma libfs_lookup_answers fuel request s s1 tr :
  libfs_lookup ops fs_handle rid fuel request s = Done tt s1 tr ->
  List.length (answers tr) = 1%nat \/
  (List.length (answers tr) = 2%nat /\
   has_flag (req_lflag request) L_PARENT = true /\
   has_flag (req_lflag request) (Z.lor L_CREATE L_LINK) = false).
Proof.
  intros H. unfold libfs_lookup in H.
  apply bind_done in H. destruct H as (root & s2 & t1 & t2 & Hr & H & ->).
  unfold call in Hr.
  destruct (root_get ops (IPC_GET_ARG3 request) s) as [r s0].
  inversion Hr; subst.
  apply lookup_from_answers in H. exact H.
Qed.

(** The miss of the last component with [L_PARENT] alone: the answer with
    the triplet of [cur] is followed by a second answer, [ENOENT]. *)
Lemma parent_miss_two_answers
  request s par cur next s1 tr fuel next1 len component s2 :
  walks_to ops fs_handle rid request s par cur next s1 tr ->
  walk_cond ops (req_last request) cur next s1 = true ->
  collect_component ops (req_last request) fuel next 0 EmptyString
    = Some (Collected next1 len component) ->
  len <> 0 ->
  match_ ops cur (c_str component) s1 = (None, s2) ->
  req_last request < to_unsigned (next1 + 1) ->
  has_flag (req_lflag request) (Z.lor L_CREATE L_LINK) = false ->
  has_flag (req_lflag request) L_PARENT = true ->
  exists N, forall fuel', (N <= fuel')%nat ->
    libfs_lookup ops fs_handle rid fuel' request s
    = Done tt (cleanup_state ops (mk_locals par cur None) s2)
        (tr ++ [EvMatch cur (c_str component) None;
                EvAnswer5 rid EOK fs_handle (req_dev request)
                  (index_get ops cur s2) (size_get ops cur s2)
                  (lnkcnt_get ops cur s2);
                EvAnswer0 rid ENOENT]
            ++ cleanup_trace (mk_locals par cur None)).
Proof.
  intros Ha Hc Hcol Hlen Hm Hn Hf Hp.
  eapply lookup_arrives; [exact Ha|].
  erewrite lookup_from_goto; [reflexivity | exact Hc |].
  unfold walk_body. rewrite Hcol.
  apply c_true_iff in Hlen. unfold has_flag in Hf, Hp.
  run. rewrite Hlen. simpl. rewrite Hm. simpl.
  assert (E : (to_unsigned (next1 + 1) <=? req_last request) = false)
    by (apply Z.leb_gt; exact Hn).
  rewrite E. unfold miss_last. rewrite Hf, Hp. reflexivity.
Qed.

End Replies.

(** ** The registration *)

Section Registration.
Context {K : vfs_constants}.
Variables (vfs_phone : Z) (reg : fs_reg_t).

(** X13: the code [fs_register] returns is that of the first failing
    step among those it checks, and, when none of them fails, the status
    word of the answer converted to [int]; it is a value of the type
    [int] whenever the codes of the steps are. *)
Lemma fs_register_code env :
  fst (fst (fs_register vfs_phone reg env))
  = match first_checked_failure env with
    | Some rc => rc
    | None => to_int (answer_retval env)
    end /\
  (- 2 ^ 31 <= data_write_rc env < 2 ^ 31 ->
   - 2 ^ 31 <= share_in_rc env < 2 ^ 31 ->
   - 2 ^ 31 <= ENOMEM < 2 ^ 31 ->
   - 2 ^ 31 <= fst (fst (fs_register vfs_phone reg env)) < 2 ^ 31).
Proof.
  assert (Hr : forall z, - 2 ^ 31 <= to_int z < 2 ^ 31).
  { intros z. unfold to_int.
    pose proof (Z.mod_pos_bound (z + 2 ^ 31) (2 ^ 32)). lia. }
  unfold fs_register, first_checked_failure, c_true. simpl.
  destruct (data_write_rc env =? EOK); simpl; [|auto].
  destruct (mappable_page env =? 0); simpl; [auto|].
  destruct (share_in_rc env =? 0); simpl; auto.
Qed.

(** X14: whatever happens, the pending registration call is waited for
    once, and a failure is reported right after the wait. *)
Lemma fs_register_awaits env :
  exists before rest,
    snd (fs_register vfs_phone reg env)
    = RegSend vfs_phone :: before ++ RegWaitFor :: rest /\
    filter is_wait before = [] /\
    filter is_wait rest = [] /\
    (first_checked_failure env <> None -> rest = []).
Proof.
  unfold fs_register, first_checked_failure, c_true. simpl.
  destruct (data_write_rc env =? EOK); simpl.
  2:{ exists [RegDataWriteStart vfs_phone (data_write_rc env)], [].
      repeat split. }
  destruct (mappable_page env =? 0); simpl.
  { exists [RegDataWriteStart vfs_phone (data_write_rc env);
            RegConnectToMe vfs_phone (connect_rc (connect env));
            RegGetMappablePage PLB_SIZE (mappable_page env)], [].
    repeat split. }
  destruct (share_in_rc env =? 0); simpl.
  - exists [RegDataWriteStart vfs_phone (data_write_rc env);
            RegConnectToMe vfs_phone (connect_rc (connect env));
            RegGetMappablePage PLB_SIZE (mappable_page env);
            RegShareInStart vfs_phone (mappable_page env) PLB_SIZE
              (share_in_rc env)],
      [RegNewConnection (connect_phonehash (connect env)); RegSetClientConnection].
    repeat split. congruence.
  - exists [RegDataWriteStart vfs_phone (data_write_rc env);
            RegConnectToMe vfs_phone (connect_rc (connect env));
            RegGetMappablePage PLB_SIZE (mappable_page env);
            RegShareInStart vfs_phone (mappable_page env) PLB_SIZE
              (share_in_rc env)], [].
    repeat split.
Qed.

End Registration.

(** C9: the request for the callback connection fails with [-2], every
    other step succeeds and VFS answers [EOK]: [fs_register] returns [EOK]
    and not the code of the failed step. *)
Theorem fs_register_drops_connect_error :
  connect_rc (connect Ramfs.connect_fails) <> @EOK Ramfs.constants /\
  fs_register (K := Ramfs.constants) 3 (mk_reg 0 0 0) Ramfs.connect_fails
  = (@EOK Ramfs.constants, mk_reg 7 4096 9,
     [RegSend 3; RegDataWriteStart 3 0; RegConnectToMe 3 (-2);
      RegGetMappablePage 16 4096; RegShareInStart 3 4096 16 0;
      RegWaitFor; RegNewConnection 9; RegSetClientConnection]).
Proof.
  split; [discriminate | reflexivity].
Qed.

(** C1: the path [/a/x] with [L_PARENT], where [a] is a directory with
    entries and [x] is not one of them, is answered twice: with the
    triplet of [a], and then with [ENOENT]. *)
Theorem parent_miss_answers_twice :
  Ramfs.lookup "/a/x" 0 3 64 0 Ramfs.tree
  = Done tt Ramfs.tree
      [EvRootGet 0 (Some 0);
       EvMatch (Some 0) "a" (Some 1);
       EvMatch (Some 1) "x" None;
       EvAnswer5 77 0 1 0 1 0 1;
       EvAnswer0 77 (-1);
       EvNodePut (Some 0);
       EvNodePut (Some 1)].
Proof. vm_compute. reflexivity. Qed.

(** ** More of the lookup: the answers of the single branches *)

Section Branches.
Context {K : vfs_constants} {S : Type}.
Variable ops : libfs_ops S.
Variables fs_handle rid : Z.

Local Abbreviation lookup := (libfs_lookup ops fs_handle rid).
Local Abbreviation arrives := (walks_to ops fs_handle rid).

Section Body.
Variables last dev_handle lflag index : Z.

Local Abbreviation from :=
  (lookup_from ops fs_handle rid last dev_handle lflag index).
Local Abbreviation after :=
  (after_walk ops fs_handle rid last dev_handle lflag index).
Local Abbreviation excess :=
  (handle_excess ops fs_handle rid last dev_handle lflag index).
Local Abbreviation hit_flags :=
  (handle_hit_flags ops fs_handle rid dev_handle lflag).
Local Abbreviation new_link :=
  (create_and_link ops fs_handle rid dev_handle lflag index).

(** With the walk loop left at once, the function goes on with what
    follows the loop. *)
Lemma lookup_from_after fuel par cur next s l s1 tr :
  walk_cond ops last cur next s = false ->
  after fuel par cur next s = Done l s1 tr ->
  from (Datatypes.S fuel) par cur next s
  = Done tt (cleanup_state ops l s1) (tr ++ cleanup_trace l).
Proof.
  intros Hc Ha.
  eapply after_walk_mono with (fuel' := Datatypes.S fuel) in Ha;
    [|discriminate|lia].
  unfold lookup_from, bind.
  assert (Hw : lookup_walk ops fs_handle rid last dev_handle lflag index
                 (Datatypes.S fuel) par cur next s
               = Done (Fallthrough par cur next) s []).
  { simpl. unfold bind, gets. rewrite Hc. reflexivity. }
  rewrite Hw. cbn [and_then prepend]. rewrite Ha.
  cbn [and_then prepend app]. rewrite cleanup_run. reflexivity.
Qed.

(** A node without children, with more of the path to come. *)
Lemma lookup_from_excess fuel par cur next s l s1 tr :
  next <= last ->
  has_children ops cur s = false ->
  excess fuel par cur next s = Done l s1 tr ->
  from (Datatypes.S fuel) par cur next s
  = Done tt (cleanup_state ops l s1) (tr ++ cleanup_trace l).
Proof.
  intros Hn Hc Hx.
  assert (E : (next <=? last) = true) by (apply Z.leb_le; exact Hn).
  apply lookup_from_after.
  - unfold walk_cond. rewrite E, Hc. reflexivity.
  - unfold after_walk, bind, gets. rewrite E, Hc.
    cbn [and_then prepend negb andb]. rewrite Hx. reflexivity.
Qed.

(** The checks of the type of the node that was hit. *)
Lemma hit_triplet par cur s :
  has_flag lflag L_UNLINK = false ->
  (Z.land lflag (Z.lor L_CREATE L_EXCLUSIVE) =? Z.lor L_CREATE L_EXCLUSIVE)
  || has_flag lflag L_LINK = false ->
  has_flag lflag L_FILE && is_directory ops cur s = false ->
  has_flag lflag L_DIRECTORY && is_file ops cur s = false ->
  hit_flags par cur s
  = Done (mk_locals par cur None) s
      [EvAnswer5 rid EOK fs_handle dev_handle (index_get ops cur s)
         (size_get ops cur s) (lnkcnt_get ops cur s)].
Proof.
  unfold has_flag. intros Hu He Hf Hd. unfold handle_hit_flags.
  rewrite Hu, He. run.
  destruct (c_true (Z.land lflag L_FILE)); simpl in *;
    [rewrite Hf; simpl|];
    (destruct (c_true (Z.land lflag L_DIRECTORY)); simpl in *;
     [rewrite Hd; simpl|]); reflexivity.
Qed.

Lemma hit_is_directory par cur s :
  has_flag lflag L_UNLINK = false ->
  (Z.land lflag (Z.lor L_CREATE L_EXCLUSIVE) =? Z.lor L_CREATE L_EXCLUSIVE)
  || has_flag lflag L_LINK = false ->
  has_flag lflag L_FILE = true ->
  is_directory ops cur s = true ->
  hit_flags par cur s
  = Done (mk_locals par cur None) s [EvAnswer0 rid EISDIR].
Proof.
  unfold has_flag. intros Hu He Hf Hd. unfold handle_hit_flags.
  rewrite Hu, He, Hf. run. rewrite Hd. reflexivity.
Qed.

Lemma hit_is_file par cur s :
  has_flag lflag L_UNLINK = false ->
  (Z.land lflag (Z.lor L_CREATE L_EXCLUSIVE) =? Z.lor L_CREATE L_EXCLUSIVE)
  || has_flag lflag L_LINK = false ->
  has_flag lflag L_FILE && is_directory ops cur s = false ->
  has_flag lflag L_DIRECTORY = true ->
  is_file ops cur s = true ->
  hit_flags par cur s
  = Done (mk_locals par cur None) s [EvAnswer0 rid ENOTDIR].
Proof.
  unfold has_flag. intros Hu He Hf Hd Hi. unfold handle_hit_flags.
  rewrite Hu, He, Hd. run.
  destruct (c_true (Z.land lflag L_FILE)); simpl in *;
    [rewrite Hf; simpl|]; rewrite Hi; reflexivity.
Qed.

(** The block that creates and links, when the link succeeds. *)
Lemma create_and_link_created cur component s fn s1 s2 :
  has_flag lflag L_CREATE = true ->
  create ops dev_handle lflag s = (Some fn, s1) ->
  link ops cur (Some fn) component s1 = (EOK, s2) ->
  new_link cur component s
  = Done tt (node_put ops (Some fn) s2)
      [EvCreate dev_handle lflag (Some fn);
       EvLink cur (Some fn) component EOK;
       EvAnswer5 rid EOK fs_handle dev_handle (index_get ops (Some fn) s2)
         (size_get ops (Some fn) s2) (lnkcnt_get ops (Some fn) s2);
       EvNodePut (Some fn)].
Proof.
  unfold has_flag. intros Hf Hc Hl.
  unfold create_and_link. rewrite Hf.
  run. rewrite Hc. simpl. rewrite Hl. simpl.
  rewrite Z.eqb_refl. reflexivity.
Qed.

Lemma create_and_link_linked cur component s fn s1 s2 :
  has_flag lflag L_CREATE = false ->
  node_get ops dev_handle index s = (Some fn, s1) ->
  link ops cur (Some fn) component s1 = (EOK, s2) ->
  new_link cur component s
  = Done tt (node_put ops (Some fn) s2)
      [EvNodeGet dev_handle index (Some fn);
       EvLink cur (Some fn) component EOK;
       EvAnswer5 rid EOK fs_handle dev_handle (index_get ops (Some fn) s2)
         (size_get ops (Some fn) s2) (lnkcnt_get ops (Some fn) s2);
       EvNodePut (Some fn)].
Proof.
  unfold has_flag. intros Hf Hc Hl.
  unfold create_and_link. rewrite Hf.
  run. rewrite Hc. simpl. rewrite Hl. simpl.
  rewrite Z.eqb_refl. reflexivity.
Qed.

(** The block that creates and links, when there is no node to link. *)
Lemma create_and_link_no_node cur component s s1 :
  (if has_flag lflag L_CREATE
   then create ops dev_handle lflag s
   else node_get ops dev_handle index s) = (None, s1) ->
  new_link cur component s
  = Done tt s1
      [if has_flag lflag L_CREATE
       then EvCreate dev_handle lflag None
       else EvNodeGet dev_handle index None;
       EvAnswer0 rid ENOSPC].
Proof.
  unfold has_flag, create_and_link.
  destruct (c_true (Z.land lflag L_CREATE)); intros H; run; rewrite H;
    reflexivity.
Qed.

(** The calls of the block that creates and links are licensed. *)
Lemma create_and_link_licensed cur component s s1 tr :
  has_flag lflag (Z.lor L_CREATE L_LINK) = true ->
  new_link cur component s = Done tt s1 tr ->
  forallb (licensed lflag) tr = true.
Proof.
  intros Hcl. unfold create_and_link. run.
  destruct (c_true (Z.land lflag L_CREATE)) eqn:Hc.
  - destruct (create ops dev_handle lflag s) as [[fn|] s0]; simpl.
    + destruct (link ops cur (Some fn) component s0) as [rc s2]; simpl.
      destruct (negb (rc =? EOK)); simpl.
      * destruct (destroy ops (Some fn) s2) as [rd s3]; simpl.
        intros H; inversion H; subst. simpl. unfold has_flag at 1 3.
        rewrite Hc, Hcl. reflexivity.
      * intros H; inversion H; subst. simpl. unfold has_flag at 1.
        rewrite Hc, Hcl. reflexivity.
    + intros H; inversion H; subst. simpl. unfold has_flag.
      rewrite Hc. reflexivity.
  - destruct (node_get ops dev_handle index s) as [[fn|] s0]; simpl.
    + destruct (link ops cur (Some fn) component s0) as [rc s2]; simpl.
      destruct (negb (rc =? EOK)); simpl;
        intros H; inversion H; subst; simpl; unfold has_flag at 1;
        rewrite Hc, Hcl; reflexivity.
    + intros H; inversion H; subst. simpl. unfold has_flag at 1.
      rewrite Hc, Hcl. reflexivity.
Qed.

Lemma walk_body_licensed fuel par cur next s b s1 tr :
  walk_body ops fs_handle rid last dev_handle lflag index fuel par cur next s
    = Done b s1 tr ->
  forallb (licensed lflag) tr = true.
Proof.
  unfold walk_body.
  destruct (collect_component ops last fuel next 0 EmptyString)
    as [[|nx len component]|]; run; try discriminate.
  { intros H; inversion H; reflexivity. }
  destruct (c_true len); simpl; try discriminate.
  destruct (match_ ops cur (c_str component) s) as [[t|] s0]; simpl.
  - destruct par as [p|]; simpl; intros H; inversion H; reflexivity.
  - destruct (to_unsigned (nx + 1) <=? last); simpl.
    { intros H; inversion H; reflexivity. }
    unfold miss_last.
    destruct (c_true (Z.land lflag (Z.lor L_CREATE L_LINK))) eqn:Ef; run.
    + destruct (negb (is_directory ops cur s0)); simpl.
      { intros H; inversion H; reflexivity. }
      destruct (new_link cur (c_str component) s0) as [[] s2 t2| |] eqn:E;
        simpl; try discriminate.
      intros H; inversion H; subst.
      rewrite !app_nil_r. simpl. eapply create_and_link_licensed; eauto.
    + destruct (c_true (Z.land lflag L_PARENT)); simpl;
        intros H; inversion H; reflexivity.
Qed.

Lemma lookup_walk_licensed fuel :
  forall par cur next s w s1 tr,
    lookup_walk ops fs_handle rid last dev_handle lflag index fuel par cur
      next s = Done w s1 tr ->
    forallb (licensed lflag) tr = true.
Proof.
  induction fuel as [|fuel IH]; intros par cur next s w s1 tr H.
  - discriminate.
  - simpl in H. unfold bind, gets in H. simpl in H.
    destruct (negb (walk_cond ops last cur next s)).
    { inversion H; reflexivity. }
    rewrite prepend_nil in H.
    destruct (walk_body ops fs_handle rid last dev_handle lflag index fuel
                par cur next s) as [b s0 t0| |] eqn:E;
      simpl in H; try discriminate.
    apply walk_body_licensed in E.
    destruct b as [l|p c nx]; simpl in H.
    + inversion H; subst. rewrite app_nil_r. exact E.
    + apply prepend_done in H. destruct H as (t' & H & ->).
      apply IH in H. rewrite forallb_app, E, H. reflexivity.
Qed.

Lemma handle_hit_flags_licensed par cur s l s1 tr :
  hit_flags par cur s = Done l s1 tr ->
  forallb (licensed lflag) tr = true.
Proof.
  unfold handle_hit_flags. run.
  destruct (c_true (Z.land lflag L_UNLINK)) eqn:Hu.
  { destruct (unlink ops par cur s) as [res s0]; simpl.
    intros H; inversion H; subst. simpl. unfold has_flag. rewrite Hu.
    reflexivity. }
  destruct ((_ =? _) || _); simpl.
  { intros H; inversion H; reflexivity. }
  destruct (c_true (Z.land lflag L_FILE)); simpl;
    [destruct (is_directory ops cur s); simpl|];
    try (intros H; inversion H; reflexivity);
    (destruct (c_true (Z.land lflag L_DIRECTORY)); simpl;
     [destruct (is_file ops cur s); simpl|]);
    intros H; inversion H; reflexivity.
Qed.

Lemma after_walk_licensed fuel par cur next s l s1 tr :
  after fuel par cur next s = Done l s1 tr ->
  forallb (licensed lflag) tr = true.
Proof.
  unfold after_walk, bind, gets. cbn [and_then].
  rewrite prepend_nil.
  destruct ((next <=? last) && negb (has_children ops cur s)).
  - unfold handle_excess.
    destruct (c_true (Z.land lflag (Z.lor L_CREATE L_LINK))) eqn:Ef; run.
    + destruct (negb (is_directory ops cur s)); simpl.
      { intros H; inversion H; reflexivity. }
      destruct (collect_excess ops last fuel next 0 EmptyString)
        as [[| |len component]|]; simpl; try discriminate;
        try (intros H; inversion H; reflexivity).
      destruct (c_true len); simpl; try discriminate.
      destruct (new_link cur (c_str component) s) as [[] s2 t2| |] eqn:E;
        simpl; try discriminate.
      intros H; inversion H; subst.
      rewrite !app_nil_r. eapply create_and_link_licensed; eauto.
    + intros H; inversion H; reflexivity.
  - unfold handle_hit.
    destruct (c_true (Z.land lflag L_PARENT)).
    + run. destruct par as [p|]; simpl.
      * destruct (hit_flags None (Some p) (node_put ops cur s))
          as [l0 s0 t0| |] eqn:E; simpl; try discriminate.
        intros H; inversion H; subst.
        apply handle_hit_flags_licensed in E. simpl. exact E.
      * intros H; inversion H; reflexivity.
    + apply handle_hit_flags_licensed.
Qed.

Lemma cleanup_trace_licensed l :
  forallb (licensed lflag) (cleanup_trace l) = true.
Proof. destruct l as [[p|] [c|] [t|]]; reflexivity. Qed.

Lemma lookup_from_licensed fuel par cur next s s1 tr :
  from fuel par cur next s = Done tt s1 tr ->
  forallb (licensed lflag) tr = true.
Proof.
  unfold lookup_from. intros H.
  apply bind_done in H. destruct H as (w & s2 & t1 & t2 & Hw & H & ->).
  apply bind_done in H. destruct H as (l & s3 & t3 & t4 & Hl & H & ->).
  rewrite cleanup_run in H. inversion H; subst.
  apply lookup_walk_licensed in Hw.
  rewrite !forallb_app, Hw, cleanup_trace_licensed, andb_true_r. simpl.
  destruct w as [l'|p c nx].
  - unfold ret in Hl. inversion Hl; reflexivity.
  - eapply after_walk_licensed; exact Hl.
Qed.

End Body.
End Branches.

Section Outcomes.
Context {K : vfs_constants} {S : Type}.
Variable ops : libfs_ops S.
Variables fs_handle rid : Z.

Local Abbreviation lookup := (libfs_lookup ops fs_handle rid).
Local Abbreviation arrives := (walks_to ops fs_handle rid).

Section Body.
Variables last dev_handle lflag index : Z.

Local Abbreviation body :=
  (walk_body ops fs_handle rid last dev_handle lflag index).
Local Abbreviation walk :=
  (lookup_walk ops fs_handle rid last dev_handle lflag index).
Local Abbreviation from :=
  (lookup_from ops fs_handle rid last dev_handle lflag index).
Local Abbreviation after :=
  (after_walk ops fs_handle rid last dev_handle lflag index).
Local Abbreviation excess :=
  (handle_excess ops fs_handle rid last dev_handle lflag index).
Local Abbreviation new_link :=
  (create_and_link ops fs_handle rid dev_handle lflag index).
Local Abbreviation reaches :=
  (descends ops fs_handle rid last dev_handle lflag index).

(** The function from the head of the walk loop, when the last component
    is missing and no link is asked for: the block at lines 1390-1397
    without [L_PARENT], or the last line of the excess block. *)
Lemma lookup_from_miss_plain par cur next s component s1 trl :
  misses_last ops last cur next s component s1 trl ->
  has_flag lflag (Z.lor L_CREATE L_LINK) = false ->
  has_flag lflag L_PARENT = false ->
  exists fuel,
    from fuel par cur next s
    = Done tt (cleanup_state ops (mk_locals par cur None) s1)
        (trl ++ [EvAnswer0 rid ENOENT]
             ++ cleanup_trace (mk_locals par cur None)).
Proof.
  unfold has_flag.
  intros Hm Hf Hp.
  destruct Hm as [fuel next1 len component s1 Hc Hcol Hlen Hmatch Hlast
                 |fuel len component Hnext Hch Hcol Hlen].
  - exists (Datatypes.S fuel).
    rewrite (lookup_from_goto ops fs_handle rid last dev_handle lflag index
               fuel par cur next s (mk_locals par cur None)
               s1 [EvMatch cur (c_str component) None; EvAnswer0 rid ENOENT]);
      [reflexivity | exact Hc |].
    unfold walk_body. rewrite Hcol.
    apply c_true_iff in Hlen.
    run. rewrite Hlen. simpl. rewrite Hmatch. simpl.
    assert (E : (to_unsigned (next1 + 1) <=? last) = false)
      by (apply Z.leb_gt; exact Hlast).
    rewrite E. unfold miss_last. rewrite Hf, Hp. reflexivity.
  - exists 1%nat.
    rewrite (lookup_from_excess ops fs_handle rid last dev_handle lflag index
               0 par cur next s (mk_locals par cur None) s
               [EvAnswer0 rid ENOENT]);
      [reflexivity | exact Hnext | exact Hch |].
    unfold handle_excess. rewrite Hf. reflexivity.
Qed.

(** The same when a link is asked for and [cur] is not a directory. *)
Lemma lookup_from_miss_notdir par cur next s component s1 trl :
  misses_last ops last cur next s component s1 trl ->
  has_flag lflag (Z.lor L_CREATE L_LINK) = true ->
  is_directory ops cur s1 = false ->
  exists fuel,
    from fuel par cur next s
    = Done tt (cleanup_state ops (mk_locals par cur None) s1)
        (trl ++ [EvAnswer0 rid ENOTDIR]
             ++ cleanup_trace (mk_locals par cur None)).
Proof.
  unfold has_flag.
  intros Hm Hf Hd.
  destruct Hm as [fuel next1 len component s1 Hc Hcol Hlen Hmatch Hlast
                 |fuel len component Hnext Hch Hcol Hlen].
  - exists (Datatypes.S fuel).
    rewrite (lookup_from_goto ops fs_handle rid last dev_handle lflag index
               fuel par cur next s (mk_locals par cur None)
               s1 [EvMatch cur (c_str component) None;
                   EvAnswer0 rid ENOTDIR]);
      [reflexivity | exact Hc |].
    unfold walk_body. rewrite Hcol.
    apply c_true_iff in Hlen.
    run. rewrite Hlen. simpl. rewrite Hmatch. simpl.
    assert (E : (to_unsigned (next1 + 1) <=? last) = false)
      by (apply Z.leb_gt; exact Hlast).
    rewrite E. unfold miss_last. rewrite Hf. run. rewrite Hd. reflexivity.
  - exists 1%nat.
    rewrite (lookup_from_excess ops fs_handle rid last dev_handle lflag index
               0 par cur next s (mk_locals par cur None) s
               [EvAnswer0 rid ENOTDIR]);
      [reflexivity | exact Hnext | exact Hch |].
    unfold handle_excess. rewrite Hf. run. rewrite Hd. reflexivity.
Qed.

(** A component the first loop collects is empty only when the loop stops
    at its first character. *)
Lemma collect_component_length fuel :
  forall next len component next1 len1 component1,
    collect_component ops last fuel next len component
      = Some (Collected next1 len1 component1) ->
    len <= len1 /\
    (len1 = len ->
     (next <=? last) && negb (Ascii.eqb (plb_get_char ops next) slash)
     = false).
Proof.
  induction fuel as [|fuel IH]; intros next len component n1 l1 c1 H.
  - discriminate.
  - simpl in H.
    destruct ((next <=? last)
              && negb (Ascii.eqb (plb_get_char ops next) slash)) eqn:E.
    + destruct (len + 1 =? NAME_MAX); [discriminate|].
      apply IH in H. destruct H as [H _]. split; lia.
    + inversion H; subst. split; [lia|reflexivity].
Qed.

(** The second loop, entered with [next <= last], collects at least one
    character: the assertion that follows it (line 1433) holds. *)
Lemma collect_excess_length fuel :
  forall next len component len1 component1,
    collect_excess ops last fuel next len component
      = Some (XCollected len1 component1) ->
    len <= len1 /\ (next <= last -> len < len1).
Proof.
  induction fuel as [|fuel IH]; intros next len component l1 c1 H.
  - discriminate.
  - simpl in H. destruct (next <=? last) eqn:E.
    + destruct (Ascii.eqb (plb_get_char ops next) slash); [discriminate|].
      destruct (len + 1 =? NAME_MAX); [discriminate|].
      apply IH in H. destruct H as [H _]. split; intros; lia.
    + inversion H; subst. apply Z.leb_gt in E. split; intros; lia.
Qed.

Lemma create_and_link_no_abort cur component s s1 tr :
  new_link cur component s <> Abort s1 tr.
Proof.
  destruct (create_and_link_total ops fs_handle rid dev_handle lflag index
              cur component s) as (s2 & t2 & E).
  rewrite E. discriminate.
Qed.

Lemma handle_hit_no_abort par cur s s1 tr :
  handle_hit ops fs_handle rid dev_handle lflag par cur s <> Abort s1 tr.
Proof.
  unfold handle_hit.
  destruct (c_true (Z.land lflag L_PARENT)).
  - run. destruct par as [p|]; simpl; [|discriminate].
    destruct (handle_hit_flags_total ops fs_handle rid dev_handle lflag
                None (Some p) (node_put ops cur s)) as (l & s2 & t2 & E).
    rewrite E. discriminate.
  - destruct (handle_hit_flags_total ops fs_handle rid dev_handle lflag
                par cur s) as (l & s2 & t2 & E).
    rewrite E. discriminate.
Qed.

Lemma after_walk_no_abort fuel par cur next s s1 tr :
  after fuel par cur next s <> Abort s1 tr.
Proof.
  unfold after_walk, bind, gets. cbn [and_then]. rewrite prepend_nil.
  destruct (next <=? last) eqn:E; cbn [andb].
  2:{ apply handle_hit_no_abort. }
  destruct (negb (has_children ops cur s)).
  2:{ apply handle_hit_no_abort. }
  apply Z.leb_le in E.
  unfold handle_excess.
  destruct (c_true (Z.land lflag (Z.lor L_CREATE L_LINK))); run;
    [|discriminate].
  destruct (negb (is_directory ops cur s)); simpl; [discriminate|].
  destruct (collect_excess ops last fuel next 0 EmptyString)
    as [[| |len component]|] eqn:Ec; simpl; try discriminate.
  apply collect_excess_length in Ec. destruct Ec as [_ Ec].
  specialize (Ec E).
  assert (Hl : c_true len = true) by (apply c_true_iff; lia).
  rewrite Hl. simpl.
  destruct (new_link cur (c_str component) s) as [[] s2 t2|s2 t2|] eqn:En;
    simpl; try discriminate.
  exfalso. eapply create_and_link_no_abort; exact En.
Qed.

(** The body of the walk loop fails its assertion on an empty component
    only, before any call is made. *)
Lemma walk_body_abort fuel par cur next s s1 tr :
  walk_cond ops last cur next s = true ->
  body fuel par cur next s = Abort s1 tr ->
  s1 = s /\ tr = [] /\ plb_get_char ops next = slash.
Proof.
  intros Hc. unfold walk_body.
  destruct (collect_component ops last fuel next 0 EmptyString)
    as [[|nx len component]|] eqn:Ec; run; try discriminate.
  destruct (c_true len) eqn:El; simpl.
  - destruct (match_ ops cur (c_str component) s) as [[t|] s0]; simpl.
    + destruct par as [p|]; discriminate.
    + destruct (to_unsigned (nx + 1) <=? last); simpl; [discriminate|].
      unfold miss_last.
      destruct (c_true (Z.land lflag (Z.lor L_CREATE L_LINK))); run.
      * destruct (negb (is_directory ops cur s0)); simpl; [discriminate|].
        destruct (new_link cur (c_str component) s0)
          as [[] s2 t2|s2 t2|] eqn:En; simpl; try discriminate.
        exfalso. eapply create_and_link_no_abort; exact En.
      * destruct (c_true (Z.land lflag L_PARENT)); discriminate.
  - intros H. inversion H; subst.
    apply c_true_false_iff in El. subst len.
    apply collect_component_length in Ec. destruct Ec as [_ Ec].
    specialize (Ec eq_refl).
    unfold walk_cond in Hc. apply andb_true_iff in Hc.
    destruct Hc as [Hc _]. rewrite Hc in Ec. simpl in Ec.
    apply negb_false_iff in Ec. apply Ascii.eqb_eq in Ec.
    auto.
Qed.

Lemma lookup_walk_abort fuel :
  forall par cur next s s1 tr,
    walk fuel par cur next s = Abort s1 tr ->
    exists par1 cur1 next1,
      reaches par cur next s par1 cur1 next1 s1 tr /\
      walk_cond ops last cur1 next1 s1 = true /\
      plb_get_char ops next1 = slash.
Proof.
  induction fuel as [|fuel IH]; intros par cur next s s1 tr H.
  - discriminate.
  - simpl in H. unfold bind, gets in H. simpl in H.
    destruct (walk_cond ops last cur next s) eqn:Hc; simpl in H;
      [|discriminate].
    rewrite prepend_nil in H.
    destruct (body fuel par cur next s) as [b s0 t0|s0 t0|] eqn:E;
      simpl in H; try discriminate.
    + destruct b as [l|p c nx]; simpl in H; [discriminate|].
      destruct (walk fuel p c nx s0) as [w s2 t2|s2 t2|] eqn:Ew;
        simpl in H; try discriminate.
      inversion H; subst.
      apply IH in Ew. destruct Ew as (p1 & c1 & n1 & Hd & Hw & Hs).
      exists p1, c1, n1. split; [|auto].
      eapply descends_step; eauto.
    + inversion H; subst.
      apply walk_body_abort in E; [|exact Hc].
      destruct E as (-> & -> & Hs).
      exists par, cur, next. split; [apply descends_here|auto].
Qed.

Lemma lookup_from_abort fuel par cur next s s1 tr :
  from fuel par cur next s = Abort s1 tr ->
  exists par1 cur1 next1,
    reaches par cur next s par1 cur1 next1 s1 tr /\
    walk_cond ops last cur1 next1 s1 = true /\
    plb_get_char ops next1 = slash.
Proof.
  unfold lookup_from, bind. intros H.
  destruct (walk fuel par cur next s) as [w s2 t2|s2 t2|] eqn:Ew;
    simpl in H; try discriminate.
  - exfalso. destruct w as [l|p c nx].
    + unfold ret in H. simpl in H. rewrite cleanup_run in H.
      discriminate.
    + destruct (after fuel p c nx s2) as [l s3 t3|s3 t3|] eqn:Ea;
        simpl in H; try discriminate.
      * rewrite cleanup_run in H. discriminate.
      * eapply after_walk_no_abort; exact Ea.
  - inversion H; subst. apply lookup_walk_abort in Ew. exact Ew.
Qed.

(** The function from the head of the walk loop, on an empty component. *)
Lemma lookup_from_empty par cur next s :
  walk_cond ops last cur next s = true ->
  plb_get_char ops next = slash ->
  from 2 par cur next s = Abort s [].
Proof.
  intros Hc Hs. unfold lookup_from, bind. simpl.
  unfold bind, gets. simpl. rewrite Hc. simpl.
  unfold walk_body. simpl. rewrite Hs.
  assert (E : Ascii.eqb slash slash = true) by (apply Ascii.eqb_eq; reflexivity).
  rewrite E, andb_false_r. reflexivity.
Qed.

(** The walk down to a loop head sends no answer. *)
Lemma descends_no_answer par cur next s par1 cur1 next1 s1 tr :
  reaches par cur next s par1 cur1 next1 s1 tr ->
  answers tr = [].
Proof.
  induction 1 as [| ? ? ? ? ? ? ? ? ? ? ? ? ? ? ? Hc Hb Hd IH].
  - reflexivity.
  - rewrite answers_app, IH, app_nil_r.
    apply (walk_body_answers ops fs_handle rid last dev_handle lflag index)
      in Hb.
    apply length_zero_iff_nil. exact Hb.
Qed.

End Body.

Local Abbreviation cleaned par cur s :=
  (cleanup_state ops (mk_locals par cur None) s).
Local Abbreviation finally par cur :=
  (cleanup_trace (mk_locals par cur None)).

(** X1: a path that is found, looked up with no flag that asks for more
    than the node, is answered with [EOK] and the triplet, size and link
    count of the node. *)
Theorem hit_answers_node request s par cur next s1 tr :
  arrives request s par cur next s1 tr ->
  req_last request < next ->
  has_flag (req_lflag request) L_PARENT = false ->
  has_flag (req_lflag request) L_UNLINK = false ->
  has_flag (req_lflag request) L_LINK = false ->
  Z.land (req_lflag request) (Z.lor L_CREATE L_EXCLUSIVE)
    <> Z.lor L_CREATE L_EXCLUSIVE ->
  has_flag (req_lflag request) L_FILE && is_directory ops cur s1 = false ->
  has_flag (req_lflag request) L_DIRECTORY && is_file ops cur s1 = false ->
  exists N, forall fuel, (N <= fuel)%nat ->
    lookup fuel request s
    = Done tt (cleaned par cur s1)
        (tr ++ [EvAnswer5 rid EOK fs_handle (req_dev request)
                  (index_get ops cur s1) (size_get ops cur s1)
                  (lnkcnt_get ops cur s1)]
            ++ finally par cur).
Proof.
  intros Ha Hn Hp Hu Hl Hx Hf Hd.
  eapply lookup_arrives; [exact Ha|].
  erewrite lookup_from_hit; [reflexivity | exact Hn |].
  rewrite hit_no_parent by exact Hp.
  apply hit_triplet; try assumption.
  rewrite Hl, orb_false_r. apply Z.eqb_neq. exact Hx.
Qed.

(** X2: a path that is found is refused when its node is of the wrong
    type: [EISDIR] for a directory looked up with [L_FILE], and, when
    that does not apply, [ENOTDIR] for a file looked up with
    [L_DIRECTORY].  This is for the lookups that come to the type checks:
    those without [L_PARENT], [L_UNLINK] and [L_LINK], and without
    [L_CREATE] together with [L_EXCLUSIVE]. *)
Theorem hit_of_wrong_type request s par cur next s1 tr :
  arrives request s par cur next s1 tr ->
  req_last request < next ->
  has_flag (req_lflag request) L_PARENT = false ->
  has_flag (req_lflag request) L_UNLINK = false ->
  has_flag (req_lflag request) L_LINK = false ->
  Z.land (req_lflag request) (Z.lor L_CREATE L_EXCLUSIVE)
    <> Z.lor L_CREATE L_EXCLUSIVE ->
  (has_flag (req_lflag request) L_FILE = true ->
   is_directory ops cur s1 = true ->
   exists N, forall fuel, (N <= fuel)%nat ->
     lookup fuel request s
     = Done tt (cleaned par cur s1)
         (tr ++ [EvAnswer0 rid EISDIR] ++ finally par cur)) /\
  (has_flag (req_lflag request) L_FILE && is_directory ops cur s1 = false ->
   has_flag (req_lflag request) L_DIRECTORY = true ->
   is_file ops cur s1 = true ->
   exists N, forall fuel, (N <= fuel)%nat ->
     lookup fuel request s
     = Done tt (cleaned par cur s1)
         (tr ++ [EvAnswer0 rid ENOTDIR] ++ finally par cur)).
Proof.
  intros Ha Hn Hp Hu Hl Hx.
  assert (He : (Z.land (req_lflag request) (Z.lor L_CREATE L_EXCLUSIVE)
                  =? Z.lor L_CREATE L_EXCLUSIVE)
               || has_flag (req_lflag request) L_LINK = false).
  { rewrite Hl, orb_false_r. apply Z.eqb_neq. exact Hx. }
  split.
  - intros Hf Hd.
    eapply lookup_arrives; [exact Ha|].
    erewrite lookup_from_hit; [reflexivity | exact Hn |].
    rewrite hit_no_parent by exact Hp.
    apply hit_is_directory; assumption.
  - intros Hf Hd Hi.
    eapply lookup_arrives; [exact Ha|].
    erewrite lookup_from_hit; [reflexivity | exact Hn |].
    rewrite hit_no_parent by exact Hp.
    apply hit_is_file; assumption.
Qed.

(** X3: with [L_PARENT], a path that is found is answered with the node
    of its parent directory, after the node itself has been given back;
    the root, which has no parent, is answered with [ENOENT].  The answer
    with the parent is for the lookups that ask nothing else of it: those
    without [L_UNLINK] and [L_LINK], without [L_CREATE] together with
    [L_EXCLUSIVE], and with a parent that passes the type checks. *)
Theorem hit_answers_parent request s par cur next s1 tr :
  arrives request s par cur next s1 tr ->
  req_last request < next ->
  has_flag (req_lflag request) L_PARENT = true ->
  (par = None ->
   exists N, forall fuel, (N <= fuel)%nat ->
     lookup fuel request s
     = Done tt (node_put ops cur s1)
         (tr ++ [EvNodePut cur; EvAnswer0 rid ENOENT])) /\
  (forall p, par = Some p ->
   has_flag (req_lflag request) L_UNLINK = false ->
   has_flag (req_lflag request) L_LINK = false ->
   Z.land (req_lflag request) (Z.lor L_CREATE L_EXCLUSIVE)
     <> Z.lor L_CREATE L_EXCLUSIVE ->
   has_flag (req_lflag request) L_FILE
   && is_directory ops par (node_put ops cur s1) = false ->
   has_flag (req_lflag request) L_DIRECTORY
   && is_file ops par (node_put ops cur s1) = false ->
   exists N, forall fuel, (N <= fuel)%nat ->
     lookup fuel request s
     = Done tt (node_put ops par (node_put ops cur s1))
         (tr ++ [EvNodePut cur;
                 EvAnswer5 rid EOK fs_handle (req_dev request)
                   (index_get ops par (node_put ops cur s1))
                   (size_get ops par (node_put ops cur s1))
                   (lnkcnt_get ops par (node_put ops cur s1));
                 EvNodePut par])).
Proof.
  intros Ha Hn Hp. split.
  - intros ->.
    eapply lookup_arrives; [exact Ha|].
    eapply eq_trans; [|reflexivity].
    apply (lookup_from_hit ops fs_handle rid (req_last request)
             (req_dev request) (req_lflag request) (req_index request)
             None cur next s1 (mk_locals None None None)
             (node_put ops cur s1) [EvNodePut cur; EvAnswer0 rid ENOENT] Hn).
    unfold handle_hit. unfold has_flag in Hp. rewrite Hp. reflexivity.
  - intros p -> Hu Hl Hx Hf Hd.
    eapply lookup_arrives; [exact Ha|].
    eapply eq_trans; [|reflexivity].
    apply (lookup_from_hit ops fs_handle rid (req_last request)
             (req_dev request) (req_lflag request) (req_index request)
             (Some p) cur next s1 (mk_locals None (Some p) None)
             (node_put ops cur s1)
             [EvNodePut cur;
              EvAnswer5 rid EOK fs_handle (req_dev request)
                (index_get ops (Some p) (node_put ops cur s1))
                (size_get ops (Some p) (node_put ops cur s1))
                (lnkcnt_get ops (Some p) (node_put ops cur s1))] Hn).
    rewrite hit_parent by exact Hp.
    rewrite hit_triplet; try assumption; [reflexivity|].
    rewrite Hl, orb_false_r. apply Z.eqb_neq. exact Hx.
Qed.

(** X4: when the last component of the path is missing and neither a
    link nor the parent is asked for, the answer is [ENOENT], and it is
    the only one. *)
Theorem last_miss_not_found request s par cur next s1 tr component s2 trl :
  arrives request s par cur next s1 tr ->
  misses_last ops (req_last request) cur next s1 component s2 trl ->
  has_flag (req_lflag request) (Z.lor L_CREATE L_LINK) = false ->
  has_flag (req_lflag request) L_PARENT = false ->
  exists N, forall fuel, (N <= fuel)%nat ->
    lookup fuel request s
    = Done tt (cleaned par cur s2)
        (tr ++ trl ++ [EvAnswer0 rid ENOENT] ++ finally par cur).
Proof.
  intros Ha Hm Hf Hp.
  destruct (lookup_from_miss_plain (req_last request) (req_dev request)
              (req_lflag request) (req_index request)
              par cur next s1 component s2 trl Hm Hf Hp) as (fuel & E).
  eapply lookup_arrives; [exact Ha|exact E].
Qed.

(** X5: when the last component of the path is missing, the node that
    was created, or got by its index, is linked under that name; when the
    link succeeds the answer is [EOK] with the triplet of the new node,
    its size and link count read after the link, and the new node is
    given back after the answer. *)
Theorem missing_name_is_linked
  request s par cur next s1 tr component s2 trl fn s3 s4 :
  arrives request s par cur next s1 tr ->
  misses_last ops (req_last request) cur next s1 component s2 trl ->
  has_flag (req_lflag request) (Z.lor L_CREATE L_LINK) = true ->
  is_directory ops cur s2 = true ->
  (if has_flag (req_lflag request) L_CREATE
   then create ops (req_dev request) (req_lflag request) s2
   else node_get ops (req_dev request) (req_index request) s2)
  = (Some fn, s3) ->
  link ops cur (Some fn) component s3 = (EOK, s4) ->
  exists N, forall fuel, (N <= fuel)%nat ->
    lookup fuel request s
    = Done tt (cleaned par cur (node_put ops (Some fn) s4))
        (tr ++ trl
            ++ [if has_flag (req_lflag request) L_CREATE
                then EvCreate (req_dev request) (req_lflag request) (Some fn)
                else EvNodeGet (req_dev request) (req_index request)
                       (Some fn);
                EvLink cur (Some fn) component EOK;
                EvAnswer5 rid EOK fs_handle (req_dev request)
                  (index_get ops (Some fn) s4) (size_get ops (Some fn) s4)
                  (lnkcnt_get ops (Some fn) s4);
                EvNodePut (Some fn)]
            ++ finally par cur).
Proof.
  intros Ha Hm Hf Hd Hg Hl.
  destruct (has_flag (req_lflag request) L_CREATE) eqn:Hc.
  - destruct (lookup_from_miss ops fs_handle rid (req_last request)
                (req_dev request) (req_lflag request) (req_index request)
                par cur next s1 component s2 trl _ _ Hm Hf Hd
                (create_and_link_created ops fs_handle rid (req_dev request)
                   (req_lflag request) (req_index request)
                   cur component s2 fn s3 s4 Hc Hg Hl)) as (fuel & E).
    eapply lookup_arrives; [exact Ha|exact E].
  - destruct (lookup_from_miss ops fs_handle rid (req_last request)
                (req_dev request) (req_lflag request) (req_index request)
                par cur next s1 component s2 trl _ _ Hm Hf Hd
                (create_and_link_linked ops fs_handle rid (req_dev request)
                   (req_lflag request) (req_index request)
                   cur component s2 fn s3 s4 Hc Hg Hl)) as (fuel & E).
    eapply lookup_arrives; [exact Ha|exact E].
Qed.

(** X6: when the last component of the path is missing and there is no
    node to link under its name, because [create] or [node_get] returns
    NULL, the answer is [ENOSPC] and [link] is not called. *)
Theorem no_node_no_space request s par cur next s1 tr component s2 trl s3 :
  arrives request s par cur next s1 tr ->
  misses_last ops (req_last request) cur next s1 component s2 trl ->
  has_flag (req_lflag request) (Z.lor L_CREATE L_LINK) = true ->
  is_directory ops cur s2 = true ->
  (if has_flag (req_lflag request) L_CREATE
   then create ops (req_dev request) (req_lflag request) s2
   else node_get ops (req_dev request) (req_index request) s2)
  = (None, s3) ->
  exists N, forall fuel, (N <= fuel)%nat ->
    lookup fuel request s
    = Done tt (cleaned par cur s3)
        (tr ++ trl
            ++ [if has_flag (req_lflag request) L_CREATE
                then EvCreate (req_dev request) (req_lflag request) None
                else EvNodeGet (req_dev request) (req_index request) None;
                EvAnswer0 rid ENOSPC]
            ++ finally par cur).
Proof.
  intros Ha Hm Hf Hd Hg.
  destruct (lookup_from_miss ops fs_handle rid (req_last request)
              (req_dev request) (req_lflag request) (req_index request)
              par cur next s1 component s2 trl _ _ Hm Hf Hd
              (create_and_link_no_node ops fs_handle rid (req_dev request)
                 (req_lflag request) (req_index request)
                 cur component s2 s3 Hg)) as (fuel & E).
  eapply lookup_arrives; [exact Ha|exact E].
Qed.

(** X7: a link under a node that is not a directory is refused with
    [ENOTDIR] before anything is created: where the last component is
    missing, and also where the walk stops at a node without children,
    whatever is left of the path. *)
Theorem link_under_non_directory request s par cur next s1 tr :
  arrives request s par cur next s1 tr ->
  has_flag (req_lflag request) (Z.lor L_CREATE L_LINK) = true ->
  (forall component s2 trl,
     misses_last ops (req_last request) cur next s1 component s2 trl ->
     is_directory ops cur s2 = false ->
     exists N, forall fuel, (N <= fuel)%nat ->
       lookup fuel request s
       = Done tt (cleaned par cur s2)
           (tr ++ trl ++ [EvAnswer0 rid ENOTDIR] ++ finally par cur)) /\
  (next <= req_last request ->
   has_children ops cur s1 = false ->
   is_directory ops cur s1 = false ->
   exists N, forall fuel, (N <= fuel)%nat ->
     lookup fuel request s
     = Done tt (cleaned par cur s1)
         (tr ++ [EvAnswer0 rid ENOTDIR] ++ finally par cur)).
Proof.
  intros Ha Hf. split.
  - intros component s2 trl Hm Hd.
    destruct (lookup_from_miss_notdir (req_last request) (req_dev request)
                (req_lflag request) (req_index request)
                par cur next s1 component s2 trl Hm Hf Hd) as (fuel & E).
    eapply lookup_arrives; [exact Ha|exact E].
  - intros Hn Hc Hd.
    eapply lookup_arrives; [exact Ha|].
    erewrite (lookup_from_excess ops fs_handle rid (req_last request)
                (req_dev request) (req_lflag request) (req_index request) 0);
      [reflexivity | exact Hn | exact Hc |].
    unfold handle_excess. unfold has_flag in Hf. rewrite Hf.
    run. rewrite Hd. reflexivity.
Qed.

(** X8: when the walk stops at a node without children with some of the
    path left, the answer is [ENOENT] if no link is asked for, whatever
    is left, and also if a link is asked for and more than one component
    is left. *)
Theorem excess_path_not_found request s par cur next s1 tr :
  arrives request s par cur next s1 tr ->
  next <= req_last request ->
  has_children ops cur s1 = false ->
  (has_flag (req_lflag request) (Z.lor L_CREATE L_LINK) = false ->
   exists N, forall fuel, (N <= fuel)%nat ->
     lookup fuel request s
     = Done tt (cleaned par cur s1)
         (tr ++ [EvAnswer0 rid ENOENT] ++ finally par cur)) /\
  (forall fuel0,
     has_flag (req_lflag request) (Z.lor L_CREATE L_LINK) = true ->
     is_directory ops cur s1 = true ->
     collect_excess ops (req_last request) fuel0 next 0 EmptyString
       = Some XSlash ->
     exists N, forall fuel, (N <= fuel)%nat ->
       lookup fuel request s
       = Done tt (cleaned par cur s1)
           (tr ++ [EvAnswer0 rid ENOENT] ++ finally par cur)).
Proof.
  intros Ha Hn Hc. split.
  - intros Hf.
    eapply lookup_arrives; [exact Ha|].
    erewrite (lookup_from_excess ops fs_handle rid (req_last request)
                (req_dev request) (req_lflag request) (req_index request) 0);
      [reflexivity | exact Hn | exact Hc |].
    unfold handle_excess. unfold has_flag in Hf. rewrite Hf. reflexivity.
  - intros fuel0 Hf Hd Hx.
    eapply lookup_arrives; [exact Ha|].
    erewrite (lookup_from_excess ops fs_handle rid (req_last request)
                (req_dev request) (req_lflag request) (req_index request)
                fuel0);
      [reflexivity | exact Hn | exact Hc |].
    unfold handle_excess. unfold has_flag in Hf. rewrite Hf.
    run. rewrite Hd. simpl. rewrite Hx. reflexivity.
Qed.

(** X9: a run makes no call its flags do not ask for: [create] and
    [destroy] are called under [L_CREATE] only, [node_get] under [L_LINK]
    without [L_CREATE] only, [link] under one of the two only, and
    [unlink] under [L_UNLINK] only. *)
Theorem lookup_calls_are_licensed fuel request s s1 tr :
  lookup fuel request s = Done tt s1 tr ->
  forallb (licensed (req_lflag request)) tr = true.
Proof.
  intros H. unfold libfs_lookup in H.
  apply bind_done in H. destruct H as (root & s2 & t1 & t2 & Hr & H & ->).
  unfold call in Hr.
  destruct (root_get ops (IPC_GET_ARG3 request) s) as [r s0].
  inversion Hr; subst.
  apply lookup_from_licensed in H. simpl. exact H.
Qed.

(** X10: an empty component, that is a slash where the walk loop expects
    a name, fails the assertion of line 1342: the run stops at the head
    of the loop, and the request has not been answered. *)
Theorem empty_component_fails_assertion request s par cur next s1 tr :
  arrives request s par cur next s1 tr ->
  walk_cond ops (req_last request) cur next s1 = true ->
  plb_get_char ops next = slash ->
  answers tr = [] /\
  exists N, forall fuel, (N <= fuel)%nat ->
    lookup fuel request s = Abort s1 tr.
Proof.
  intros Ha Hc Hs. split.
  { destruct Ha as (root & s0 & tr0 & _ & Hd & ->).
    apply descends_no_answer in Hd. exact Hd. }
  destruct (lookup_after_walk ops fs_handle rid request s par cur next s1 tr
              2 (Abort s1 [])) as (N & HN).
  - exact Ha.
  - apply lookup_from_empty; assumption.
  - discriminate.
  - exists N. intros fuel Hf. rewrite (HN fuel Hf). simpl.
    rewrite app_nil_r. reflexivity.
Qed.

(** X11: an empty component is the only way for a run to fail an
    assertion: a run that stops at one has walked to the head of the loop
    and found a slash there; the assertion of the second loop (line 1433)
    never fails. *)
Theorem assertion_fails_on_empty_component_only fuel request s s1 tr :
  lookup fuel request s = Abort s1 tr ->
  exists par cur next,
    arrives request s par cur next s1 tr /\
    walk_cond ops (req_last request) cur next s1 = true /\
    plb_get_char ops next = slash.
Proof.
  intros H. unfold libfs_lookup in H. unfold bind, call in H.
  destruct (root_get ops (IPC_GET_ARG3 request) s) as [r s0] eqn:Er.
  simpl in H.
  match type of H with
  | prepend _ ?o = _ => destruct o as [[] s2 t2|s2 t2|] eqn:E
  end; simpl in H; try discriminate.
  inversion H; subst.
  apply lookup_from_abort in E.
  destruct E as (p1 & c1 & n1 & Hd & Hw & Hs).
  exists p1, c1, n1. split; [|split; assumption].
  exists r, s0, t2. split; [exact Er|]. split; [exact Hd|reflexivity].
Qed.

End Outcomes.

(** ** The window code *)

(** Adding and subtracting the same [int] gives the first value back,
    with wrap-around or without. *)
Lemma to_int_add_sub a d : Ui.is_int a -> to_int (to_int (a + d) - d) = a.
Proof.
  intros H. unfold to_int at 2.
  replace ((a + d + 2 ^ 31) mod 2 ^ 32 - 2 ^ 31 - d)
    with ((a + d + 2 ^ 31) mod 2 ^ 32 + (- 2 ^ 31 - d)) by lia.
  unfold to_int.
  replace ((a + d + 2 ^ 31) mod 2 ^ 32 + (- 2 ^ 31 - d) + 2 ^ 31)
    with ((a + d + 2 ^ 31) mod 2 ^ 32 + (- d)) by lia.
  rewrite Z.add_mod_idemp_l by lia.
  replace (a + d + 2 ^ 31 + - d) with (a + 2 ^ 31) by lia.
  unfold Ui.is_int in H. rewrite Z.mod_small by lia. lia.
Qed.

Lemma to_int_sub_add a d : Ui.is_int a -> to_int (d + to_int (a - d)) = a.
Proof.
  intros H. unfold to_int at 2.
  unfold to_int.
  replace (d + ((a - d + 2 ^ 31) mod 2 ^ 32 - 2 ^ 31) + 2 ^ 31)
    with ((a - d + 2 ^ 31) mod 2 ^ 32 + d) by lia.
  rewrite Z.add_mod_idemp_l by lia.
  replace (a - d + 2 ^ 31 + d) with (a + 2 ^ 31) by lia.
  unfold Ui.is_int in H. rewrite Z.mod_small by lia. lia.
Qed.

Lemma cursor_eqb_refl c : Ui.cursor_eqb c c = true.
Proof. destruct c; reflexivity. Qed.

Lemma cursor_eqb_eq a b : Ui.cursor_eqb a b = true -> a = b.
Proof. destruct a, b; simpl; congruence. Qed.

Lemma remaining_app held t1 t2 :
  Ui.remaining held (t1 ++ t2) = Ui.remaining (Ui.remaining held t1) t2.
Proof.
  revert held. induction t1 as [|e t1 IH]; intros held; simpl.
  - reflexivity.
  - apply IH.
Qed.

Section Window.
Context {K : vfs_constants} {X : Ui.ui_externals}.

(** X16: a window placed in a corner of the display has that corner of
    its rectangle on the corner of the display, and a full-screen window
    its top left corner; a popup window is placed at the bottom left
    corner of the parent rectangle. *)
Theorem ui_window_place_aligns w drect params p :
  Ui.is_int (Ui.x (Ui.p0 drect)) -> Ui.is_int (Ui.y (Ui.p0 drect)) ->
  Ui.is_int (Ui.x (Ui.p1 drect)) -> Ui.is_int (Ui.y (Ui.p1 drect)) ->
  Ui.ui_window_place w drect params = Some p ->
  let r := Ui.params_rect params in
  match Ui.params_placement params with
  | Ui.ui_wnd_place_default => Ui.ui_is_fullscreen (Ui.ui w) = true
  | Ui.ui_wnd_place_top_left | Ui.ui_wnd_place_full_screen =>
    to_int (Ui.x (Ui.p0 r) + Ui.x p) = Ui.x (Ui.p0 drect) /\
    to_int (Ui.y (Ui.p0 r) + Ui.y p) = Ui.y (Ui.p0 drect)
  | Ui.ui_wnd_place_top_right =>
    to_int (Ui.x (Ui.p1 r) + Ui.x p) = Ui.x (Ui.p1 drect) /\
    to_int (Ui.y (Ui.p0 r) + Ui.y p) = Ui.y (Ui.p0 drect)
  | Ui.ui_wnd_place_bottom_left =>
    to_int (Ui.x (Ui.p0 r) + Ui.x p) = Ui.x (Ui.p0 drect) /\
    to_int (Ui.y (Ui.p1 r) + Ui.y p) = Ui.y (Ui.p1 drect)
  | Ui.ui_wnd_place_bottom_right =>
    to_int (Ui.x (Ui.p1 r) + Ui.x p) = Ui.x (Ui.p1 drect) /\
    to_int (Ui.y (Ui.p1 r) + Ui.y p) = Ui.y (Ui.p1 drect)
  | Ui.ui_wnd_place_popup =>
    p = Ui.mk_coord2 (Ui.x (Ui.p0 (Ui.params_prect params)))
                     (Ui.y (Ui.p1 (Ui.params_prect params)))
  end.
Proof.
  intros H1 H2 H3 H4 H r. unfold Ui.ui_window_place in H.
  destruct (Ui.params_placement params); simpl in H;
    destruct (Ui.ui_is_fullscreen (Ui.ui w)); simpl in H;
    try discriminate; try reflexivity;
    inversion H; subst; simpl; try reflexivity;
    split; apply to_int_sub_add; assumption.
Qed.

(** X17: removing a control from the window it was added to succeeds,
    and leaves the window as it was, without a control. *)
Theorem ui_window_remove_undoes_add window w control c :
  Ui.control w = None ->
  exists w1 c1,
    Ui.ui_window_add window w control c = Some (w1, c1) /\
    Ui.control w1 = Some control /\
    Ui.elemp c1 = Some window /\
    Ui.ui_window_remove window w1 control c1
    = Some (w, Ui.mk_control None).
Proof.
  intros H. unfold Ui.ui_window_add. rewrite H. simpl.
  eexists. eexists. split; [reflexivity|].
  split; [reflexivity|]. split; [reflexivity|].
  unfold Ui.ui_window_remove. simpl. rewrite !Z.eqb_refl. simpl.
  destruct w; simpl in *. subst. reflexivity.
Qed.

(** X18: a control added to a second window belongs to that window: the
    first window still points to it, but removing it from the first
    window fails the assertion of line 441, and removing it from the
    second succeeds. *)
Theorem control_added_twice window1 w1 window2 w2 control c :
  Ui.control w1 = None ->
  Ui.control w2 = None ->
  window1 <> window2 ->
  exists w1' c1 w2' c2,
    Ui.ui_window_add window1 w1 control c = Some (w1', c1) /\
    Ui.ui_window_add window2 w2 control c1 = Some (w2', c2) /\
    Ui.control w1' = Some control /\
    Ui.ui_window_remove window1 w1' control c2 = None /\
    Ui.ui_window_remove window2 w2' control c2
    = Some (w2, Ui.mk_control None).
Proof.
  intros H1 H2 Hne. unfold Ui.ui_window_add. rewrite H1, H2. simpl.
  do 4 eexists. split; [reflexivity|]. split; [reflexivity|].
  split; [reflexivity|].
  unfold Ui.ui_window_remove. simpl. rewrite !Z.eqb_refl. simpl.
  assert (E : (window2 =? window1) = false) by (apply Z.eqb_neq; congruence).
  rewrite E. simpl. split; [reflexivity|].
  destruct w2; simpl in *. subst. reflexivity.
Qed.

(** X19: the window remembers the cursor the decoration asked for: a
    request for another cursor makes the call that sets the cursor of a
    control, and stores the cursor; a request for the cursor the window
    has, or for the same cursor once more, makes no call at all. *)
Theorem wd_set_cursor_remembers w c :
  Ui.cursor (fst (Ui.wd_set_cursor w c)) = c /\
  snd (Ui.wd_set_cursor w c)
  = (if Ui.cursor_eqb c (Ui.cursor w) then []
     else Ui.ui_window_set_ctl_cursor w c) /\
  Ui.wd_set_cursor w (Ui.cursor w) = (w, []) /\
  Ui.wd_set_cursor (fst (Ui.wd_set_cursor w c)) c
  = (fst (Ui.wd_set_cursor w c), []).
Proof.
  unfold Ui.wd_set_cursor. rewrite cursor_eqb_refl.
  destruct (Ui.cursor_eqb c (Ui.cursor w)) eqn:E; simpl.
  - apply cursor_eqb_eq in E. rewrite E, cursor_eqb_refl. auto.
  - rewrite cursor_eqb_refl. auto.
Qed.

(** X20: the position of the cursor is given to the graphic context in
    its coordinates and read back in the coordinates of the window: what
    [ui_window_cursor_get_pos] reads is what [ui_window_cursor_set_pos]
    was given, also when the sum wraps around. *)
Theorem cursor_pos_round_trip w p rc cpos :
  Ui.is_int (Ui.x p) -> Ui.is_int (Ui.y p) ->
  Ui.ui_window_cursor_set_pos w p rc
  = (rc, [Ui.GfxCursorSetPos (Ui.realgc w) cpos rc]) ->
  Ui.ui_window_cursor_get_pos w (EOK, cpos)
  = (EOK, Some p, [Ui.GfxCursorGetPos (Ui.realgc w) EOK cpos]).
Proof.
  intros Hx Hy H. unfold Ui.ui_window_cursor_set_pos in H.
  inversion H; subst. unfold Ui.ui_window_cursor_get_pos.
  rewrite Z.eqb_refl. simpl.
  rewrite !to_int_add_sub by assumption.
  destruct p; reflexivity.
Qed.

(** X21: who gets an event.  The decoration comes first: it is handed a
    position event, and is set active or inactive and painted on a change
    of focus, before anyone else is called; a position event that comes
    before the window has its decoration goes to no one.  Then the
    callback of the application is called if it is set, and only if it is
    not set does the control of the window get a keyboard event, a
    position event or the loss of the focus; the focus and the request to
    close go to the callback or to no one. *)
Theorem callback_takes_event_from_control w event :
  let decorated := negb (Ui.is_null (Ui.wdecor w)) in
  let heard (f : Ui.ui_window_cb_t -> bool) (e : Ui.ui_call) :=
    if Ui.has_cb w f then [e] else [] in
  let left_over (f : Ui.ui_window_cb_t -> bool) (e : Z -> Ui.ui_call) :=
    if Ui.has_cb w f then []
    else match Ui.control w with Some c => [e c] | None => [] end in
  let in_order (tr : list Ui.ui_call) :=
    tr = filter Ui.to_decoration tr ++ filter Ui.to_callback tr
           ++ filter Ui.to_control tr in
  (in_order (Ui.dwnd_kbd_event w event) /\
   filter Ui.to_decoration (Ui.dwnd_kbd_event w event) = [] /\
   filter Ui.to_callback (Ui.dwnd_kbd_event w event)
   = heard Ui.kbd (Ui.CbKbd (Ui.arg w) event) /\
   filter Ui.to_control (Ui.dwnd_kbd_event w event)
   = left_over Ui.kbd (fun c => Ui.UiControlKbdEvent c event)) /\
  (in_order (Ui.dwnd_pos_event w event) /\
   filter Ui.to_decoration (Ui.dwnd_pos_event w event)
   = match Ui.wdecor w with
     | Some wd => [Ui.UiWdecorPosEvent (Ui.wdecor_addr wd) event]
     | None => []
     end /\
   filter Ui.to_callback (Ui.dwnd_pos_event w event)
   = (if decorated then heard Ui.pos (Ui.CbPos (Ui.arg w) event) else []) /\
   filter Ui.to_control (Ui.dwnd_pos_event w event)
   = (if decorated
      then left_over Ui.pos (fun c => Ui.UiControlPosEvent c event)
      else [])) /\
  (in_order (Ui.dwnd_unfocus_event w) /\
   filter Ui.to_decoration (Ui.dwnd_unfocus_event w)
   = match Ui.wdecor w with
     | Some wd => [Ui.UiWdecorSetActive (Ui.wdecor_addr wd) false;
                   Ui.UiWdecorPaint (Some (Ui.wdecor_addr wd))]
     | None => []
     end /\
   filter Ui.to_callback (Ui.dwnd_unfocus_event w)
   = heard Ui.unfocus (Ui.CbUnfocus (Ui.arg w)) /\
   filter Ui.to_control (Ui.dwnd_unfocus_event w)
   = left_over Ui.unfocus Ui.UiControlUnfocus) /\
  (in_order (Ui.dwnd_focus_event w) /\
   filter Ui.to_decoration (Ui.dwnd_focus_event w)
   = match Ui.wdecor w with
     | Some wd => [Ui.UiWdecorSetActive (Ui.wdecor_addr wd) true;
                   Ui.UiWdecorPaint (Some (Ui.wdecor_addr wd))]
     | None => []
     end /\
   filter Ui.to_callback (Ui.dwnd_focus_event w)
   = heard Ui.focus (Ui.CbFocus (Ui.arg w)) /\
   filter Ui.to_control (Ui.dwnd_focus_event w) = []) /\
  (Ui.dwnd_close_event w = heard Ui.close (Ui.CbClose (Ui.arg w)) /\
   Ui.wd_close w = heard Ui.close (Ui.CbClose (Ui.arg w))).
Proof.
  unfold Ui.dwnd_kbd_event, Ui.dwnd_pos_event, Ui.dwnd_unfocus_event,
    Ui.dwnd_focus_event, Ui.dwnd_close_event, Ui.wd_close,
    Ui.ui_window_send_kbd, Ui.ui_window_send_pos, Ui.ui_window_send_unfocus,
    Ui.ui_window_send_focus, Ui.ui_window_send_close,
    Ui.ui_window_def_kbd, Ui.ui_window_def_pos, Ui.ui_window_def_unfocus.
  destruct (Ui.wdecor w); destruct (Ui.control w);
    destruct (Ui.has_cb w Ui.kbd); destruct (Ui.has_cb w Ui.pos);
    destruct (Ui.has_cb w Ui.unfocus); destruct (Ui.has_cb w Ui.focus);
    destruct (Ui.has_cb w Ui.close); simpl; repeat split.
Qed.

(** X22: once [ui_window_get_app_gc] has given a graphic context, it
    gives the same one again and makes no further call. *)
Theorem get_app_gc_again window w env rgc w1 tr env' :
  Ui.ui_window_get_app_gc window w env
  = Ui.Returned (EOK, Some (Some rgc), w1) tr ->
  Ui.ui_window_get_app_gc window w1 env'
  = Ui.Returned (EOK, Some (Some rgc), w1) [].
Proof.
  unfold Ui.ui_window_get_app_gc.
  destruct (Ui.app_gc w) as [g|] eqn:Eg; simpl.
  - intros H. inversion H; subst. rewrite Eg. reflexivity.
  - destruct (Ui.app_bmp w); simpl; [discriminate|].
    destruct (Ui.app_gc_bitmap_create env) as [rc b].
    destruct (rc =? EOK); simpl; [|discriminate].
    destruct (Ui.app_gc_bitmap_get_alloc env =? EOK); simpl; [|discriminate].
    destruct (Ui.app_gc_mem_gc_create env) as [rc2 m].
    destruct (rc2 =? EOK); simpl; [|discriminate].
    intros H. inversion H as [[Hr Hw]]. simpl. rewrite Hr. reflexivity.
Qed.

(** X23: when [ui_window_get_app_gc] fails after the bitmap has been
    made, the bitmap is destroyed but the window goes on pointing to it;
    the next call then fails the assertion of line 669. *)
Theorem get_app_gc_failure_is_final window w env b rc w1 tr env' :
  Ui.app_gc w = None ->
  Ui.app_gc_bitmap_create env = (EOK, Some b) ->
  Ui.ui_window_get_app_gc window w env = Ui.Returned (rc, None, w1) tr ->
  Ui.app_bmp w1 = Some b /\
  (exists tr0, tr = tr0 ++ [Ui.GfxBitmapDestroy (Some b)]) /\
  Ui.ui_window_get_app_gc window w1 env' = Ui.Aborted [].
Proof.
  intros Hg Hb. unfold Ui.ui_window_get_app_gc. rewrite Hg. simpl.
  destruct (Ui.app_bmp w) eqn:Ea; simpl; [discriminate|].
  rewrite Hb. rewrite Z.eqb_refl. simpl.
  destruct (Ui.app_gc_bitmap_get_alloc env =? EOK); simpl.
  - destruct (Ui.app_gc_mem_gc_create env) as [rc2 m].
    destruct (rc2 =? EOK); simpl; [discriminate|].
    intros H. inversion H; subst. simpl. rewrite Hg. simpl.
    split; [reflexivity|]. split; [|reflexivity].
    eexists [_; _; _]. reflexivity.
  - intros H. inversion H; subst. simpl. rewrite Hg. simpl.
    split; [reflexivity|]. split; [|reflexivity].
    eexists [_; _]. reflexivity.
Qed.

(** X24: [ui_window_destroy] makes the same calls after
    [ui_window_get_app_gc] as before it: it does not look at the bitmap
    and the memory GC of the application area, which stay. *)
Theorem destroy_keeps_app_area window w env r w1 tr p :
  Ui.ui_window_get_app_gc window w env = Ui.Returned (r, w1) tr ->
  Ui.ui_window_destroy p w1 = Ui.ui_window_destroy p w.
Proof.
  intros H.
  unfold Ui.ui_window_get_app_gc in H.
  destruct (Ui.app_gc w) as [g|]; simpl in H.
  - inversion H; subst. reflexivity.
  - destruct (Ui.app_bmp w); simpl in H; [discriminate|].
    destruct (Ui.app_gc_bitmap_create env) as [rc b].
    destruct (rc =? EOK); simpl in H.
    2:{ inversion H; subst. reflexivity. }
    destruct (Ui.app_gc_bitmap_get_alloc env =? EOK); simpl in H.
    2:{ inversion H; subst. reflexivity. }
    destruct (Ui.app_gc_mem_gc_create env) as [rc2 m].
    destruct (rc2 =? EOK); simpl in H; inversion H; subst; reflexivity.
Qed.

(** Lines 274-375 with server-side rendering, when they fail. *)
Lemma create_rendering_failure env v params a w dparams g dg tr0 rc tr d :
  Ui.CONFIG_UI_CS_RENDER = false ->
  Ui.create_rendering env v params a w dparams g
    (Ui.mk_create_locals None None None None None dg) tr0
  = Ui.Returned (rc, None) tr ->
  exists rest,
    tr = tr0 ++ rest /\
    Ui.remaining (Ui.RWindow a :: Ui.display_window_of d ++ Ui.dummy_gc_of dg) rest
    = Ui.display_window_of d /\
    filter Ui.is_display_window (flat_map Ui.made rest) = [].
Proof.
  intros Hcs H.
  unfold Ui.create_rendering, Ui.create_placement, Ui.create_decoration,
    Ui.create_error in H.
  rewrite Hcs in H. simpl in H.
  split_run H;
    inversion H; subst; rewrite <- ?app_assoc;
    (eexists; split; [reflexivity|]);
    split_pointers; simpl; rewrite ?Z.eqb_refl; auto.
Qed.

(** X25: with server-side rendering, a call of [ui_window_create] that
    fails unmakes all it has made except the display window: the window
    structure is freed, and the display window, which has its address as
    the argument of its callbacks, stays. *)
Theorem create_failure_keeps_display_window v params env rc tr :
  Ui.CONFIG_UI_CS_RENDER = false ->
  Ui.ui_window_create v params env = Ui.Returned (rc, None) tr ->
  Ui.remaining [] tr = filter Ui.is_display_window (flat_map Ui.made tr).
Proof.
  intros Hcs H. unfold Ui.ui_window_create, Ui.create_error, Ui.no_locals in H.
  split_run H;
    try (inversion H; subst; split_pointers; simpl; rewrite ?Z.eqb_refl;
         reflexivity);
    match type of H with
    | Ui.create_rendering _ _ _ _ _ _ _ _ ?t = _ =>
      match t with
      | context [Ui.DisplayWindowCreate _ _ _ _ ?d] =>
        apply (create_rendering_failure _ _ _ _ _ _ _ _ _ _ _ d Hcs) in H
      | _ =>
        apply (create_rendering_failure _ _ _ _ _ _ _ _ _ _ _ None Hcs) in H
      end
    end;
    destruct H as (rest & -> & Hr & Hm);
    rewrite remaining_app, flat_map_app, filter_app, Hm, app_nil_r;
    split_pointers; simpl in *; exact Hr.
Qed.

(** Calls that unmake nothing leave all that is made. *)
Lemma remaining_nothing_unmade tr :
  forall held,
    flat_map Ui.unmade tr = [] ->
    Ui.remaining held tr = held ++ flat_map Ui.made tr.
Proof.
  induction tr as [|e tr IH]; intros held H; simpl.
  - rewrite app_nil_r. reflexivity.
  - simpl in H. apply app_eq_nil in H. destruct H as [He Ht].
    rewrite He. simpl. rewrite IH by exact Ht.
    rewrite <- app_assoc. reflexivity.
Qed.

(** Lines 274-308 with client-side rendering, when the allocation of the
    bitmap cannot be read or the memory GC cannot be made. *)
Lemma create_rendering_early env v params a w dparams g l tr0 :
  Ui.CONFIG_UI_CS_RENDER = true ->
  Ui.gfx_bitmap_get_alloc env <> EOK \/ fst (Ui.mem_gc_create env) <> EOK ->
  exists bp,
    Ui.create_rendering env v params a w dparams g l tr0
    = if negb (fst (Ui.gfx_bitmap_create env) =? EOK)
      then
        Ui.create_error a
          (Ui.mk_create_locals (Ui.l_wdecor l) (Ui.l_res l) (Ui.l_memgc l)
             (Ui.l_xgc l) (snd (Ui.gfx_bitmap_create env)) (Ui.l_dgc l))
          (fst (Ui.gfx_bitmap_create env))
          (tr0 ++ [Ui.GfxBitmapCreate g bp (fst (Ui.gfx_bitmap_create env))
                     (snd (Ui.gfx_bitmap_create env))])
      else
        Ui.Returned
          (if negb (Ui.gfx_bitmap_get_alloc env =? EOK)
           then Ui.gfx_bitmap_get_alloc env
           else fst (Ui.mem_gc_create env), None)
          (tr0
           ++ [Ui.GfxBitmapCreate g bp (fst (Ui.gfx_bitmap_create env))
                 (snd (Ui.gfx_bitmap_create env));
               Ui.GfxBitmapGetAlloc (snd (Ui.gfx_bitmap_create env))
                 (Ui.gfx_bitmap_get_alloc env)]
           ++ (if negb (Ui.gfx_bitmap_get_alloc env =? EOK) then []
               else [Ui.MemGcCreate (Ui.bparams_rect bp) a
                       (fst (Ui.mem_gc_create env))
                       (snd (Ui.mem_gc_create env))])
           ++ [Ui.GfxBitmapDestroy (Ui.app_bmp w)]).
Proof.
  intros Hcs Hf. eexists.
  unfold Ui.create_rendering. rewrite Hcs.
  destruct (Ui.gfx_bitmap_create env) as [rcb b]. simpl.
  destruct (negb (rcb =? EOK)); [reflexivity|].
  destruct (negb (Ui.gfx_bitmap_get_alloc env =? EOK)) eqn:E1.
  - rewrite <- !app_assoc. reflexivity.
  - destruct (Ui.mem_gc_create env) as [rcm m]. simpl in *.
    destruct (negb (rcm =? EOK)) eqn:E2.
    + rewrite <- !app_assoc. reflexivity.
    + exfalso. apply negb_false_iff in E1, E2.
      apply Z.eqb_eq in E1, E2. destruct Hf; contradiction.
Qed.

(** Lines 193-273: a run of [ui_window_create] that returns has failed
    before the graphic context of the window is made, or goes on to make
    it. *)
Lemma create_reaches_rendering v params env a r tr :
  Ui.calloc env = Some a ->
  Ui.ui_window_create v params env = Ui.Returned r tr ->
  exists tr0,
    existsb Ui.is_bitmap_get_alloc tr0 = false /\
    (tr = Ui.Calloc (Some a) :: tr0 ++ [Ui.Free a] \/
     exists w d g l,
       flat_map Ui.unmade tr0 = [] /\
       Ui.app_bmp w = None /\
       Ui.create_rendering env v params a w d g l (Ui.Calloc (Some a) :: tr0)
       = Ui.Returned r tr).
Proof.
  intros Hc H.
  unfold Ui.ui_window_create, Ui.create_error, Ui.no_locals in H.
  rewrite Hc in H.
  split_run H;
    lazymatch type of H with
    | Ui.Returned _ (Ui.Calloc _ :: ?t) = _ =>
      inversion H; subst; exists (removelast t);
      split; [reflexivity|]; left; reflexivity
    | Ui.create_rendering _ _ _ _ ?w ?d ?g ?l (Ui.Calloc _ :: ?t) = _ =>
      exists t; split; [reflexivity|]; right;
      exists w, d, g, l; split; [reflexivity|]; split; [reflexivity|exact H]
    end.
Qed.

(** X26: with client-side rendering, when the allocation of the window
    bitmap cannot be read, or the memory GC cannot be made,
    [ui_window_create] returns the error and unmakes nothing: its last
    call destroys the bitmap of the application area, which the window
    does not have, and the window structure and the bitmap stay. *)
Theorem create_cs_render_failure_leaks v params env a r tr b rc1 :
  Ui.CONFIG_UI_CS_RENDER = true ->
  Ui.calloc env = Some a ->
  Ui.gfx_bitmap_get_alloc env <> EOK \/ fst (Ui.mem_gc_create env) <> EOK ->
  Ui.ui_window_create v params env = Ui.Returned r tr ->
  In (Ui.GfxBitmapGetAlloc (Some b) rc1) tr ->
  (exists tr0, tr = tr0 ++ [Ui.GfxBitmapDestroy None]) /\
  Ui.remaining [] tr = flat_map Ui.made tr /\
  In (Ui.RWindow a) (Ui.remaining [] tr) /\
  In (Ui.RBitmap b) (Ui.remaining [] tr).
Proof.
  intros Hcs Hc Hf H Hin.
  assert (Hg : existsb Ui.is_bitmap_get_alloc tr = true).
  { apply existsb_exists. eexists. split; [exact Hin|reflexivity]. }
  destruct (create_reaches_rendering v params env a r tr Hc H)
    as (tr0 & Hn & [-> | (w & d & g & l & Hu & Ha & Hr)]).
  { exfalso. simpl in Hg. rewrite existsb_app, Hn in Hg. discriminate Hg. }
  destruct (create_rendering_early env v params a w d g l
              (Ui.Calloc (Some a) :: tr0) Hcs Hf) as (bp & Hbp).
  rewrite Hbp in Hr. clear Hbp. rewrite Ha in Hr.
  destruct (negb (fst (Ui.gfx_bitmap_create env) =? EOK)).
  { exfalso. unfold Ui.create_error in Hr. inversion Hr; subst.
    simpl in Hg. rewrite !existsb_app, Hn in Hg. simpl in Hg.
    destruct (Ui.is_null (Ui.l_wdecor l)); destruct (Ui.is_null (Ui.l_res l));
      destruct (Ui.l_memgc l); destruct (Ui.l_xgc l);
      destruct (Ui.is_null (snd (Ui.gfx_bitmap_create env)));
      destruct (Ui.l_dgc l); discriminate Hg. }
  injection Hr as _ Htr. subst tr.
  match goal with
  | |- context [?e :: ?t0 ++ ?x :: ?y :: ?c ++ [Ui.GfxBitmapDestroy None]] =>
    assert (Hm : flat_map Ui.unmade
                   (e :: t0 ++ x :: y :: c ++ [Ui.GfxBitmapDestroy None])
                 = [])
  end.
  { simpl. rewrite !flat_map_app, Hu. simpl. rewrite flat_map_app.
    destruct (negb (Ui.gfx_bitmap_get_alloc env =? EOK)); reflexivity. }
  split.
  { match goal with
    | |- exists _, ?e :: ?t0 ++ ?x :: ?y :: ?c ++ _ = _ =>
      exists (e :: t0 ++ x :: y :: c)
    end.
    simpl. rewrite <- app_assoc. reflexivity. }
  rewrite (remaining_nothing_unmade _ [] Hm). simpl.
  split; [reflexivity|]. split; [left; reflexivity|]. right.
  rewrite flat_map_app, in_app_iff. right. simpl.
  destruct Hin as [Hin | Hin]; [discriminate Hin|].
  apply in_app_or in Hin. destruct Hin as [Hin | Hin].
  - exfalso.
    assert (Hx : existsb Ui.is_bitmap_get_alloc tr0 = true).
    { apply existsb_exists. eexists. split; [exact Hin|reflexivity]. }
    rewrite Hn in Hx. discriminate Hx.
  - destruct Hin as [Hin | [Hin | Hin]].
    + discriminate Hin.
    + injection Hin as Hb _. rewrite Hb. left. reflexivity.
    + exfalso. apply in_app_or in Hin.
      destruct (negb (Ui.gfx_bitmap_get_alloc env =? EOK)); simpl in Hin;
        repeat (destruct Hin as [Hin|Hin]; try discriminate Hin); exact Hin.
Qed.

(** Lines 274-360, when the window is made. *)
Lemma create_rendering_success env v params a w0 dparams g dg tr0 rc q tr :
  Ui.mgc w0 = None -> Ui.bmp w0 = None ->
  Ui.create_rendering env v params a w0 dparams g
    (Ui.mk_create_locals None None None None None dg) tr0
  = Ui.Returned (rc, Some q) tr ->
  exists w rest,
    q = (a, w) /\
    tr = tr0 ++ rest /\
    Ui.ui w = Ui.ui w0 /\
    Ui.remaining
      (Ui.RWindow a :: Ui.display_window_of (Ui.dwindow w0)
         ++ Ui.dummy_gc_of dg)
      (rest ++ Ui.ui_window_destroy (Some a) w)
    = Ui.dummy_gc_of dg ++ filter Ui.is_private_gc (flat_map Ui.made rest).
Proof.
  intros Hm Hb H.
  unfold Ui.create_rendering, Ui.create_placement, Ui.create_decoration,
    Ui.create_error in H.
  simpl in H.
  split_run H;
    injection H as _ Hq Ht; subst q tr; rewrite <- ?app_assoc;
    (eexists; eexists; split; [reflexivity|]; split; [reflexivity|]);
    (split; [reflexivity|]);
    unfold Ui.ui_window_destroy; simpl; rewrite ?Hm, ?Hb;
    destruct (Ui.dwindow w0); destruct (Ui.ui_is_fullscreen (Ui.ui w0));
    split_pointers; simpl; rewrite ?Z.eqb_refl; reflexivity.
Qed.

(** X27: a window that is made and then destroyed leaves two objects
    behind, when it has them: the translating GC of a window without a
    display window, and the dummy GC; everything else [ui_window_create]
    makes, [ui_window_destroy] unmakes. *)
Theorem create_destroy_leaves_private_gc v params env rc a w tr :
  Ui.ui_window_create v params env = Ui.Returned (rc, Some (a, w)) tr ->
  Ui.remaining [] (tr ++ Ui.ui_window_destroy (Some a) w)
  = filter Ui.is_private_gc (flat_map Ui.made tr).
Proof.
  intros H. unfold Ui.ui_window_create, Ui.create_error, Ui.no_locals in H.
  split_run H;
    (apply create_rendering_success in H; [|reflexivity|reflexivity]);
    destruct H as (w1 & rest & Hq & -> & Hu & Hr);
    injection Hq as <- <-;
    rewrite <- app_assoc, remaining_app, flat_map_app, filter_app;
    split_pointers; simpl in *; exact Hr.
Qed.

(** X28: [ui_window_resize] keeps the window and its bitmaps together:
    whether it succeeds or fails, the bitmaps there are after it are the
    ones the window points to, the old ones destroyed when new ones have
    taken their place, the new ones destroyed when it fails; and a call
    that fails leaves the window as it was. *)
Theorem resize_keeps_bitmaps w rect env rc w' tr :
  Ui.ui_window_resize w rect env = Ui.Returned (rc, w') tr ->
  Permutation (Ui.remaining (Ui.bitmaps w) tr) (Ui.bitmaps w') /\
  (rc <> EOK -> w' = w).
Proof.
  unfold Ui.ui_window_resize, Ui.resize_win_bitmap, Ui.resize_commit,
    Ui.resize_error.
  destruct w. destruct Ui.CONFIG_WIN_DOUBLE_BUF.
  all: destruct mgc; simpl; intros H.
  all: split_atoms H;
    repeat match goal with
           | Hp : (_, _) = (_, _) |- _ => injection Hp as; subst
           end;
    try discriminate;
    injection H as Hrc Hw Ht; subst rc w' tr;
    (split;
     [|intros Hne; try reflexivity; exfalso; apply Hne; reflexivity]);
    unfold Ui.bitmaps; simpl;
    repeat match goal with
           | |- context [match ?o with _ => _ end] =>
             is_var o; destruct o; simpl
           end;
    try absurd_null;
    repeat match goal with
           | |- context [?a =? ?b] =>
             destruct (Z.eqb_spec a b); [subst|]; simpl
           end;
    try congruence;
    first [apply Permutation_refl | apply perm_swap].
Qed.

End Window.

(** ** What the registration leaves behind *)

Section Registered.
Context {K : vfs_constants}.
Variables (vfs_phone : Z) (reg : fs_reg_t).

(** X15: the connection fibril is set up, and the file system handle
    stored, when none of the checked steps fails and then only, whatever
    status the answer of VFS has; the fibril gets the phone hash the
    request for the callback connection stored, whatever that request
    returned.  The page of the lookup buffer is stored as soon as the info
    structure has been sent, also when sharing it fails afterwards. *)
Theorem fs_register_connects env :
  let r := fs_register vfs_phone reg env in
  filter is_connection (snd r)
  = match first_checked_failure env with
    | None => [RegNewConnection (connect_phonehash (connect env));
               RegSetClientConnection]
    | Some _ => []
    end /\
  reg_fs_handle (snd (fst r))
  = match first_checked_failure env with
    | None => to_int (answer_arg1 env)
    | Some _ => reg_fs_handle reg
    end /\
  reg_plb_ro (snd (fst r))
  = (if data_write_rc env =? EOK then mappable_page env
     else reg_plb_ro reg).
Proof.
  unfold fs_register, first_checked_failure, c_true. simpl.
  destruct (data_write_rc env =? EOK); simpl; [|auto].
  destruct (mappable_page env =? 0); simpl; [auto|].
  destruct (share_in_rc env =? 0); simpl; auto.
Qed.

End Registered.

(** ** The theorems at work on the small backend *)

#[local] Existing Instance Ramfs.constants.


(** The lookup of a path with a leading slash comes to the head of the
    walk loop at offset 1, holding the root. *)
Lemma ramfs_walks_to_root plb last lflag index s :
  plb = "/abcd"%string \/ plb = "/abc"%string \/ plb = "/x/b"%string ->
  s = Ramfs.tree \/ s = Ramfs.bare ->
  walks_to (Ramfs.ops plb) 1 77
    (Ramfs.request 0 last lflag index) s
    None (Some 0) 1 (Ramfs.at_refs s 1) [EvRootGet 0 (Some 0)].
Proof.
  intros Hp Hs.
  exists (Some 0), (Ramfs.at_refs s 1), [].
  split; [destruct Hs as [-> | ->]; reflexivity|]. split; [|reflexivity].
  assert (E : req_start (Ramfs.ops plb)
                (Ramfs.request 0 last lflag index) = 1)
    by (destruct Hp as [-> | [-> | ->]]; reflexivity).
  rewrite E. apply descends_here.
Qed.

(** With the nodes of [Ramfs.tree], the lookup of [/a/b] or [/a/x] comes
    to the head of the walk loop for the second time in the directory
    [a]. *)
Lemma ramfs_walks_to_a plb lflag index rc :
  plb = "/a/b"%string \/ plb = "/a/x"%string ->
  walks_to (Ramfs.ops plb) 1 77
    (Ramfs.request 0 3 lflag index)
    (Ramfs.mk_ramfs (Ramfs.r_nodes Ramfs.tree) 8 rc 0)
    (Some 0) (Some 1) 3
    (Ramfs.mk_ramfs (Ramfs.r_nodes Ramfs.tree) 8 rc 2)
    [EvRootGet 0 (Some 0); EvMatch (Some 0) "a" (Some 1)].
Proof.
  intros Hp.
  exists (Some 0), (Ramfs.mk_ramfs (Ramfs.r_nodes Ramfs.tree) 8 rc 1),
    ([EvMatch (Some 0) "a" (Some 1)] ++ []).
  split; [reflexivity|]. split; [|reflexivity].
  destruct Hp as [-> | ->];
    (eapply descends_step with (fuel := 2%nat);
     [ | | apply descends_here]; vm_compute; reflexivity).
Qed.

(** The lookup of [/a/b] comes to the head of the walk loop for the third
    time in the file [b]. *)
Lemma ramfs_walks_to_b lflag index :
  walks_to (Ramfs.ops "/a/b") 1 77
    (Ramfs.request 0 3 lflag index) Ramfs.tree
    (Some 1) (Some 2) 5 (Ramfs.at_refs Ramfs.tree 2)
    [EvRootGet 0 (Some 0); EvMatch (Some 0) "a" (Some 1);
     EvMatch (Some 1) "b" (Some 2); EvNodePut (Some 0)].
Proof.
  exists (Some 0), (Ramfs.at_refs Ramfs.tree 1),
    ([EvMatch (Some 0) "a" (Some 1)]
       ++ [EvMatch (Some 1) "b" (Some 2); EvNodePut (Some 0)] ++ []).
  split; [reflexivity|]. split; [|reflexivity].
  eapply descends_step with (fuel := 2%nat)
                            (par1 := Some 0) (cur1 := Some 1) (next1 := 3)
                            (s1 := Ramfs.at_refs Ramfs.tree 2);
    [vm_compute; reflexivity | vm_compute; reflexivity |].
  eapply descends_step with (fuel := 2%nat);
    [ | | apply descends_here]; vm_compute; reflexivity.
Qed.

(** In the directory [a], the last component of [/a/x] is missing. *)
Lemma ramfs_misses_x rc :
  misses_last (Ramfs.ops "/a/x") 3 (Some 1) 3
    (Ramfs.mk_ramfs (Ramfs.r_nodes Ramfs.tree) 8 rc 2) "x"
    (Ramfs.mk_ramfs (Ramfs.r_nodes Ramfs.tree) 8 rc 2)
    [EvMatch (Some 1) "x" None].
Proof.
  apply (miss_in_walk (Ramfs.ops "/a/x") 3 (Some 1) 3 _ 2%nat 4 1 "x");
    vm_compute; congruence.
Qed.

Lemma intermediate_miss_not_found_witness :
  exists N, forall fuel, (N <= fuel)%nat ->
    libfs_lookup (Ramfs.ops "/x/b") 1 77 fuel (Ramfs.request 0 3 8 0)
      Ramfs.tree
    = Done tt
        (cleanup_state (Ramfs.ops "/x/b") (mk_locals None (Some 0) None)
           (Ramfs.at_refs Ramfs.tree 1))
        ([EvRootGet 0 (Some 0)]
           ++ [EvMatch (Some 0) "x" None; EvAnswer0 77 ENOENT]
           ++ cleanup_trace (mk_locals None (Some 0) None)).
Proof.
  apply (intermediate_miss_not_found (Ramfs.ops "/x/b") 1 77
           (Ramfs.request 0 3 8 0) Ramfs.tree None (Some 0) 1
           (Ramfs.at_refs Ramfs.tree 1) [EvRootGet 0 (Some 0)]
           2%nat 2 1 "x" (Ramfs.at_refs Ramfs.tree 1)).
  - apply ramfs_walks_to_root; auto.
  - reflexivity.
  - reflexivity.
  - lia.
  - reflexivity.
  - vm_compute. discriminate.
Defined.

Lemma unlink_reports_old_link_count_witness :
  (exists N, forall fuel, (N <= fuel)%nat ->
     libfs_lookup (Ramfs.ops "/a/b") 1 77 fuel (Ramfs.request 0 3 32 0)
       Ramfs.tree
     = Done tt
         (cleanup_state (Ramfs.ops "/a/b")
            (mk_locals (Some 1) (Some 2) None)
            (snd (Ramfs.r_unlink (Some 1) (Some 2)
                    (Ramfs.at_refs Ramfs.tree 2))))
         ([EvRootGet 0 (Some 0); EvMatch (Some 0) "a" (Some 1);
           EvMatch (Some 1) "b" (Some 2); EvNodePut (Some 0)]
            ++ [EvUnlink (Some 1) (Some 2) 0; EvAnswer5 77 0 1 0 2 5 1]
            ++ cleanup_trace (mk_locals (Some 1) (Some 2) None))) /\
  (exists N, forall fuel, (N <= fuel)%nat ->
     libfs_lookup (Ramfs.ops "/a/b") 1 77 fuel (Ramfs.request 0 3 96 0)
       Ramfs.tree
     = Done tt
         (cleanup_state (Ramfs.ops "/a/b") (mk_locals None (Some 1) None)
            (Ramfs.at_refs Ramfs.tree 1))
         ([EvRootGet 0 (Some 0); EvMatch (Some 0) "a" (Some 1);
           EvMatch (Some 1) "b" (Some 2); EvNodePut (Some 0)]
            ++ [EvNodePut (Some 2); EvUnlink None (Some 1) (-1);
                EvAnswer5 77 (-1) 1 0 1 0 1]
            ++ cleanup_trace (mk_locals None (Some 1) None))).
Proof.
  split.
  - destruct (unlink_reports_old_link_count (Ramfs.ops "/a/b") 1 77
                (Ramfs.request 0 3 32 0) Ramfs.tree (Some 1) (Some 2) 5
                (Ramfs.at_refs Ramfs.tree 2) _
                (ramfs_walks_to_b 32 0)) as [H _].
    + vm_compute. reflexivity.
    + reflexivity.
    + apply (H eq_refl 0
               (snd (Ramfs.r_unlink (Some 1) (Some 2)
                       (Ramfs.at_refs Ramfs.tree 2)))).
      reflexivity.
  - destruct (unlink_reports_old_link_count (Ramfs.ops "/a/b") 1 77
                (Ramfs.request 0 3 96 0) Ramfs.tree (Some 1) (Some 2) 5
                (Ramfs.at_refs Ramfs.tree 2) _
                (ramfs_walks_to_b 96 0)) as [_ H].
    + vm_compute. reflexivity.
    + reflexivity.
    + apply (H eq_refl 1 (-1) (Ramfs.at_refs Ramfs.tree 1) eq_refl).
      reflexivity.
Defined.

Lemma existing_name_already_exists_witness :
  (exists N, forall fuel, (N <= fuel)%nat ->
     libfs_lookup (Ramfs.ops "/a/b") 1 77 fuel (Ramfs.request 0 3 12 0)
       Ramfs.tree
     = Done tt
         (cleanup_state (Ramfs.ops "/a/b")
            (mk_locals (Some 1) (Some 2) None) (Ramfs.at_refs Ramfs.tree 2))
         ([EvRootGet 0 (Some 0); EvMatch (Some 0) "a" (Some 1);
           EvMatch (Some 1) "b" (Some 2); EvNodePut (Some 0)]
            ++ [EvAnswer0 77 EEXIST]
            ++ cleanup_trace (mk_locals (Some 1) (Some 2) None))) /\
  (exists reply,
     reply <> EvAnswer0 77 EEXIST /\
     exists N, forall fuel, (N <= fuel)%nat ->
       libfs_lookup (Ramfs.ops "/a/b") 1 77 fuel (Ramfs.request 0 3 8 0)
         Ramfs.tree
       = Done tt
           (cleanup_state (Ramfs.ops "/a/b")
              (mk_locals (Some 1) (Some 2) None)
              (Ramfs.at_refs Ramfs.tree 2))
           ([EvRootGet 0 (Some 0); EvMatch (Some 0) "a" (Some 1);
             EvMatch (Some 1) "b" (Some 2); EvNodePut (Some 0)]
              ++ [reply]
              ++ cleanup_trace (mk_locals (Some 1) (Some 2) None))).
Proof.
  assert (Hc : single_bit L_CREATE) by (exists 3; split; [lia|reflexivity]).
  assert (He : single_bit L_EXCLUSIVE)
    by (exists 2; split; [lia|reflexivity]).
  assert (H1 : EEXIST <> EISDIR) by (vm_compute; discriminate).
  assert (H2 : EEXIST <> ENOTDIR) by (vm_compute; discriminate).
  split.
  - destruct (existing_name_already_exists (Ramfs.ops "/a/b") 1 77
                (Ramfs.request 0 3 12 0) Ramfs.tree (Some 1) (Some 2) 5
                (Ramfs.at_refs Ramfs.tree 2) _ Hc He H1 H2
                (ramfs_walks_to_b 12 0)) as [H _].
    + vm_compute. reflexivity.
    + reflexivity.
    + reflexivity.
    + apply H. reflexivity.
  - destruct (existing_name_already_exists (Ramfs.ops "/a/b") 1 77
                (Ramfs.request 0 3 8 0) Ramfs.tree (Some 1) (Some 2) 5
                (Ramfs.at_refs Ramfs.tree 2) _ Hc He H1 H2
                (ramfs_walks_to_b 8 0)) as [_ H].
    + vm_compute. reflexivity.
    + reflexivity.
    + reflexivity.
    + apply H; reflexivity.
Defined.

Lemma failed_link_destroys_created_node_witness :
  (exists N, forall fuel, (N <= fuel)%nat ->
     libfs_lookup (Ramfs.ops "/a/x") 1 77 fuel (Ramfs.request 0 3 8 0)
       Ramfs.tree_no_link
     = Done tt
         (cleanup_state (Ramfs.ops "/a/x")
            (mk_locals (Some 0) (Some 1) None)
            (Ramfs.at_refs Ramfs.tree_no_link 2))
         ([EvRootGet 0 (Some 0); EvMatch (Some 0) "a" (Some 1)]
            ++ [EvMatch (Some 1) "x" None]
            ++ [EvCreate 0 8 (Some 4); EvLink (Some 1) (Some 4) "x" (-2);
                EvDestroy (Some 4) 0; EvAnswer0 77 (-2)]
            ++ cleanup_trace (mk_locals (Some 0) (Some 1) None))) /\
  (exists N, forall fuel, (N <= fuel)%nat ->
     libfs_lookup (Ramfs.ops "/a/x") 1 77 fuel (Ramfs.request 0 3 16 3)
       Ramfs.tree_no_link
     = Done tt
         (cleanup_state (Ramfs.ops "/a/x")
            (mk_locals (Some 0) (Some 1) None)
            (Ramfs.at_refs Ramfs.tree_no_link 3))
         ([EvRootGet 0 (Some 0); EvMatch (Some 0) "a" (Some 1)]
            ++ [EvMatch (Some 1) "x" None]
            ++ [EvNodeGet 0 3 (Some 3); EvLink (Some 1) (Some 3) "x" (-2);
                EvAnswer0 77 (-2)]
            ++ cleanup_trace (mk_locals (Some 0) (Some 1) None))).
Proof.
  split.
  - destruct (failed_link_destroys_created_node (Ramfs.ops "/a/x") 1 77
                (Ramfs.request 0 3 8 0) Ramfs.tree_no_link
                (Some 0) (Some 1) 3 (Ramfs.at_refs Ramfs.tree_no_link 2)
                _ "x" (Ramfs.at_refs Ramfs.tree_no_link 2) _ 4
                (snd (Ramfs.r_create 0 8 (Ramfs.at_refs Ramfs.tree_no_link 2)))
                (-2)
                (snd (Ramfs.r_create 0 8 (Ramfs.at_refs Ramfs.tree_no_link 2)))
                (ramfs_walks_to_a "/a/x" 8 0 (-2) (or_intror eq_refl))
                (ramfs_misses_x (-2))) as [H _].
    + reflexivity.
    + reflexivity.
    + vm_compute. discriminate.
    + apply (H eq_refl eq_refl 0 (Ramfs.at_refs Ramfs.tree_no_link 2)).
      reflexivity.
  - destruct (failed_link_destroys_created_node (Ramfs.ops "/a/x") 1 77
                (Ramfs.request 0 3 16 3) Ramfs.tree_no_link
                (Some 0) (Some 1) 3 (Ramfs.at_refs Ramfs.tree_no_link 2)
                _ "x" (Ramfs.at_refs Ramfs.tree_no_link 2) _ 3
                (Ramfs.at_refs Ramfs.tree_no_link 3) (-2)
                (Ramfs.at_refs Ramfs.tree_no_link 3)
                (ramfs_walks_to_a "/a/x" 16 3 (-2) (or_intror eq_refl))
                (ramfs_misses_x (-2))) as [_ H].
    + reflexivity.
    + reflexivity.
    + vm_compute. discriminate.
    + apply H; reflexivity.
Defined.

Lemma create_takes_precedence_over_link_witness :
  exists s' rest N,
    forallb (fun e => negb (is_node_get e))
      ([EvRootGet 0 (Some 0); EvMatch (Some 0) "a" (Some 1)]
         ++ [EvMatch (Some 1) "x" None]
         ++ EvCreate 0 24 (Some 4) :: rest)
    = true /\
    forall fuel, (N <= fuel)%nat ->
      libfs_lookup (Ramfs.ops "/a/x") 1 77 fuel (Ramfs.request 0 3 24 3)
        Ramfs.tree
      = Done tt s'
          ([EvRootGet 0 (Some 0); EvMatch (Some 0) "a" (Some 1)]
             ++ [EvMatch (Some 1) "x" None]
             ++ EvCreate 0 24 (Some 4) :: rest).
Proof.
  apply (create_takes_precedence_over_link (Ramfs.ops "/a/x") 1 77
           (Ramfs.request 0 3 24 3) Ramfs.tree
           (Some 0) (Some 1) 3 (Ramfs.at_refs Ramfs.tree 2)
           _ "x" (Ramfs.at_refs Ramfs.tree 2) _ (Some 4)
           (snd (Ramfs.r_create 0 24 (Ramfs.at_refs Ramfs.tree 2)))
           (ramfs_walks_to_a "/a/x" 24 3 0 (or_intror eq_refl))
           (ramfs_misses_x 0)); reflexivity.
Defined.

Lemma lookup_releases_references_witness :
  exists s1 tr,
    libfs_lookup (Ramfs.ops "/a/b") 1 77 64 (Ramfs.request 0 3 0 0)
      Ramfs.tree
    = Done tt s1 tr /\
    Permutation (released tr) (acquired tr ++ linked tr) /\
    (fst (root_get (Ramfs.ops "/a/b") (req_dev (Ramfs.request 0 3 0 0))
            Ramfs.tree) <> None ->
     forallb (fun e => negb (is_null_put e)) tr = true).
Proof.
  destruct (lookup_releases_references (Ramfs.ops "/a/b") 1 77
              (Ramfs.request 0 3 0 0) Ramfs.tree 64) as [Hall Hret].
  destruct Hret as (s1 & tr & H);
    [| | exists s1, tr; split; [exact H | apply (Hall _ _ H)]].
  - unfold well_formed.
    change (req_last (Ramfs.request 0 3 0 0)) with 3.
    change (req_next (Ramfs.request 0 3 0 0)) with 0.
    split; [lia|]. split; [reflexivity|].
    intros p Hp.
    assert (E : p = 0 \/ p = 1 \/ p = 2) by lia.
    destruct E as [-> | [-> | ->]]; vm_compute; congruence.
  - apply Nat.leb_le. reflexivity.
Defined.



Lemma wraparound_is_transparent_witness :
  req_last (Ramfs.request 14 1 0 0) = 1 + 16 /\
  libfs_lookup
    (with_plb (Ramfs.ops EmptyString) (list_ascii_of_string "/b____________/a"))
    1 77 64 (Ramfs.request 14 1 0 0) Ramfs.tree
  = libfs_lookup
      (with_plb (Ramfs.ops EmptyString) (list_ascii_of_string "/a/b____________"))
      1 77 64 (Ramfs.request 0 3 0 0) Ramfs.tree /\
  exists s1 tr,
    libfs_lookup
      (with_plb (Ramfs.ops EmptyString) (list_ascii_of_string "/b____________/a"))
      1 77 64 (Ramfs.request 14 1 0 0) Ramfs.tree
    = Done tt s1 tr /\
    libfs_lookup
      (with_plb (Ramfs.ops EmptyString) (list_ascii_of_string "/a/b____________"))
      1 77 64 (Ramfs.request 0 3 0 0) Ramfs.tree
    = Done tt s1 tr.
Proof.
  destruct (wraparound_is_transparent (Ramfs.ops EmptyString) 1 77
              (list_ascii_of_string "/b____________/a")
              (list_ascii_of_string "/a/b____________")
              (Ramfs.request 14 1 0 0) (Ramfs.request 0 3 0 0)
              Ramfs.tree 64) as (H1 & H2 & H3);
    try (vm_compute; intuition congruence).
  - intros i Hi. simpl in Hi.
    assert (E : i = 0 \/ i = 1 \/ i = 2 \/ i = 3) by lia.
    destruct E as [-> | [-> | [-> | ->]]]; reflexivity.
  - split; [exact H1|]. split; [exact H2|].
    apply H3.
    + unfold well_formed.
      change (req_last (Ramfs.request 14 1 0 0)) with 17.
      change (req_next (Ramfs.request 14 1 0 0)) with 14.
      split; [lia|]. split; [reflexivity|].
      intros p Hp.
      assert (E : p = 14 \/ p = 15 \/ p = 16) by lia.
      destruct E as [-> | [-> | ->]]; vm_compute; congruence.
    + apply Nat.leb_le. reflexivity.
Defined.

(** A node got by its index whose link fails is neither destroyed nor
    given back: the backend is left with one reference handed out. *)
Example ramfs_failed_link_keeps_reference :
  match Ramfs.lookup "/a/x" 0 3 16 3 Ramfs.tree_no_link with
  | Done _ s tr =>
    Ramfs.r_refs s = 1 /\ acquired tr = [0; 1] /\ released tr = [0; 1]
  | _ => False
  end.
Proof. vm_compute. repeat split. Qed.

(** ** More runs on the small backend *)

(** The lookup of [/f/x] comes to the head of the walk loop holding the
    file [f], with [x] left of the path. *)
Lemma ramfs_walks_to_f lflag index :
  walks_to (Ramfs.ops "/f/x") 1 77
    (Ramfs.request 0 3 lflag index) Ramfs.tree
    (Some 0) (Some 3) 3 (Ramfs.at_refs Ramfs.tree 2)
    [EvRootGet 0 (Some 0); EvMatch (Some 0) "f" (Some 3)].
Proof.
  exists (Some 0), (Ramfs.at_refs Ramfs.tree 1),
    ([EvMatch (Some 0) "f" (Some 3)] ++ []).
  split; [reflexivity|]. split; [|reflexivity].
  eapply descends_step with (fuel := 2%nat);
    [ | | apply descends_here]; vm_compute; reflexivity.
Qed.

(** The lookup of [//a] comes to the head of the walk loop at the second
    slash. *)
Lemma ramfs_walks_to_slash lflag index :
  walks_to (Ramfs.ops "//a") 1 77
    (Ramfs.request 0 2 lflag index) Ramfs.tree
    None (Some 0) 1 (Ramfs.at_refs Ramfs.tree 1) [EvRootGet 0 (Some 0)].
Proof.
  exists (Some 0), (Ramfs.at_refs Ramfs.tree 1), [].
  split; [reflexivity|]. split; [|reflexivity].
  apply descends_here.
Qed.

(** In [/f/x] the component [x] is all that is left at the file [f]. *)
Lemma ramfs_misses_x_under_f :
  misses_last (Ramfs.ops "/f/x") 3 (Some 3) 3
    (Ramfs.at_refs Ramfs.tree 2) "x" (Ramfs.at_refs Ramfs.tree 2) [].
Proof.
  apply (miss_after_walk (Ramfs.ops "/f/x") 3 (Some 3) 3 _ 2%nat 1 "x");
    vm_compute; congruence.
Qed.

Lemma hit_answers_node_witness :
  exists N, forall fuel, (N <= fuel)%nat ->
    libfs_lookup (Ramfs.ops "/a/b") 1 77 fuel (Ramfs.request 0 3 0 0)
      Ramfs.tree
    = Done tt
        (cleanup_state (Ramfs.ops "/a/b")
           (mk_locals (Some 1) (Some 2) None) (Ramfs.at_refs Ramfs.tree 2))
        ([EvRootGet 0 (Some 0); EvMatch (Some 0) "a" (Some 1);
          EvMatch (Some 1) "b" (Some 2); EvNodePut (Some 0)]
           ++ [EvAnswer5 77 EOK 1 0 2 5 1]
           ++ cleanup_trace (mk_locals (Some 1) (Some 2) None)).
Proof.
  apply (hit_answers_node (Ramfs.ops "/a/b") 1 77
           (Ramfs.request 0 3 0 0) Ramfs.tree (Some 1) (Some 2) 5
           (Ramfs.at_refs Ramfs.tree 2) _ (ramfs_walks_to_b 0 0)).
  - reflexivity.
  - reflexivity.
  - reflexivity.
  - reflexivity.
  - vm_compute. discriminate.
  - reflexivity.
  - reflexivity.
Defined.

Lemma hit_of_wrong_type_witness :
  (exists N, forall fuel, (N <= fuel)%nat ->
     libfs_lookup (Ramfs.ops "/abc") 1 77 fuel (Ramfs.request 0 0 1 0)
       Ramfs.tree
     = Done tt
         (cleanup_state (Ramfs.ops "/abc")
            (mk_locals None (Some 0) None) (Ramfs.at_refs Ramfs.tree 1))
         ([EvRootGet 0 (Some 0)] ++ [EvAnswer0 77 EISDIR]
            ++ cleanup_trace (mk_locals None (Some 0) None))) /\
  (exists N, forall fuel, (N <= fuel)%nat ->
     libfs_lookup (Ramfs.ops "/a/b") 1 77 fuel (Ramfs.request 0 3 2 0)
       Ramfs.tree
     = Done tt
         (cleanup_state (Ramfs.ops "/a/b")
            (mk_locals (Some 1) (Some 2) None) (Ramfs.at_refs Ramfs.tree 2))
         ([EvRootGet 0 (Some 0); EvMatch (Some 0) "a" (Some 1);
           EvMatch (Some 1) "b" (Some 2); EvNodePut (Some 0)]
            ++ [EvAnswer0 77 ENOTDIR]
            ++ cleanup_trace (mk_locals (Some 1) (Some 2) None))).
Proof.
  split.
  - destruct (hit_of_wrong_type (Ramfs.ops "/abc") 1 77
                (Ramfs.request 0 0 1 0) Ramfs.tree None (Some 0) 1
                (Ramfs.at_refs Ramfs.tree 1) [EvRootGet 0 (Some 0)])
      as [H _].
    + apply ramfs_walks_to_root; auto.
    + reflexivity.
    + reflexivity.
    + reflexivity.
    + reflexivity.
    + vm_compute. discriminate.
    + apply H; reflexivity.
  - destruct (hit_of_wrong_type (Ramfs.ops "/a/b") 1 77
                (Ramfs.request 0 3 2 0) Ramfs.tree (Some 1) (Some 2) 5
                (Ramfs.at_refs Ramfs.tree 2) _ (ramfs_walks_to_b 2 0))
      as [_ H].
    + reflexivity.
    + reflexivity.
    + reflexivity.
    + reflexivity.
    + vm_compute. discriminate.
    + apply H; reflexivity.
Defined.

Lemma hit_answers_parent_witness :
  (exists N, forall fuel, (N <= fuel)%nat ->
     libfs_lookup (Ramfs.ops "/abc") 1 77 fuel (Ramfs.request 0 0 64 0)
       Ramfs.tree
     = Done tt
         (node_put (Ramfs.ops "/abc") (Some 0) (Ramfs.at_refs Ramfs.tree 1))
         ([EvRootGet 0 (Some 0)]
            ++ [EvNodePut (Some 0); EvAnswer0 77 ENOENT])) /\
  (exists N, forall fuel, (N <= fuel)%nat ->
     libfs_lookup (Ramfs.ops "/a/b") 1 77 fuel (Ramfs.request 0 3 64 0)
       Ramfs.tree
     = Done tt
         (node_put (Ramfs.ops "/a/b") (Some 1)
            (node_put (Ramfs.ops "/a/b") (Some 2)
               (Ramfs.at_refs Ramfs.tree 2)))
         ([EvRootGet 0 (Some 0); EvMatch (Some 0) "a" (Some 1);
           EvMatch (Some 1) "b" (Some 2); EvNodePut (Some 0)]
            ++ [EvNodePut (Some 2); EvAnswer5 77 EOK 1 0 1 0 1;
                EvNodePut (Some 1)])).
Proof.
  split.
  - destruct (hit_answers_parent (Ramfs.ops "/abc") 1 77
                (Ramfs.request 0 0 64 0) Ramfs.tree None (Some 0) 1
                (Ramfs.at_refs Ramfs.tree 1) [EvRootGet 0 (Some 0)])
      as [H _].
    + apply ramfs_walks_to_root; auto.
    + reflexivity.
    + reflexivity.
    + apply H; reflexivity.
  - destruct (hit_answers_parent (Ramfs.ops "/a/b") 1 77
                (Ramfs.request 0 3 64 0) Ramfs.tree (Some 1) (Some 2) 5
                (Ramfs.at_refs Ramfs.tree 2) _ (ramfs_walks_to_b 64 0))
      as [_ H].
    + reflexivity.
    + reflexivity.
    + apply (H 1); try reflexivity. vm_compute. discriminate.
Defined.

Lemma last_miss_not_found_witness :
  exists N, forall fuel, (N <= fuel)%nat ->
    libfs_lookup (Ramfs.ops "/a/x") 1 77 fuel (Ramfs.request 0 3 0 0)
      Ramfs.tree
    = Done tt
        (cleanup_state (Ramfs.ops "/a/x")
           (mk_locals (Some 0) (Some 1) None) (Ramfs.at_refs Ramfs.tree 2))
        ([EvRootGet 0 (Some 0); EvMatch (Some 0) "a" (Some 1)]
           ++ [EvMatch (Some 1) "x" None]
           ++ [EvAnswer0 77 ENOENT]
           ++ cleanup_trace (mk_locals (Some 0) (Some 1) None)).
Proof.
  apply (last_miss_not_found (Ramfs.ops "/a/x") 1 77
           (Ramfs.request 0 3 0 0) Ramfs.tree (Some 0) (Some 1) 3
           (Ramfs.at_refs Ramfs.tree 2) _ "x" (Ramfs.at_refs Ramfs.tree 2) _
           (ramfs_walks_to_a "/a/x" 0 0 0 (or_intror eq_refl))
           (ramfs_misses_x 0)).
  - reflexivity.
  - reflexivity.
Defined.

Lemma missing_name_is_linked_witness :
  exists N, forall fuel, (N <= fuel)%nat ->
    libfs_lookup (Ramfs.ops "/a/x") 1 77 fuel (Ramfs.request 0 3 8 0)
      Ramfs.tree
    = Done tt
        (cleanup_state (Ramfs.ops "/a/x")
           (mk_locals (Some 0) (Some 1) None)
           (node_put (Ramfs.ops "/a/x") (Some 4)
              (snd (Ramfs.r_link (Some 1) (Some 4) "x"
                      (snd (Ramfs.r_create 0 8
                              (Ramfs.at_refs Ramfs.tree 2)))))))
        ([EvRootGet 0 (Some 0); EvMatch (Some 0) "a" (Some 1)]
           ++ [EvMatch (Some 1) "x" None]
           ++ [EvCreate 0 8 (Some 4); EvLink (Some 1) (Some 4) "x" EOK;
               EvAnswer5 77 EOK 1 0 4 0 1; EvNodePut (Some 4)]
           ++ cleanup_trace (mk_locals (Some 0) (Some 1) None)).
Proof.
  apply (missing_name_is_linked (Ramfs.ops "/a/x") 1 77
           (Ramfs.request 0 3 8 0) Ramfs.tree (Some 0) (Some 1) 3
           (Ramfs.at_refs Ramfs.tree 2) _ "x" (Ramfs.at_refs Ramfs.tree 2) _
           4 (snd (Ramfs.r_create 0 8 (Ramfs.at_refs Ramfs.tree 2)))
           (snd (Ramfs.r_link (Some 1) (Some 4) "x"
                   (snd (Ramfs.r_create 0 8 (Ramfs.at_refs Ramfs.tree 2)))))
           (ramfs_walks_to_a "/a/x" 8 0 0 (or_intror eq_refl))
           (ramfs_misses_x 0)).
  - reflexivity.
  - reflexivity.
  - reflexivity.
  - reflexivity.
Defined.

Lemma no_node_no_space_witness :
  exists N, forall fuel, (N <= fuel)%nat ->
    libfs_lookup (Ramfs.ops "/a/x") 1 77 fuel (Ramfs.request 0 3 16 99)
      Ramfs.tree
    = Done tt
        (cleanup_state (Ramfs.ops "/a/x")
           (mk_locals (Some 0) (Some 1) None) (Ramfs.at_refs Ramfs.tree 2))
        ([EvRootGet 0 (Some 0); EvMatch (Some 0) "a" (Some 1)]
           ++ [EvMatch (Some 1) "x" None]
           ++ [EvNodeGet 0 99 None; EvAnswer0 77 ENOSPC]
           ++ cleanup_trace (mk_locals (Some 0) (Some 1) None)).
Proof.
  apply (no_node_no_space (Ramfs.ops "/a/x") 1 77
           (Ramfs.request 0 3 16 99) Ramfs.tree (Some 0) (Some 1) 3
           (Ramfs.at_refs Ramfs.tree 2) _ "x" (Ramfs.at_refs Ramfs.tree 2) _
           (Ramfs.at_refs Ramfs.tree 2)
           (ramfs_walks_to_a "/a/x" 16 99 0 (or_intror eq_refl))
           (ramfs_misses_x 0)).
  - reflexivity.
  - reflexivity.
  - reflexivity.
Defined.

Lemma link_under_non_directory_witness :
  (exists N, forall fuel, (N <= fuel)%nat ->
     libfs_lookup (Ramfs.ops "/f/x") 1 77 fuel (Ramfs.request 0 3 8 0)
       Ramfs.tree
     = Done tt
         (cleanup_state (Ramfs.ops "/f/x")
            (mk_locals (Some 0) (Some 3) None) (Ramfs.at_refs Ramfs.tree 2))
         ([EvRootGet 0 (Some 0); EvMatch (Some 0) "f" (Some 3)]
            ++ [] ++ [EvAnswer0 77 ENOTDIR]
            ++ cleanup_trace (mk_locals (Some 0) (Some 3) None))) /\
  (exists N, forall fuel, (N <= fuel)%nat ->
     libfs_lookup (Ramfs.ops "/f/x") 1 77 fuel (Ramfs.request 0 3 8 0)
       Ramfs.tree
     = Done tt
         (cleanup_state (Ramfs.ops "/f/x")
            (mk_locals (Some 0) (Some 3) None) (Ramfs.at_refs Ramfs.tree 2))
         ([EvRootGet 0 (Some 0); EvMatch (Some 0) "f" (Some 3)]
            ++ [EvAnswer0 77 ENOTDIR]
            ++ cleanup_trace (mk_locals (Some 0) (Some 3) None))).
Proof.
  destruct (link_under_non_directory (Ramfs.ops "/f/x") 1 77
              (Ramfs.request 0 3 8 0) Ramfs.tree (Some 0) (Some 3) 3
              (Ramfs.at_refs Ramfs.tree 2) _ (ramfs_walks_to_f 8 0))
    as [H1 H2].
  - reflexivity.
  - split.
    + apply (H1 "x"%string (Ramfs.at_refs Ramfs.tree 2) [] ramfs_misses_x_under_f).
      reflexivity.
    + apply H2.
      * vm_compute. discriminate.
      * reflexivity.
      * reflexivity.
Defined.

Lemma excess_path_not_found_witness :
  (exists N, forall fuel, (N <= fuel)%nat ->
     libfs_lookup (Ramfs.ops "/f/x") 1 77 fuel (Ramfs.request 0 3 0 0)
       Ramfs.tree
     = Done tt
         (cleanup_state (Ramfs.ops "/f/x")
            (mk_locals (Some 0) (Some 3) None) (Ramfs.at_refs Ramfs.tree 2))
         ([EvRootGet 0 (Some 0); EvMatch (Some 0) "f" (Some 3)]
            ++ [EvAnswer0 77 ENOENT]
            ++ cleanup_trace (mk_locals (Some 0) (Some 3) None))) /\
  (exists N, forall fuel, (N <= fuel)%nat ->
     libfs_lookup (Ramfs.ops "/x/b") 1 77 fuel (Ramfs.request 0 3 8 0)
       Ramfs.bare
     = Done tt
         (cleanup_state (Ramfs.ops "/x/b")
            (mk_locals None (Some 0) None) (Ramfs.at_refs Ramfs.bare 1))
         ([EvRootGet 0 (Some 0)]
            ++ [EvAnswer0 77 ENOENT]
            ++ cleanup_trace (mk_locals None (Some 0) None))).
Proof.
  split.
  - destruct (excess_path_not_found (Ramfs.ops "/f/x") 1 77
                (Ramfs.request 0 3 0 0) Ramfs.tree (Some 0) (Some 3) 3
                (Ramfs.at_refs Ramfs.tree 2) _ (ramfs_walks_to_f 0 0))
      as [H _].
    + vm_compute. discriminate.
    + reflexivity.
    + apply H. reflexivity.
  - destruct (excess_path_not_found (Ramfs.ops "/x/b") 1 77
                (Ramfs.request 0 3 8 0) Ramfs.bare None (Some 0) 1
                (Ramfs.at_refs Ramfs.bare 1) [EvRootGet 0 (Some 0)])
      as [_ H].
    + apply ramfs_walks_to_root; auto.
    + vm_compute. discriminate.
    + reflexivity.
    + apply (H 3%nat); reflexivity.
Defined.

Lemma lookup_calls_are_licensed_witness :
  forallb (licensed 8)
    [EvRootGet 0 (Some 0); EvMatch (Some 0) "a" (Some 1);
     EvMatch (Some 1) "x" None; EvCreate 0 8 (Some 4);
     EvLink (Some 1) (Some 4) "x" 0; EvAnswer5 77 0 1 0 4 0 1;
     EvNodePut (Some 4); EvNodePut (Some 0); EvNodePut (Some 1)]
  = true.
Proof.
  apply (lookup_calls_are_licensed (Ramfs.ops "/a/x") 1 77 64
           (Ramfs.request 0 3 8 0) Ramfs.tree
           (Ramfs.r_node_put (Some 1)
              (Ramfs.r_node_put (Some 0)
                 (Ramfs.r_node_put (Some 4)
                    (snd (Ramfs.r_link (Some 1) (Some 4) "x"
                            (snd (Ramfs.r_create 0 8
                                    (Ramfs.at_refs Ramfs.tree 2)))))))) _).
  vm_compute. reflexivity.
Defined.

Lemma empty_component_fails_assertion_witness :
  answers [EvRootGet 0 (Some 0)] = [] /\
  exists N, forall fuel, (N <= fuel)%nat ->
    libfs_lookup (Ramfs.ops "//a") 1 77 fuel (Ramfs.request 0 2 0 0)
      Ramfs.tree
    = Abort (Ramfs.at_refs Ramfs.tree 1) [EvRootGet 0 (Some 0)].
Proof.
  apply (empty_component_fails_assertion (Ramfs.ops "//a") 1 77
           (Ramfs.request 0 2 0 0) Ramfs.tree None (Some 0) 1
           (Ramfs.at_refs Ramfs.tree 1) [EvRootGet 0 (Some 0)]
           (ramfs_walks_to_slash 0 0)).
  - reflexivity.
  - reflexivity.
Defined.

Lemma assertion_fails_on_empty_component_only_witness :
  exists par cur next,
    walks_to (Ramfs.ops "//a") 1 77 (Ramfs.request 0 2 0 0) Ramfs.tree
      par cur next (Ramfs.at_refs Ramfs.tree 1) [EvRootGet 0 (Some 0)] /\
    walk_cond (Ramfs.ops "//a") (req_last (Ramfs.request 0 2 0 0)) cur next
      (Ramfs.at_refs Ramfs.tree 1) = true /\
    plb_get_char (Ramfs.ops "//a") next = slash.
Proof.
  apply (assertion_fails_on_empty_component_only (Ramfs.ops "//a") 1 77
           64 (Ramfs.request 0 2 0 0) Ramfs.tree).
  vm_compute. reflexivity.
Defined.

Lemma libfs_lookup_answers_witness :
  List.length
    (answers
       [EvRootGet 0 (Some 0); EvMatch (Some 0) "a" (Some 1);
        EvMatch (Some 1) "x" None; EvAnswer5 77 0 1 0 1 0 1;
        EvAnswer0 77 (-1); EvNodePut (Some 0); EvNodePut (Some 1)])
  = 1%nat \/
  (List.length
     (answers
        [EvRootGet 0 (Some 0); EvMatch (Some 0) "a" (Some 1);
         EvMatch (Some 1) "x" None; EvAnswer5 77 0 1 0 1 0 1;
         EvAnswer0 77 (-1); EvNodePut (Some 0); EvNodePut (Some 1)])
   = 2%nat /\
   has_flag (req_lflag (Ramfs.request 0 3 64 0)) L_PARENT = true /\
   has_flag (req_lflag (Ramfs.request 0 3 64 0)) (Z.lor L_CREATE L_LINK)
   = false).
Proof.
  apply (libfs_lookup_answers (Ramfs.ops "/a/x") 1 77 64
           (Ramfs.request 0 3 64 0) Ramfs.tree Ramfs.tree).
  vm_compute. reflexivity.
Defined.

(** ** The registration that VFS refuses *)

Lemma fs_register_code_witness :
  fst (fst (fs_register 3 (mk_reg 0 0 0) Ramfs.refused)) = -2 /\
  - 2 ^ 31 <= fst (fst (fs_register 3 (mk_reg 0 0 0) Ramfs.refused))
  < 2 ^ 31.
Proof.
  destruct (fs_register_code 3 (mk_reg 0 0 0) Ramfs.refused) as [H1 H2].
  split.
  - exact H1.
  - apply H2; cbn; lia.
Defined.

(** ** The window code on a small example *)

Lemma ui_window_place_aligns_witness :
  to_int (Ui.x (Ui.p1 Ui.small_rect) + 90) = Ui.x (Ui.p1 Ui.screen) /\
  to_int (Ui.y (Ui.p1 Ui.small_rect) + 72) = Ui.y (Ui.p1 Ui.screen).
Proof.
  apply (ui_window_place_aligns (X := Ui.server_side) Ui.plain_window
           Ui.screen (Ui.plain_params Ui.ui_wnd_place_bottom_right)
           (Ui.mk_coord2 90 72)).
  - unfold Ui.is_int. simpl. lia.
  - unfold Ui.is_int. simpl. lia.
  - unfold Ui.is_int. simpl. lia.
  - unfold Ui.is_int. simpl. lia.
  - reflexivity.
Defined.

Lemma ui_window_remove_undoes_add_witness :
  exists w1 c1,
    Ui.ui_window_add 1000 Ui.plain_window 2000 (Ui.mk_control None)
    = Some (w1, c1) /\
    Ui.control w1 = Some 2000 /\
    Ui.elemp c1 = Some 1000 /\
    Ui.ui_window_remove 1000 w1 2000 c1
    = Some (Ui.plain_window, Ui.mk_control None).
Proof.
  apply (ui_window_remove_undoes_add 1000 Ui.plain_window 2000
           (Ui.mk_control None)).
  reflexivity.
Defined.

Lemma control_added_twice_witness :
  exists w1' c1 w2' c2,
    Ui.ui_window_add 1000 Ui.plain_window 2000 (Ui.mk_control None)
    = Some (w1', c1) /\
    Ui.ui_window_add 1001 Ui.app_window 2000 c1 = Some (w2', c2) /\
    Ui.control w1' = Some 2000 /\
    Ui.ui_window_remove 1000 w1' 2000 c2 = None /\
    Ui.ui_window_remove 1001 w2' 2000 c2
    = Some (Ui.app_window, Ui.mk_control None).
Proof.
  apply (control_added_twice 1000 Ui.plain_window 1001 Ui.app_window 2000
           (Ui.mk_control None)).
  - reflexivity.
  - reflexivity.
  - lia.
Defined.

Lemma cursor_pos_round_trip_witness :
  Ui.ui_window_cursor_get_pos Ui.plain_window (EOK, Ui.mk_coord2 8 10)
  = (EOK, Some (Ui.mk_coord2 5 6),
     [Ui.GfxCursorGetPos (Ui.realgc Ui.plain_window) EOK
        (Ui.mk_coord2 8 10)]).
Proof.
  apply (cursor_pos_round_trip Ui.plain_window (Ui.mk_coord2 5 6) 0
           (Ui.mk_coord2 8 10)).
  - unfold Ui.is_int. simpl. lia.
  - unfold Ui.is_int. simpl. lia.
  - reflexivity.
Defined.

Lemma get_app_gc_again_witness :
  Ui.ui_window_get_app_gc (X := Ui.server_side) 1000 Ui.app_window
    (Ui.app_replies (-2))
  = Ui.Returned (EOK, Some (Some 2003), Ui.app_window) [].
Proof.
  apply (get_app_gc_again (X := Ui.server_side) 1000 Ui.plain_window
           (Ui.app_replies 0) 2003 Ui.app_window
           (Ui.calls
              (Ui.ui_window_get_app_gc (X := Ui.server_side) 1000
                 Ui.plain_window (Ui.app_replies 0)))
           (Ui.app_replies (-2))).
  reflexivity.
Defined.

Lemma get_app_gc_failure_is_final_witness :
  Ui.app_bmp (Ui.with_app_bmp Ui.plain_window (Some 2001)) = Some 2001 /\
  (exists tr0,
     Ui.calls
       (Ui.ui_window_get_app_gc (X := Ui.server_side) 1000 Ui.plain_window
          (Ui.app_replies (-2)))
     = tr0 ++ [Ui.GfxBitmapDestroy (Some 2001)]) /\
  Ui.ui_window_get_app_gc (X := Ui.server_side) 1000
    (Ui.with_app_bmp Ui.plain_window (Some 2001)) (Ui.app_replies 0)
  = Ui.Aborted [].
Proof.
  apply (get_app_gc_failure_is_final (X := Ui.server_side) 1000
           Ui.plain_window (Ui.app_replies (-2)) 2001 (-2)).
  - reflexivity.
  - reflexivity.
  - reflexivity.
Defined.

Lemma destroy_keeps_app_area_witness :
  Ui.ui_window_destroy (X := Ui.server_side) (Some 1000) Ui.app_window
  = Ui.ui_window_destroy (X := Ui.server_side) (Some 1000) Ui.plain_window.
Proof.
  apply (destroy_keeps_app_area (X := Ui.server_side) 1000 Ui.plain_window
           (Ui.app_replies 0) (EOK, Some (Some 2003)) Ui.app_window
           (Ui.calls
              (Ui.ui_window_get_app_gc (X := Ui.server_side) 1000
                 Ui.plain_window (Ui.app_replies 0)))).
  reflexivity.
Defined.

Lemma create_failure_keeps_display_window_witness :
  Ui.remaining []
    (Ui.calls
       (Ui.ui_window_create (X := Ui.server_side) Ui.on_display
          (Ui.plain_params Ui.ui_wnd_place_top_left) (Ui.replies 0 (-2))))
  = [Ui.RDisplayWindow 1001].
Proof.
  apply (create_failure_keeps_display_window (X := Ui.server_side)
           Ui.on_display (Ui.plain_params Ui.ui_wnd_place_top_left)
           (Ui.replies 0 (-2)) (-2)).
  - reflexivity.
  - reflexivity.
Defined.

Lemma create_cs_render_failure_leaks_witness :
  (exists tr0,
     Ui.calls
       (Ui.ui_window_create (X := Ui.client_side) Ui.on_display
          (Ui.plain_params Ui.ui_wnd_place_top_left) (Ui.replies (-2) 0))
     = tr0 ++ [Ui.GfxBitmapDestroy None]) /\
  Ui.remaining []
    (Ui.calls
       (Ui.ui_window_create (X := Ui.client_side) Ui.on_display
          (Ui.plain_params Ui.ui_wnd_place_top_left) (Ui.replies (-2) 0)))
  = [Ui.RWindow 1000; Ui.RDisplayWindow 1001; Ui.RBitmap 1006] /\
  In (Ui.RWindow 1000)
    (Ui.remaining []
       (Ui.calls
          (Ui.ui_window_create (X := Ui.client_side) Ui.on_display
             (Ui.plain_params Ui.ui_wnd_place_top_left)
             (Ui.replies (-2) 0)))) /\
  In (Ui.RBitmap 1006)
    (Ui.remaining []
       (Ui.calls
          (Ui.ui_window_create (X := Ui.client_side) Ui.on_display
             (Ui.plain_params Ui.ui_wnd_place_top_left)
             (Ui.replies (-2) 0)))).
Proof.
  refine (create_cs_render_failure_leaks (X := Ui.client_side)
            Ui.on_display (Ui.plain_params Ui.ui_wnd_place_top_left)
            (Ui.replies (-2) 0) 1000 (-2, None)
            (Ui.calls
               (Ui.ui_window_create (X := Ui.client_side) Ui.on_display
                  (Ui.plain_params Ui.ui_wnd_place_top_left)
                  (Ui.replies (-2) 0)))
            1006 (-2) _ _ _ _ _).
  - reflexivity.
  - reflexivity.
  - left. vm_compute. discriminate.
  - reflexivity.
  - vm_compute. tauto.
Defined.

Lemma create_destroy_leaves_private_gc_witness :
  Ui.remaining []
    (Ui.calls
       (Ui.ui_window_create (X := Ui.server_side) Ui.on_nothing
          (Ui.plain_params Ui.ui_wnd_place_default) (Ui.replies 0 0))
     ++ Ui.ui_window_destroy (X := Ui.server_side) (Some 1000)
          (Ui.mk_window Ui.on_nothing None (Some 1010) (Some 1005)
             (Some 1009) None None None None None (Some 1011)
             (Some (Ui.mk_wdecor 1012 1)) None None 0 Ui.ui_curs_arrow
             (Ui.mk_coord2 45 36) Ui.small_rect))
  = [Ui.RDummyGc 1004; Ui.RXlateGc 1009].
Proof.
  apply (create_destroy_leaves_private_gc (X := Ui.server_side)
           Ui.on_nothing (Ui.plain_params Ui.ui_wnd_place_default)
           (Ui.replies 0 0) 0 1000).
  reflexivity.
Defined.

Lemma resize_keeps_bitmaps_witness :
  Permutation
    (Ui.remaining (Ui.bitmaps Ui.app_window)
       (Ui.calls
          (Ui.ui_window_resize (X := Ui.server_side) Ui.app_window
             (Ui.mk_rect (Ui.mk_coord2 0 0) (Ui.mk_coord2 20 16))
             (Ui.resize_replies (-2)))))
    (Ui.bitmaps Ui.app_window) /\
  (-2 <> EOK -> Ui.app_window = Ui.app_window).
Proof.
  apply (resize_keeps_bitmaps (X := Ui.server_side) Ui.app_window
           (Ui.mk_rect (Ui.mk_coord2 0 0) (Ui.mk_coord2 20 16))
           (Ui.resize_replies (-2)) (-2) Ui.app_window).
  reflexivity.
Defined.
